(** * Shallow embedding of the news ingestion / classification pipeline

    Source files: [pipeline.py], [processors.py], [transform.py], and
    [_coerce_item_keys] of [app.py], which prepares the pipeline's input.

    Python [str] values are sequences of Unicode code points; they are
    modelled as [pystr := list Z].  Literals of the source (most of them
    Korean) are written as UTF-8 Rocq strings and decoded with [u]. *)

From Stdlib Require Import String Ascii List ZArith Bool Lia.
From Stdlib Require Import Permutation Sorted.
Import ListNotations.

Open Scope bool_scope.

(* ------------------------------------------------------------------ *)
(** ** Python text *)

Definition pystr := list Z.

Fixpoint utf8_decode (bs : list Z) : list Z :=
  match bs with
  | [] => []
  | b0 :: rest =>
      if (b0 <? 128)%Z then b0 :: utf8_decode rest
      else if (b0 <? 224)%Z then
        match rest with
        | b1 :: r => (Z.shiftl (b0 - 192) 6 + (b1 - 128))%Z :: utf8_decode r
        | [] => []
        end
      else if (b0 <? 240)%Z then
        match rest with
        | b1 :: b2 :: r =>
            (Z.shiftl (b0 - 224) 12 + Z.shiftl (b1 - 128) 6 + (b2 - 128))%Z
              :: utf8_decode r
        | _ => []
        end
      else
        match rest with
        | b1 :: b2 :: b3 :: r =>
            (Z.shiftl (b0 - 240) 18 + Z.shiftl (b1 - 128) 12
               + Z.shiftl (b2 - 128) 6 + (b3 - 128))%Z :: utf8_decode r
        | _ => []
        end
  end.

(** A source literal, as the sequence of its code points. *)
Definition u (s : string) : pystr :=
  utf8_decode (map (fun c => Z.of_nat (nat_of_ascii c)) (list_ascii_of_string s)).

Definition str_eqb (a b : pystr) : bool :=
  if list_eq_dec Z.eq_dec a b then true else false.


(** [str.isspace] on one code point (the characters Python treats as
    whitespace: bidirectional class WS, B or S, or category Zs). *)
Definition py_isspace (c : Z) : bool :=
  ((9 <=? c) && (c <=? 13))%Z || ((28 <=? c) && (c <=? 32))%Z
  || (c =? 133)%Z || (c =? 160)%Z || (c =? 5760)%Z
  || ((8192 <=? c) && (c <=? 8202))%Z || (c =? 8232)%Z || (c =? 8233)%Z
  || (c =? 8239)%Z || (c =? 8287)%Z || (c =? 12288)%Z.

(** [str.lstrip()], [str.rstrip()], [str.strip()] without argument. *)
Fixpoint py_lstrip (s : pystr) : pystr :=
  match s with
  | c :: r => if py_isspace c then py_lstrip r else s
  | [] => []
  end.

Definition py_rstrip (s : pystr) : pystr := rev (py_lstrip (rev s)).

Definition py_strip (s : pystr) : pystr := py_rstrip (py_lstrip s).

(** [str.startswith]. *)
Fixpoint py_startswith (s pre : pystr) : bool :=
  match pre, s with
  | [], _ => true
  | p :: pre', c :: s' => (p =? c)%Z && py_startswith s' pre'
  | _ :: _, [] => false
  end.

(** [needle in hay] for strings. *)
Fixpoint py_contains (hay needle : pystr) : bool :=
  py_startswith hay needle ||
  match hay with
  | [] => false
  | _ :: hay' => py_contains hay' needle
  end.

(** [str.splitlines()] : the line boundaries are the code points 10-13,
    28-30, 133, 8232 and 8233, and the pair 13 10; the boundaries are
    dropped and no trailing empty line is produced. *)
Definition is_line_break (c : Z) : bool :=
  ((10 <=? c) && (c <=? 13))%Z || ((28 <=? c) && (c <=? 30))%Z
  || (c =? 133)%Z || (c =? 8232)%Z || (c =? 8233)%Z.

Fixpoint splitlines_aux (s : pystr) (cur : pystr) : list pystr :=
  match s with
  | [] => match cur with [] => [] | _ => [rev cur] end
  | c :: r =>
      if is_line_break c then
        match c, r with
        | 13%Z, 10%Z :: r' => rev cur :: splitlines_aux r' []
        | _, _ => rev cur :: splitlines_aux r []
        end
      else splitlines_aux r (c :: cur)
  end.

Definition py_splitlines (s : pystr) : list pystr := splitlines_aux s [].


(* ------------------------------------------------------------------ *)
(** ** JSON values and the [json] module decoder

    [json.loads] / [JSONDecoder.raw_decode] are the standard library's;
    they are modelled after CPython's scanner ([_json.scan_once]): the
    literals [null], [true], [false], [NaN], [Infinity], [-Infinity],
    numbers (optional minus, integer part [0] or a non-zero digit and
    digits, optional fraction, optional exponent; an [int]
    when there is neither fraction nor exponent, a [float] otherwise,
    kept here as its lexeme), strict strings, arrays and objects.  A
    [dict] keeps the first position and the last value of a repeated
    key.  The decoder works on the remaining input and returns the rest;
    [None] is a [JSONDecodeError].  CPython's nesting-depth limit
    ([RecursionError]) is not modelled. *)

#[local] Set Warnings "-register-all".
Inductive json : Type :=
| JNull
| JBool (b : bool)
| JInt (z : Z)
| JFloat (lexeme : pystr)
| JStr (s : pystr)
| JArr (xs : list json)
| JObj (kvs : list (pystr * json)).

Definition json_ws (c : Z) : bool :=
  (c =? 32)%Z || (c =? 9)%Z || (c =? 10)%Z || (c =? 13)%Z.

Fixpoint skip_ws (s : pystr) : pystr :=
  match s with
  | c :: r => if json_ws c then skip_ws r else s
  | [] => []
  end.

Definition is_digit (c : Z) : bool := ((48 <=? c) && (c <=? 57))%Z.

Fixpoint span_digits (s : pystr) : pystr * pystr :=
  match s with
  | c :: r => if is_digit c then let '(d, r') := span_digits r in (c :: d, r')
              else ([], s)
  | [] => ([], [])
  end.

Fixpoint digits_value (acc : Z) (d : pystr) : Z :=
  match d with
  | c :: r => digits_value (acc * 10 + (c - 48))%Z r
  | [] => acc
  end.

(** [_match_number_unicode]: sign, integer part, optional fraction,
    optional exponent (dropped again when no digit follows it). *)
Definition parse_number (s : pystr) : option (json * pystr) :=
  let '(neg, s1) := match s with 45%Z :: r => (true, r) | _ => (false, s) end in
  let int_part :=
    match s1 with
    | 48%Z :: r => Some ([48%Z], r)
    | c :: _ => if ((49 <=? c) && (c <=? 57))%Z then Some (span_digits s1) else None
    | [] => None
    end in
  match int_part with
  | None => None
  | Some (ip, s2) =>
      let '(frac, s3) :=
        match s2 with
        | 46%Z :: (c :: _) as r =>
            if is_digit c then let '(d, r') := span_digits r in (46%Z :: d, r')
            else ([], s2)
        | _ => ([], s2)
        end in
      let '(expo, s4) :=
        match s3 with
        | e :: r =>
            if (e =? 101)%Z || (e =? 69)%Z then
              let '(sg, r1) := match r with
                               | 43%Z :: r1 => ([43%Z], r1)
                               | 45%Z :: r1 => ([45%Z], r1)
                               | _ => ([], r)
                               end in
              match span_digits r1 with
              | ([], _) => ([], s3)
              | (d, r2) => (e :: sg ++ d, r2)
              end
            else ([], s3)
        | [] => ([], s3)
        end in
      let lexeme := (if neg then [45%Z] else []) ++ ip ++ frac ++ expo in
      match frac, expo with
      | [], [] =>
          let z := digits_value 0 ip in Some (JInt (if neg then - z else z)%Z, s4)
      | _, _ => Some (JFloat lexeme, s4)
      end
  end.

Definition hex_value (c : Z) : option Z :=
  if ((48 <=? c) && (c <=? 57))%Z then Some (c - 48)%Z
  else if ((97 <=? c) && (c <=? 102))%Z then Some (c - 87)%Z
  else if ((65 <=? c) && (c <=? 70))%Z then Some (c - 55)%Z
  else None.

Definition hex4 (s : pystr) : option (Z * pystr) :=
  match s with
  | a :: b :: c :: d :: r =>
      match hex_value a, hex_value b, hex_value c, hex_value d with
      | Some a, Some b, Some c, Some d =>
          Some (a * 4096 + b * 256 + c * 16 + d, r)%Z
      | _, _, _, _ => None
      end
  | _ => None
  end.

(** [scanstring] (strict): the input starts after the opening quote;
    every step consumes input, so the length bounds the steps. *)
Fixpoint parse_string_f (n : nat) (s : pystr) (acc : pystr) : option (pystr * pystr) :=
  match n with O => None | S n =>
  match s with
  | [] => None
  | 34%Z :: r => Some (rev acc, r)
  | 92%Z :: r =>
      match r with
      | 117%Z :: r1 =>
          match hex4 r1 with
          | None => None
          | Some (c, r2) =>
              if ((55296 <=? c) && (c <=? 56319))%Z then
                match r2 with
                | 92%Z :: 117%Z :: r3 =>
                    match hex4 r3 with
                    | Some (c2, r4) =>
                        if ((56320 <=? c2) && (c2 <=? 57343))%Z then
                          parse_string_f n r4
                            ((65536 + Z.shiftl (c - 55296) 10 + (c2 - 56320))%Z :: acc)
                        else parse_string_f n r2 (c :: acc)
                    | None => parse_string_f n r2 (c :: acc)
                    end
                | _ => parse_string_f n r2 (c :: acc)
                end
              else parse_string_f n r2 (c :: acc)
          end
      | e :: r1 =>
          match e with
          | 34%Z => parse_string_f n r1 (34%Z :: acc)
          | 92%Z => parse_string_f n r1 (92%Z :: acc)
          | 47%Z => parse_string_f n r1 (47%Z :: acc)
          | 98%Z => parse_string_f n r1 (8%Z :: acc)
          | 102%Z => parse_string_f n r1 (12%Z :: acc)
          | 110%Z => parse_string_f n r1 (10%Z :: acc)
          | 114%Z => parse_string_f n r1 (13%Z :: acc)
          | 116%Z => parse_string_f n r1 (9%Z :: acc)
          | _ => None
          end
      | [] => None
      end
  | c :: r => if (c <? 32)%Z then None else parse_string_f n r (c :: acc)
  end
  end.

Definition parse_string (s : pystr) (acc : pystr) : option (pystr * pystr) :=
  parse_string_f (S (length s)) s acc.


(** [dict.__setitem__] on an insertion-ordered association list. *)
Fixpoint dict_set (kvs : list (pystr * json)) (k : pystr) (v : json)
  : list (pystr * json) :=
  match kvs with
  | [] => [(k, v)]
  | (k', v') :: r => if str_eqb k k' then (k', v) :: r else (k', v') :: dict_set r k v
  end.

Fixpoint parse_value (n : nat) (s : pystr) {struct n} : option (json * pystr) :=
  match n with
  | O => None
  | S n' =>
      match s with
      | 34%Z :: r =>
          match parse_string r [] with
          | Some (t, r') => Some (JStr t, r')
          | None => None
          end
      | 123%Z :: r =>
          match skip_ws r with
          | 125%Z :: r' => Some (JObj [], r')
          | r1 => parse_members n' r1 []
          end
      | 91%Z :: r =>
          match skip_ws r with
          | 93%Z :: r' => Some (JArr [], r')
          | r1 => parse_items n' r1 []
          end
      | 110%Z :: 117%Z :: 108%Z :: 108%Z :: r => Some (JNull, r)
      | 116%Z :: 114%Z :: 117%Z :: 101%Z :: r => Some (JBool true, r)
      | 102%Z :: 97%Z :: 108%Z :: 115%Z :: 101%Z :: r => Some (JBool false, r)
      | 78%Z :: 97%Z :: 78%Z :: r => Some (JFloat (u "NaN"), r)
      | 73%Z :: 110%Z :: 102%Z :: 105%Z :: 110%Z :: 105%Z :: 116%Z :: 121%Z :: r =>
          Some (JFloat (u "Infinity"), r)
      | 45%Z :: 73%Z :: 110%Z :: 102%Z :: 105%Z :: 110%Z :: 105%Z :: 116%Z :: 121%Z :: r =>
          Some (JFloat (u "-Infinity"), r)
      | _ => parse_number s
      end
  end
with parse_items (n : nat) (s : pystr) (acc : list json) {struct n}
  : option (json * pystr) :=
  match n with
  | O => None
  | S n' =>
      match parse_value n' s with
      | None => None
      | Some (v, r) =>
          match skip_ws r with
          | 93%Z :: r' => Some (JArr (rev (v :: acc)), r')
          | 44%Z :: r' => parse_items n' (skip_ws r') (v :: acc)
          | _ => None
          end
      end
  end
with parse_members (n : nat) (s : pystr) (acc : list (pystr * json)) {struct n}
  : option (json * pystr) :=
  match n with
  | O => None
  | S n' =>
      match s with
      | 34%Z :: r =>
          match parse_string r [] with
          | None => None
          | Some (k, r1) =>
              match skip_ws r1 with
              | 58%Z :: r2 =>
                  match parse_value n' (skip_ws r2) with
                  | None => None
                  | Some (v, r3) =>
                      match skip_ws r3 with
                      | 125%Z :: r4 => Some (JObj (dict_set acc k v), r4)
                      | 44%Z :: r4 => parse_members n' (skip_ws r4) (dict_set acc k v)
                      | _ => None
                      end
                  end
              | _ => None
              end
          end
      | _ => None
      end
  end.

(** Every nested call either consumes input or is followed by one that
    does, so twice the input length bounds the recursion depth. *)
Definition fuel_for (s : pystr) : nat := 2 * length s + 2.

(** [JSONDecoder.raw_decode(s)] at the current position (no whitespace
    is skipped). *)
Definition raw_decode (s : pystr) : option (json * pystr) :=
  parse_value (fuel_for s) s.

(** [json.loads(s)]: a leading BOM is refused, JSON whitespace is
    skipped on both sides, and nothing else may follow the value. *)
Definition json_loads (s : pystr) : option json :=
  if py_startswith s [65279%Z] then None
  else
    match raw_decode (skip_ws s) with
    | Some (v, r) => match skip_ws r with [] => Some v | _ => None end
    | None => None
    end.

(** Test inputs write the double quote of JSON as a single quote. *)
Definition uq (s : string) : pystr :=
  map (fun c => if (c =? 39)%Z then 34%Z else c) (u s).


(* ------------------------------------------------------------------ *)
(** ** The [re] module

    A backtracking matcher in list-of-successes style: [re_match] lists
    every way the pattern can match at a position, in the order Python's
    backtracking engine tries them, so the head of the list is the match
    [re] reports.  A position is a zipper: the text already passed
    (reversed, for look-behind) and the text still ahead.  The patterns
    of the source have at most one capturing group; its text is kept in
    [caps].  Case-insensitive comparison folds ASCII letters and the
    code points the engine folds onto them (U+0130, U+0131 onto [i],
    U+017F onto [s], U+212A onto [k]). *)

Inductive regex : Type :=
| REps
| RChar (c : Z)
| RSet (p : Z -> bool)
| RAny                              (** [.] under [re.DOTALL] *)
| RSeq (r1 r2 : regex)
| RAlt (r1 r2 : regex)
| RStar (greedy : bool) (r : regex) (** [*] greedy, [*?] lazy *)
| RGroup (r : regex)                (** the capturing group 1 *)
| RBackref                          (** [\1] *)
| REnd                              (** [$] without [re.MULTILINE] *)
| RBehind (p : Z -> bool).          (** a one-character look-behind *)

Definition zipper := (list Z * list Z)%type.
Definition caps := option pystr.

Definition ascii_lower (c : Z) : Z :=
  if ((65 <=? c) && (c <=? 90))%Z then (c + 32)%Z else c.

Definition fold_case (c : Z) : Z :=
  if (c =? 304)%Z || (c =? 305)%Z then 105%Z
  else if (c =? 383)%Z then 115%Z
  else if (c =? 8490)%Z then 107%Z
  else ascii_lower c.

Definition char_eq (ic : bool) (c x : Z) : bool :=
  if ic then (fold_case c =? fold_case x)%Z else (c =? x)%Z.

Fixpoint prefix_eq (ic : bool) (t a : list Z) : option (list Z * list Z) :=
  match t, a with
  | [], _ => Some ([], a)
  | c :: t', x :: a' =>
      if char_eq ic c x then
        match prefix_eq ic t' a' with
        | Some (used, rest) => Some (x :: used, rest)
        | None => None
        end
      else None
  | _ :: _, [] => None
  end.

Fixpoint re_match (ic : bool) (r : regex) (z : zipper) (cp : caps)
  : list (zipper * caps) :=
  match r with
  | REps => [(z, cp)]
  | RChar c =>
      match z with
      | (b, x :: a) => if char_eq ic c x then [((x :: b, a), cp)] else []
      | (_, []) => []
      end
  | RSet p =>
      match z with
      | (b, x :: a) => if p x then [((x :: b, a), cp)] else []
      | (_, []) => []
      end
  | RAny =>
      match z with
      | (b, x :: a) => [((x :: b, a), cp)]
      | (_, []) => []
      end
  | RSeq r1 r2 =>
      flat_map (fun zc => re_match ic r2 (fst zc) (snd zc)) (re_match ic r1 z cp)
  | RAlt r1 r2 => re_match ic r1 z cp ++ re_match ic r2 z cp
  | RStar g r1 =>
      let fix go (n : nat) (z : zipper) (cp : caps) : list (zipper * caps) :=
        match n with
        | O => [(z, cp)]
        | S n' =>
            let more :=
              flat_map (fun zc =>
                          if length (snd (fst zc)) <? length (snd z)
                          then go n' (fst zc) (snd zc) else [])
                       (re_match ic r1 z cp) in
            if g then more ++ [(z, cp)] else (z, cp) :: more
        end in
      go (S (length (snd z))) z cp
  | RGroup r1 =>
      map (fun zc => (fst zc,
                      Some (firstn (length (snd z) - length (snd (fst zc))) (snd z))))
          (re_match ic r1 z cp)
  | RBackref =>
      match cp with
      | Some t =>
          match prefix_eq ic t (snd z) with
          | Some (used, rest) => [((rev used ++ fst z, rest), cp)]
          | None => []
          end
      | None => []
      end
  | REnd =>
      match snd z with
      | [] | [10%Z] => [(z, cp)]
      | _ => []
      end
  | RBehind p =>
      match fst z with
      | x :: _ => if p x then [(z, cp)] else []
      | [] => []
      end
  end.

(** The loop of [RStar] inside [re_match], as a function of its fuel. *)
Fixpoint star_go (ic : bool) (g : bool) (r1 : regex) (n : nat) (z : zipper) (cp : caps)
  : list (zipper * caps) :=
  match n with
  | O => [(z, cp)]
  | S n' =>
      let more :=
        flat_map (fun zc =>
                    if length (snd (fst zc)) <? length (snd z)
                    then star_go ic g r1 n' (fst zc) (snd zc) else [])
                 (re_match ic r1 z cp) in
      if g then more ++ [(z, cp)] else (z, cp) :: more
  end.

Definition RPlus (r : regex) : regex := RSeq r (RStar true r).
Definition ROpt (r : regex) : regex := RAlt r REps.

Fixpoint RUpTo (n : nat) (r : regex) : regex :=
  match n with
  | O => REps
  | S n' => ROpt (RSeq r (RUpTo n' r))
  end.

Fixpoint RStr (s : pystr) : regex :=
  match s with
  | [] => REps
  | c :: s' => RSeq (RChar c) (RStr s')
  end.

(** [re.search(p, s)] as a test: some position of [s] starts a match. *)
Fixpoint search_from (ic : bool) (r : regex) (b a : list Z) : bool :=
  match re_match ic r (b, a) None with
  | _ :: _ => true
  | [] => match a with
          | [] => false
          | x :: a' => search_from ic r (x :: b) a'
          end
  end.

Definition re_search (ic : bool) (r : regex) (s : pystr) : bool :=
  search_from ic r [] s.

(** [re.sub(p, repl, s)] with a literal replacement: the leftmost match
    is replaced and the scan resumes after it; after an empty match one
    character is copied. *)
Fixpoint sub_aux (ic : bool) (r : regex) (repl : pystr) (n : nat)
         (b a : list Z) : pystr :=
  match n with
  | O => a
  | S n' =>
      match re_match ic r (b, a) None with
      | ((b', a'), _) :: _ =>
          if length a' <? length a then repl ++ sub_aux ic r repl n' b' a'
          else match a with
               | [] => repl
               | x :: a2 => repl ++ x :: sub_aux ic r repl n' (x :: b) a2
               end
      | [] =>
          match a with
          | [] => []
          | x :: a2 => x :: sub_aux ic r repl n' (x :: b) a2
          end
      end
  end.

Definition re_sub (ic : bool) (r : regex) (repl : pystr) (s : pystr) : pystr :=
  sub_aux ic r repl (S (length s)) [] s.

(** [re.split(p, s)] for a pattern that never matches the empty string:
    the pieces between the successive leftmost matches. *)
Fixpoint split_aux (r : regex) (n : nat) (b a : list Z) (cur : pystr)
  : list pystr :=
  match n with
  | O => [rev cur ++ a]
  | S n' =>
      match re_match false r (b, a) None with
      | ((b', a'), _) :: _ =>
          if length a' <? length a then rev cur :: split_aux r n' b' a' []
          else match a with
               | [] => [rev cur]
               | x :: a2 => split_aux r n' (x :: b) a2 (x :: cur)
               end
      | [] =>
          match a with
          | [] => [rev cur]
          | x :: a2 => split_aux r n' (x :: b) a2 (x :: cur)
          end
      end
  end.

Definition re_split (r : regex) (s : pystr) : list pystr :=
  split_aux r (S (length s)) [] s [].

Fixpoint RCat (rs : list regex) : regex :=
  match rs with
  | [] => REps
  | [r] => r
  | r :: rs' => RSeq r (RCat rs')
  end.

Definition RCls (cs : list Z) : regex := RSet (fun c => existsb (Z.eqb c) cs).

(** [\s] of a [str] pattern. *)
Definition RSpace : regex := RSet py_isspace.

(* ------------------------------------------------------------------ *)
(** ** [html.unescape]

    The standard library's [html.unescape]: text without [&] is
    returned as it is; otherwise every match of
    [&(#[0-9]+;?|#[xX][0-9a-fA-F]+;?|[^\t\n\f <&#;]{1,32};?)] is
    replaced.  A numeric reference becomes its code point (U+FFFD for a
    surrogate or a value beyond U+10FFFF; the remapping of C1 control
    references is not modelled).  A named reference is looked up in the
    entity table, then its longest known prefix; unknown names are kept.
    The entity table is restricted to the entities below (the standard
    library knows 2231 names). *)

Definition html5_entities : list (pystr * pystr) :=
  [ (u "amp;", [38%Z]); (u "amp", [38%Z]); (u "lt;", [60%Z]); (u "lt", [60%Z]);
    (u "gt;", [62%Z]); (u "gt", [62%Z]); (u "quot;", [34%Z]); (u "quot", [34%Z]);
    (u "apos;", [39%Z]); (u "nbsp;", [160%Z]); (u "nbsp", [160%Z]) ].

Definition entity_lookup (name : pystr) : option pystr :=
  match find (fun kv => str_eqb (fst kv) name) html5_entities with
  | Some (_, v) => Some v
  | None => None
  end.

(** The longest prefix [name[:x]], for [x] from [len(name)-1] down to 2,
    that is a known entity. *)
Fixpoint longest_prefix_entity (x : nat) (name : pystr) : option (pystr * pystr) :=
  match x with
  | O | 1 => None
  | S x' =>
      match entity_lookup (firstn x name) with
      | Some v => Some (v, skipn x name)
      | None => longest_prefix_entity x' name
      end
  end.

Definition replace_named (name : pystr) : pystr :=
  match entity_lookup name with
  | Some v => v
  | None =>
      match longest_prefix_entity (length name - 1) name with
      | Some (v, rest) => v ++ rest
      | None => 38%Z :: name
      end
  end.

Definition charref_of (num : Z) : pystr :=
  if ((55296 <=? num) && (num <=? 57343))%Z || (1114111 <? num)%Z
  then [65533%Z] else [num].

Fixpoint span_hex (s : pystr) : pystr * pystr :=
  match s with
  | c :: r => match hex_value c with
              | Some _ => let '(d, r') := span_hex r in (c :: d, r')
              | None => ([], s)
              end
  | [] => ([], [])
  end.

Fixpoint hex_digits_value (acc : Z) (d : pystr) : Z :=
  match d with
  | c :: r => match hex_value c with
              | Some v => hex_digits_value (acc * 16 + v)%Z r
              | None => acc
              end
  | [] => acc
  end.

Definition drop_semi (s : pystr) : pystr :=
  match s with 59%Z :: r => r | _ => s end.

Definition name_char (c : Z) : bool :=
  negb (existsb (Z.eqb c) [9; 10; 12; 32; 60; 38; 35; 59]%Z).

Fixpoint span_name (k : nat) (s : pystr) : pystr * pystr :=
  match k, s with
  | S k', c :: r => if name_char c then let '(d, r') := span_name k' r in (c :: d, r')
                    else ([], s)
  | _, _ => ([], s)
  end.

(** One reference after an [&]: the replacement and the rest, or
    [None] when the pattern does not match there. *)
Definition charref_at (s : pystr) : option (pystr * pystr) :=
  match s with
  | 35%Z :: r =>
      match r with
      | x :: r1 =>
          if (x =? 120)%Z || (x =? 88)%Z then
            match span_hex r1 with
            | ([], _) => None
            | (d, r2) => Some (charref_of (hex_digits_value 0 d), drop_semi r2)
            end
          else
            match span_digits r with
            | ([], _) => None
            | (d, r2) => Some (charref_of (digits_value 0 d), drop_semi r2)
            end
      | [] => None
      end
  | _ =>
      match span_name 32 s with
      | ([], _) => None
      | (nm, 59%Z :: r2) => Some (replace_named (nm ++ [59%Z]), r2)
      | (nm, r2) => Some (replace_named nm, r2)
      end
  end.

Fixpoint unescape_aux (n : nat) (s : pystr) : pystr :=
  match n with
  | O => s
  | S n' =>
      match s with
      | [] => []
      | 38%Z :: r =>
          match charref_at r with
          | Some (v, r') => v ++ unescape_aux n' r'
          | None => 38%Z :: unescape_aux n' r
          end
      | c :: r => c :: unescape_aux n' r
      end
  end.

Definition html_unescape (s : pystr) : pystr :=
  if existsb (Z.eqb 38) s then unescape_aux (S (length s)) s else s.

(* ------------------------------------------------------------------ *)
(** ** [transform.strip_html] *)

(** [<(script|style).*?>.*?</\1>], with [re.IGNORECASE | re.DOTALL]. *)
Definition re_script_style : regex :=
  RCat [RChar 60; RGroup (RAlt (RStr (u "script")) (RStr (u "style")));
        RStar false RAny; RChar 62; RStar false RAny;
        RChar 60; RChar 47; RBackref; RChar 62]%Z.

(** [<br\s*/?>], with [re.IGNORECASE]. *)
Definition re_br : regex :=
  RCat [RChar 60; RChar 98; RChar 114; RStar true RSpace; ROpt (RChar 47);
        RChar 62]%Z.

(** [</p\s*>], with [re.IGNORECASE]. *)
Definition re_p_close : regex :=
  RCat [RChar 60; RChar 47; RChar 112; RStar true RSpace; RChar 62]%Z.

(** [<.*?>], with [re.DOTALL]. *)
Definition re_tag : regex := RCat [RChar 60; RStar false RAny; RChar 62]%Z.

(** [[ \t]+]. *)
Definition re_hws : regex := RPlus (RCls [32; 9]%Z).

(** [\n\s*\n\s*\n+]. *)
Definition re_nl3 : regex :=
  RCat [RChar 10; RStar true RSpace; RChar 10; RStar true RSpace;
        RPlus (RChar 10)]%Z.

Definition strip_html (html : pystr) : pystr :=
  match html with
  | [] => []
  | _ =>
      let text := re_sub true re_script_style (u " ") html in
      let text := re_sub true re_br [10%Z] text in
      let text := re_sub true re_p_close [10%Z] text in
      let text := re_sub false re_tag (u " ") text in
      let text := html_unescape text in
      let text := re_sub false re_hws (u " ") text in
      let text := re_sub false re_nl3 [10%Z; 10%Z] text in
      py_strip text
  end.


(* ------------------------------------------------------------------ *)
(** ** [pipeline.py]: input loader *)

(** A decoded JSON object: Python [dict] with [str] keys. *)
Definition pydict := list (pystr * json).

Definition dict_get (d : pydict) (k : pystr) : option json :=
  match find (fun kv => str_eqb (fst kv) k) d with
  | Some (_, v) => Some v
  | None => None
  end.

Definition _CAND_LIST_KEYS : list pystr :=
  map u ["items"; "data"; "list"; "rows"; "results"; "records"; "news"; "articles"]%string.
Definition _TEXT_KEYS : list pystr :=
  map u ["contents"; "content"; "text"; "body"; "description"; "desc"; "article";
         "contentBody"; "content_html"; "html"]%string.
Definition _TITLE_KEYS : list pystr := map u ["title"; "headline"; "subject"; "name"]%string.

Definition is_str (j : json) : bool := match j with JStr _ => true | _ => false end.
Definition is_dict (j : json) : bool := match j with JObj _ => true | _ => false end.
Definition is_list (j : json) : bool := match j with JArr _ => true | _ => false end.

(** [[x for x in xs if isinstance(x, dict)]] *)
Definition dicts_in (xs : list json) : list pydict :=
  flat_map (fun x => match x with JObj d => [d] | _ => [] end) xs.

Definition _is_item_dict (d : pydict) : bool :=
  existsb (fun k => match dict_get d k with Some v => is_str v | None => false end)
          _TEXT_KEYS.

Definition is_nil {A : Type} (l : list A) : bool :=
  match l with [] => true | _ => false end.

Definition json_depth : json -> nat :=
  fix depth (j : json) : nat :=
    match j with
    | JArr xs => S (fold_right (fun x acc => Nat.max (depth x) acc) 0 xs)
    | JObj kvs => S (fold_right (fun kv acc => Nat.max (depth (snd kv)) acc) 0 kvs)
    | _ => 1
    end.

(** [_extract_candidate_items_anywhere(node, found)] returns what the
    call appends to [found].  Each recursive call goes one level down the
    JSON tree, so the depth of the node bounds the recursion. *)
Fixpoint extract_anywhere (n : nat) (node : json) : list pydict :=
  match n with
  | O => []
  | S n' =>
      match node with
      | JArr xs =>
          let ok := dicts_in xs in
          if negb (is_nil ok) && existsb _is_item_dict ok then ok
          else flat_map (extract_anywhere n') xs
      | JObj d =>
          flat_map (fun key =>
                      match dict_get d key with
                      | Some (JArr v) =>
                          let ok := dicts_in v in
                          if negb (is_nil ok) && existsb _is_item_dict ok then ok
                          else extract_anywhere n' (JArr v)
                      | _ => []
                      end) _CAND_LIST_KEYS
          ++ flat_map (fun kv => extract_anywhere n' (snd kv)) d
      | _ => []
      end
  end.

(** [_parse_multiple_json_values(text)] on the text still ahead of the
    cursor.  [None] is the [JSONDecodeError] it re-raises.  The repair
    overwrites the [']'] under the cursor with [','] (the source writes
    [text[:i] + ',' + text[i+1:]]).  A successful decode consumes input
    and a repair is followed by a decode or a failure, so twice the
    length bounds the iterations. *)
Fixpoint parse_multiple_aux (n : nat) (s : pystr) (values : list json)
  : option (list json) :=
  match n with
  | O => None
  | S n' =>
      match py_lstrip s with
      | [] => Some (rev values)
      | s1 =>
          match raw_decode s1 with
          | Some (v, r) => parse_multiple_aux n' r (v :: values)
          | None =>
              match s1 with
              | 93%Z :: (91%Z :: _) as r => parse_multiple_aux n' (44%Z :: r) values
              | 93%Z :: (32%Z :: 91%Z :: _) as r => parse_multiple_aux n' (44%Z :: r) values
              | _ => None
              end
          end
      end
  end.

Definition _parse_multiple_json_values (text : pystr) : option (list json) :=
  parse_multiple_aux (2 * length text + 2) text [].

(** [_merge_values_into_items(values)] *)
Fixpoint first_list_key (d : pydict) (keys : list pystr) : option (list json) :=
  match keys with
  | [] => None
  | k :: ks =>
      match dict_get d k with
      | Some (JArr v) => Some v
      | _ => first_list_key d ks
      end
  end.

Definition merge_value (val : json) : list pydict :=
  match val with
  | JArr xs => dicts_in xs
  | JObj d =>
      match first_list_key d _CAND_LIST_KEYS with
      | Some v => dicts_in v
      | None => [d]
      end
  | _ => []
  end.

Definition _merge_values_into_items (values : list json) : list pydict :=
  flat_map merge_value values.

(** The record the loader makes of the whole text. *)
Definition plain_record (raw : pystr) : pydict :=
  [(u "title", JStr []); (u "text", JStr raw)].

(** [[json.loads(ln) for ln in lines]]: [None] when one of them raises. *)
Fixpoint loads_all (lines : list pystr) : option (list json) :=
  match lines with
  | [] => Some []
  | ln :: r =>
      match json_loads ln, loads_all r with
      | Some v, Some vs => Some (v :: vs)
      | _, _ => None
      end
  end.

(** The JSON Lines attempt: [Some items] when it returns. *)
Definition jsonl_attempt (raw : pystr) : option (list pydict) :=
  if py_startswith (py_lstrip raw) (u "{") && existsb (Z.eqb 10) raw then
    let lines := filter (fun ln => negb (is_nil (py_strip ln))) (py_splitlines raw) in
    match loads_all lines with
    | Some parsed =>
        if negb (is_nil parsed) && forallb is_dict parsed then Some (dicts_in parsed)
        else None
    | None => None
    end
  else None.

Definition first_is_empty_list (values : list json) : bool :=
  match values with JArr [] :: _ => true | _ => false end.

(** Lines 216-260 of [_load_input]: every strategy after JSON Lines. *)
Definition load_values (raw : pystr) : list pydict :=
  let parsed :=
    match json_loads raw with
    | Some data => Some [data]
    | None => _parse_multiple_json_values raw
    end in
  match parsed with
  | None => [plain_record raw]
  | Some values =>
      let items := _merge_values_into_items values in
      let '(values, items) :=
        if is_nil items && first_is_empty_list values then
          match _parse_multiple_json_values raw with
          | Some vs => (vs, _merge_values_into_items vs)
          | None => (values, items)
          end
        else (values, items) in
      let items :=
        match items, values with
        | [], (JObj _ as v0) :: _ =>
            let found := extract_anywhere (json_depth v0) v0 in
            if negb (is_nil found) then found else items
        | _, _ => items
        end in
      let items :=
        match items, values with
        | [], JArr xs :: _ => dicts_in xs
        | _, _ => items
        end in
      if is_nil items then [plain_record raw] else items
  end.

(** [_load_input], from the text the file was read as. *)
Definition _load_input (text : pystr) : list pydict :=
  let raw := py_strip text in
  if is_nil raw then []
  else match jsonl_attempt raw with
       | Some parsed => parsed
       | None => load_values raw
       end.


(* ------------------------------------------------------------------ *)
(** ** [pipeline.py]: field normalisation and the main loop *)

(** [str(z)] for an [int]. *)
Fixpoint pos_to_dec (fuel : nat) (n : Z) (acc : pystr) : pystr :=
  match fuel with
  | O => acc
  | S f =>
      let acc' := (48 + n mod 10)%Z :: acc in
      if (n <? 10)%Z then acc' else pos_to_dec f (n / 10)%Z acc'
  end.

Definition z_to_dec (z : Z) : pystr :=
  let digits := pos_to_dec (S (Z.to_nat (Z.log2 (Z.abs z)))) (Z.abs z) [] in
  if (z <? 0)%Z then 45%Z :: digits else digits.

(** [[^a-z0-9]] *)
Definition not_az09 (c : Z) : bool :=
  negb (((97 <=? c) && (c <=? 122)) || ((48 <=? c) && (c <=? 57)))%Z.

Section Normalize.

(** [str.lower()] (Unicode case mapping) and [str()] of a decoded
    [float], [list] or [dict] (their [repr]) are the interpreter's; the
    development is parametric in them. *)
Context (py_lower : pystr -> pystr) (py_str_other : json -> pystr).

(** [str(v)] for a decoded JSON value. *)
Definition py_str (j : json) : pystr :=
  match j with
  | JNull => u "None"
  | JBool true => u "True"
  | JBool false => u "False"
  | JInt z => z_to_dec z
  | JStr s => s
  | _ => py_str_other j
  end.

(** [_coerce_id(v)]: [JNull] is Python's [None]. *)
Definition _coerce_id (v : json) : option pystr :=
  match v with
  | JNull => None
  | _ => let s := py_strip (py_str v) in if is_nil s then None else Some s
  end.

Definition exact_keys : list pystr :=
  map u ["NewsItemId"; "news_item_id"; "newsIdentifyId"; "newsIdentifyID";
         "newsidentifyid"; "newsId"; "newsID"; "id"]%string.

Fixpoint first_exact_id (item : pydict) (keys : list pystr) : option pystr :=
  match keys with
  | [] => None
  | k :: ks =>
      match dict_get item k with
      | Some v =>
          match _coerce_id v with
          | Some s => Some s
          | None => first_exact_id item ks
          end
      | None => first_exact_id item ks
      end
  end.

Definition id_like_key (k : pystr) : bool :=
  let key_norm := re_sub false (RSet not_az09) [] (py_lower k) in
  (py_contains key_norm (u "news") && py_contains key_norm (u "id"))
  || (py_contains key_norm (u "identify") && py_contains key_norm (u "id")).

(** The loose detection loop over [item.items()]. *)
Fixpoint loose_id (kvs : pydict) : option pystr :=
  match kvs with
  | [] => None
  | (k, v) :: r =>
      if id_like_key k then
        match _coerce_id v with
        | Some s => Some s
        | None => loose_id r
        end
      else loose_id r
  end.

Definition _get_news_id (item : pydict) : option pystr :=
  match first_exact_id item exact_keys with
  | Some s => Some s
  | None => loose_id item
  end.

Fixpoint first_str_field (it : pydict) (keys : list pystr) : pystr :=
  match keys with
  | [] => []
  | k :: ks =>
      match dict_get it k with
      | Some (JStr s) => s
      | _ => first_str_field it ks
      end
  end.

(** [<[a-zA-Z][^>]*>] *)
Definition re_open_tag : regex :=
  RCat [RChar 60;
        RSet (fun c => ((65 <=? c) && (c <=? 90)) || ((97 <=? c) && (c <=? 122)))%Z;
        RStar true (RSet (fun c => negb (c =? 62)%Z)); RChar 62]%Z.

Definition _has_html (s : pystr) : bool :=
  negb (is_nil s) && re_search false re_open_tag s.

Record NormItem := {
  NewsItemId : option pystr;
  title : pystr;
  contents : pystr;
  plain_text : pystr;
  has_html : bool
}.

Definition normalize_item (it : pydict) : NormItem :=
  let contents := first_str_field it _TEXT_KEYS in
  {| NewsItemId := _get_news_id it;
     title := first_str_field it _TITLE_KEYS;
     contents := contents;
     plain_text := strip_html contents;
     has_html := _has_html contents |}.

Definition _normalize_items (items : list pydict) : list NormItem :=
  map normalize_item items.

End Normalize.

(** [list(dict.fromkeys(xs))]: first occurrences, in order. *)
Fixpoint dedup_aux (seen : list pystr) (xs : list pystr) : list pystr :=
  match xs with
  | [] => []
  | x :: r =>
      if existsb (str_eqb x) seen then dedup_aux seen r
      else x :: dedup_aux (x :: seen) r
  end.

Definition dict_fromkeys (xs : list pystr) : list pystr := dedup_aux [] xs.

(** [while len(xs) < 4: xs.append("")] *)
Definition pad_empty (k : nat) (xs : list pystr) : list pystr :=
  xs ++ repeat [] (k - length xs).

(** [pipeline._pad4] (the elements are [str]: [classify] returns them). *)
Definition _pad4 (xs : list pystr) : list pystr :=
  let xs := filter (fun x => negb (is_nil (py_strip x))) xs in
  let xs := firstn 4 (dict_fromkeys xs) in
  pad_empty 4 xs.

(** The [Processor] the main loop calls (LLM-backed or rule based);
    [title] is the optional keyword argument. *)
Record Processor := {
  proc_summarize : pystr -> option pystr -> list pystr;
  proc_classify : pystr -> option pystr -> pystr * list pystr;
  proc_detect_region : pystr -> option pystr -> pystr
}.

Record OutputRecord := {
  out_NewsItemId : option pystr;
  out_title : pystr;
  out_summary : pystr;
  out_summary_lines : list pystr;
  out_category : pystr;
  out_subcategories : list pystr;
  out_region : pystr;
  out_has_html : bool;
  out_length_chars : nat
}.

Fixpoint join_lines (xs : list pystr) : pystr :=
  match xs with
  | [] => []
  | [x] => x
  | x :: r => x ++ 10%Z :: join_lines r
  end.

(** The body of the [for] loop of [main]. *)
Definition process_item (proc : Processor) (item : NormItem) : OutputRecord :=
  let text := plain_text item in
  let ttl := title item in
  let summary_lines := proc_summarize proc text (Some ttl) in
  let '(primary_cat, subcats) := proc_classify proc text (Some ttl) in
  let region := let r := proc_detect_region proc text (Some ttl) in
                if is_nil r then u "전국" else r in
  {| out_NewsItemId := NewsItemId item;
     out_title := ttl;
     out_summary := join_lines (firstn 3 summary_lines);
     out_summary_lines := firstn 3 summary_lines;
     out_category := primary_cat;
     out_subcategories := _pad4 subcats;
     out_region := region;
     out_has_html := has_html item;
     out_length_chars := length text |}.

(** [main]: the list [results] it builds, one record per normalised item. *)
Definition main_results (py_lower : pystr -> pystr) (py_str_other : json -> pystr)
           (proc : Processor) (text : pystr) : list OutputRecord :=
  map (process_item proc)
      (_normalize_items py_lower py_str_other (_load_input text)).

Definition is_surrogate (c : Z) : bool := ((55296 <=? c) && (c <=? 57343))%Z.

(** The strings [json.dumps] writes for one record (keys are ASCII). *)
Definition record_strs (r : OutputRecord) : list pystr :=
  match out_NewsItemId r with Some i => [i] | None => [] end
  ++ [out_title r; out_summary r] ++ out_summary_lines r
  ++ [out_category r] ++ out_subcategories r ++ [out_region r].

Definition record_has_surrogate (r : OutputRecord) : bool :=
  existsb (existsb is_surrogate) (record_strs r).

(** [out_path.write_text(json.dumps(results, ensure_ascii=False, indent=2),
    encoding="utf-8")]: with [ensure_ascii=False] every string is copied
    as it is (only quotes, backslashes and control characters are
    escaped), so the UTF-8 encoding raises [UnicodeEncodeError] exactly
    when a string of [results] holds a surrogate code point; then no
    array is written ([None]).  Otherwise the file holds [results]. *)
Definition main_output (py_lower : pystr -> pystr) (py_str_other : json -> pystr)
           (proc : Processor) (text : pystr) : option (list OutputRecord) :=
  let results := main_results py_lower py_str_other proc text in
  if existsb record_has_surrogate results then None else Some results.

(* ------------------------------------------------------------------ *)
(** ** [processors.py] *)

Module Processors.

Definition _PRIMARY_CATEGORIES : list pystr :=
  map u ["정책_정부"; "산업_기업"; "연구_기술"; "규제_제도";
         "수출_글로벌"; "투자_금융"; "인사_조직"; "사회"; "기타"]%string.

Definition _REGION_KWS : list pystr :=
  map u ["서울"; "부산"; "대구"; "인천"; "광주"; "대전"; "울산";
         "세종"; "경기"; "강원"; "충북"; "충남"; "전북"; "전남";
         "경북"; "경남"; "제주"]%string.

(** [_REGION_ALIASES], in the insertion order of the [dict] literal. *)
Definition _REGION_ALIASES : list (pystr * pystr) :=
  map (fun ab => (u (fst ab), u (snd ab)))
    [("서울시", "서울"); ("부산시", "부산"); ("대구시", "대구"); ("인천시", "인천");
     ("광주시", "광주"); ("대전시", "대전"); ("울산시", "울산"); ("세종시", "세종");
     ("경기도", "경기"); ("강원도", "강원"); ("충청북도", "충북"); ("충청남도", "충남");
     ("전라북도", "전북"); ("전라남도", "전남"); ("경상북도", "경북"); ("경상남도", "경남");
     ("제주도", "제주"); ("수도권", "경기")]%string.

(** [_pad4] of [processors.py]: the kept entries are stripped. *)
Definition _pad4 (xs : list pystr) : list pystr :=
  let xs := map py_strip (filter (fun x => negb (is_nil (py_strip x))) xs) in
  let xs := firstn 4 (dict_fromkeys xs) in
  pad_empty 4 xs.

(** [f"{title or ''}"] *)
Definition title_or_empty (title : option pystr) : pystr :=
  match title with Some t => t | None => [] end.

(** [Processor.detect_region] *)
Definition detect_region (text : pystr) (title : option pystr) : pystr :=
  let blob := title_or_empty title ++ 10%Z :: text in
  match find (fun ab => py_contains blob (fst ab)) _REGION_ALIASES with
  | Some (_, base) => base
  | None =>
      match find (fun kw => py_contains blob kw) _REGION_KWS with
      | Some kw => kw
      | None => u "전국"
      end
  end.

Definition has_any (t : pystr) (terms : list string) : bool :=
  existsb (fun term => py_contains t (u term)) terms.

Definition scores_t := list (pystr * Z).

(** [scores[cat] = scores.get(cat, 0) + n] on a key already present. *)
Definition bump (scores : scores_t) (cat : string) (n : Z) : scores_t :=
  map (fun kv => if str_eqb (fst kv) (u cat) then (fst kv, (snd kv + n)%Z) else kv)
      scores.

(** [max(scores.values()) if scores else 0] *)
Definition max_score_of (scores : scores_t) : Z :=
  match map snd scores with
  | [] => 0%Z
  | x :: xs => fold_left Z.max xs x
  end.

Section Classify.

Context (py_lower : pystr -> pystr).

(** The keyword scores of [Processor._fallback_classify] (lines 285-326),
    in the order of [_PRIMARY_CATEGORIES]. *)
Definition fallback_scores (text : pystr) (title : option pystr) (region : pystr)
  : scores_t :=
  let t := py_lower (title_or_empty title ++ 32%Z :: text) in
  let scores := map (fun k => (k, 0%Z)) _PRIMARY_CATEGORIES in
  let scores :=
    if has_any t ["대출"; "은행"; "보험"; "카드"; "신용"; "금감원"; "채무조정"; "연체";
                  "보험료"; "금융지원"; "보조금"; "세제"]%string
    then bump scores "투자_금융" 5 else scores in
  let scores :=
    if has_any t ["산업재해"; "산재"; "중대재해"; "노동안전"; "안전사고"; "산업안전"]%string
    then bump scores "산업_기업" 5 else scores in
  let scores :=
    if has_any t ["수출"; "무역"; "해외"; "글로벌"; "fta"]%string
    then bump scores "수출_글로벌" 5 else scores in
  let scores :=
    if has_any t ["r&d"; "연구"; "기술"; "ai"; "인공지능"; "혁신"; "디지털전환"]%string
    then bump scores "연구_기술" 5 else scores in
  let scores :=
    if has_any t ["채용"; "고용"; "임금"; "노사"; "근로시간"]%string
    then bump scores "인사_조직" 4 else scores in
  let scores :=
    if has_any t ["행사"; "축제"; "기념식"; "경축식"; "초대합니다"; "페스티벌"; "시민 참여";
                  "광복"; "문화"; "공연"; "전시"]%string
    then bump scores "사회" 4 else scores in
  let scores :=
    if has_any t ["농축산물"; "전통시장"; "온누리상품권"; "하나로마트"; "할인"; "쿠폰";
                  "소비진작"; "환급"]%string
    then bump scores "사회" 3 else scores in
  let scores :=
    if has_any t ["규제 완화"; "규제완화"; "제도 개선"; "제도개선"; "개정"; "시행령";
                  "시행규칙"; "법안"; "조례"]%string
    then bump scores "규제_제도" 3 else scores in
  let scores :=
    if has_any t ["대통령"; "국무회의"; "국정"; "국정운영"; "청와대"; "국무위원"]%string
    then bump scores "정책_정부" 3 else scores in
  let scores :=
    if has_any t ["정부"; "부처"; "위원회"; "정책"; "정부합동"; "국정브리핑"]%string
    then bump scores "정책_정부" 1 else scores in
  let scores :=
    if negb (str_eqb region (u "전국")) && has_any t ["행사"; "축제"; "기념식"; "페스티벌"]%string
    then bump scores "사회" 2 else scores in
  scores.

(** The tie-breaker (lines 329-338). *)
Definition pick_primary (scores : scores_t) : pystr :=
  let max_score := max_score_of scores in
  if (max_score =? 0)%Z then u "기타"
  else
    let tied := map fst (filter (fun kv => (snd kv =? max_score)%Z) scores) in
    match tied with
    | [c] => c
    | _ =>
        let non_policy := filter (fun c => negb (str_eqb c (u "정책_정부"))) tied in
        match non_policy with
        | c :: _ => c
        | [] => hd [] tied
        end
    end.

(** The primary category [Processor._fallback_classify] returns (the
    first component of its result). *)
Definition _fallback_classify_primary (text : pystr) (title : option pystr)
           (region : pystr) : pystr :=
  pick_primary (fallback_scores text title region).

End Classify.

(** [s.rstrip(chars)] *)
Definition rstrip_chars (chars : pystr) (s : pystr) : pystr :=
  rev ((fix go (r : list Z) : list Z :=
          match r with
          | c :: r' => if existsb (Z.eqb c) chars then go r' else r
          | [] => []
          end) (rev s)).

Definition RAlts (rs : list regex) : regex :=
  match rs with
  | [] => REps
  | r :: rs' => fold_left RAlt rs' r
  end.

Definition RWord (s : string) : regex := RStr (u s).

(** [\s+] *)
Definition re_ws_run : regex := RPlus RSpace.

(** [_close_sentence(s)] *)
Definition _close_sentence (s : pystr) : pystr :=
  let s := py_strip s in
  if is_nil s then []
  else
    let s := re_sub false re_ws_run (u " ") s in
    if re_search false (RSeq (RCls [46; 33; 63]%Z) REnd) s
       || re_search false
            (RSeq (RAlts (map RWord ["다"; "요"; "합니다"; "이다"]%string)) REnd) s
    then s
    else rstrip_chars (u "…,:;") s ++ u "다".

(** [(?<=[\.!?]|다)\s+] *)
Definition re_sentence_gap : regex :=
  RSeq (RBehind (fun c => existsb (Z.eqb c) ([46; 33; 63]%Z ++ u "다"))) re_ws_run.

(** [_split_sentences_ko(text)] *)
Definition _split_sentences_ko (text : pystr) : list pystr :=
  let blob := py_strip text in
  if is_nil blob then []
  else
    let blob := re_sub false re_ws_run (u " ") blob in
    let sents := re_split re_sentence_gap blob in
    map py_strip (filter (fun s => negb (is_nil s) && (4 <? length (py_strip s))) sents).

(** [sorted(xs, key=key, reverse=True)]: stable, highest key first. *)
Fixpoint insert_desc {A : Type} (key : A -> Z) (x : A) (ys : list A) : list A :=
  match ys with
  | [] => [x]
  | y :: ys' => if (key x <=? key y)%Z then y :: insert_desc key x ys' else x :: ys
  end.

Definition sorted_desc {A : Type} (key : A -> Z) (xs : list A) : list A :=
  fold_left (fun acc x => insert_desc key x acc) xs [].

Definition MAX_SUMMARY_LINES : nat := 3.

(** Python truthiness of a decoded JSON value; a [float] is false when
    its lexeme spells a zero. *)
Fixpoint mantissa_of (lx : pystr) : pystr :=
  match lx with
  | c :: r => if (c =? 101)%Z || (c =? 69)%Z then [] else c :: mantissa_of r
  | [] => []
  end.

Definition float_lexeme_zero (lx : pystr) : bool :=
  let mantissa := mantissa_of lx in
  forallb (fun c => (c =? 48)%Z || (c =? 46)%Z || (c =? 45)%Z) mantissa
  && existsb is_digit mantissa.

Definition py_truthy (j : json) : bool :=
  match j with
  | JNull => false
  | JBool b => b
  | JInt z => negb (z =? 0)%Z
  | JFloat lx => negb (float_lexeme_zero lx)
  | JStr s => negb (is_nil s)
  | JArr xs => negb (is_nil xs)
  | JObj d => negb (is_nil d)
  end.

(** [for x in v]: [None] is the [TypeError] of a non-iterable value. *)
Definition py_iter (j : json) : option (list json) :=
  match j with
  | JArr xs => Some xs
  | JStr s => Some (map (fun c => JStr [c]) s)
  | JObj d => Some (map (fun kv => JStr (fst kv)) d)
  | _ => None
  end.

(** [LLMClient.json_chat(prompt, max_tokens)]: the decoded reply, or
    [None] when it raises. *)
Definition json_chat_t := pystr -> nat -> option json.

Definition _summary_prompt (text : pystr) (title : option pystr) : pystr :=
  u "너는 한국어 뉴스 요약기다. 아래 기사를 완결된 문장 3줄로 요약하라." ++ [10%Z]
  ++ u "- 정확히 3줄, 각 줄은 독립적인 핵심 문장으로 끝맺음(다/이다/합니다 등)." ++ [10%Z]
  ++ u "- 숫자(날짜·비율·횟수), 기관·정책명, 조치/영향을 우선 포함." ++ [10%Z]
  ++ u "- 불필요한 인용부호·이모지·머리표·중복 금지. 문장 중간 생략 금지." ++ [10%Z]
  ++ uq "JSON만 출력: {'summary_lines': ['...', '...', '...']}" ++ [10%Z]
  ++ u "제목: " ++ title_or_empty title ++ [10%Z] ++ u "본문:" ++ [10%Z]
  ++ firstn 7000 text.

Section Summarize.

(** [\d] of a [str] pattern: a Unicode decimal digit (category Nd); the
    development is parametric in this table. *)
Context (py_isdecimal : Z -> bool).

Definition RDigit : regex := RSet py_isdecimal.

(** The [score] closure of [_fallback_summary]. *)
Definition score (s : pystr) : Z :=
  let sc := 0%Z in
  let sc :=
    if re_search false
         (RAlts [RSeq (RCat [RDigit; RDigit; RDigit; RDigit]) (RWord "년");
                 RSeq (RPlus RDigit) (RWord "월");
                 RSeq (RPlus RDigit) (RWord "일");
                 RSeq (RPlus RDigit) (RChar 37%Z)]) s
    then (sc + 3)%Z else sc in
  let sc :=
    if re_search false
         (RSeq (RSet is_digit) (RUpTo 6 (RCls [48; 49; 50; 51; 52; 53; 54; 55; 56; 57; 44; 46]%Z))) s
    then (sc + 2)%Z else sc in
  let sc :=
    if re_search false
         (RAlts (map RWord ["부"; "청"; "처"; "원"; "공사"; "위원회"; "정부"; "부처"]%string)) s
    then (sc + 2)%Z else sc in
  let sc :=
    if re_search false
         (RAlts (map RWord ["지원"; "확대"; "개선"; "도입"; "발표"; "시행"; "확정"; "투자";
                            "수출"; "안전"; "출시"]%string)) s
    then (sc + 2)%Z else sc in
  let sc := if 20 <=? length s then (sc + 1)%Z else sc in
  sc.

(** [Processor._fallback_summary(text, title)] *)
Definition _fallback_summary (text : pystr) (title : option pystr) : list pystr :=
  let sents := _split_sentences_ko text in
  let picked := firstn MAX_SUMMARY_LINES (sorted_desc score sents) in
  let picked :=
    match title with
    | Some t =>
        if negb (is_nil (py_strip t)) then
          match picked with
          | p0 :: _ => if py_contains p0 (py_strip t) then picked else py_strip t :: picked
          | [] => py_strip t :: picked
          end
        else picked
    | None => picked
    end in
  let picked := map _close_sentence (firstn MAX_SUMMARY_LINES picked) in
  let picked := pad_empty MAX_SUMMARY_LINES picked in
  firstn MAX_SUMMARY_LINES picked.

(** The enrichment branch of [Processor.summarize]: [Some lines] when it
    returns, [None] when it raises or finds no line (and the fallback
    runs). *)
Definition llm_summary (chat : json_chat_t) (text : pystr) (title : option pystr)
  : option (list pystr) :=
  match chat (_summary_prompt text title) 420 with
  | None => None
  | Some reply =>
      let js := if py_truthy reply then reply else JObj [] in
      match js with
      | JObj d =>
          let v := match dict_get d (u "summary_lines") with
                   | Some v => if py_truthy v then v else JArr []
                   | None => JArr []
                   end in
          match py_iter v with
          | None => None
          | Some lines =>
              let lines := flat_map (fun ln => match ln with JStr s => [s] | _ => [] end) lines in
              let lines := map _close_sentence
                               (filter (fun ln => negb (is_nil (py_strip ln))) lines) in
              if 1 <=? length lines
              then Some (firstn MAX_SUMMARY_LINES (lines ++ [[]; []; []]))
              else None
          end
      | _ => None
      end
  end.

(** [Processor.summarize(text, title)]; [llm] is [self.llm]. *)
Definition summarize (llm : option json_chat_t) (text : pystr) (title : option pystr)
  : list pystr :=
  let text := py_strip text in
  match llm with
  | Some chat =>
      if 1 <=? length text then
        match llm_summary chat text title with
        | Some lines => lines
        | None => _fallback_summary text title
        end
      else _fallback_summary text title
  | None => _fallback_summary text title
  end.

End Summarize.

(* ------------------------------------------------------------------ *)
(** ** [processors.py]: the classifier *)

Definition _SUBCATEGORY_HINTS : list pystr :=
  map u ["정책"; "제도개선"; "규제완화"; "금융지원"; "세제"; "투자유치";
         "수출"; "무역"; "글로벌진출"; "고용"; "채용"; "노사";
         "안전관리"; "재난대응"; "환경"; "에너지"; "디지털전환";
         "R&D"; "AI"; "혁신"; "지역"; "지자체"; "행사"; "문화";
         "소비자보호"; "보험"; "대출"; "노동법"; "근로시간"; "복지"; "교육"]%string.

(** The [mapping] of [_normalize_primary]. *)
Definition primary_mapping : list (pystr * pystr) :=
  map (fun ab => (u (fst ab), u (snd ab)))
    [("정책/정부", "정책_정부"); ("산업/기업", "산업_기업"); ("연구/기술", "연구_기술");
     ("규제/제도", "규제_제도"); ("수출/글로벌", "수출_글로벌"); ("투자/금융", "투자_금융");
     ("인사/조직", "인사_조직")]%string.

(** [_normalize_primary(cat)]; [None] is Python's [None]. *)
Definition _normalize_primary (cat : option pystr) : pystr :=
  let cat := py_strip (match cat with Some c => c | None => [] end) in
  if existsb (str_eqb cat) _PRIMARY_CATEGORIES then cat
  else match find (fun ab => str_eqb (fst ab) cat) primary_mapping with
       | Some (_, v) => v
       | None => u "기타"
       end.

(** [s.replace(old, new)] for a non-empty [old]: the occurrences are
    replaced from left to right, without overlap. *)
Fixpoint replace_aux (old new : pystr) (n : nat) (s : pystr) : pystr :=
  match n with
  | O => s
  | S n' =>
      match s with
      | [] => []
      | c :: r =>
          if py_startswith s old then new ++ replace_aux old new n' (skipn (length old) s)
          else c :: replace_aux old new n' r
      end
  end.

Definition py_replace (s old new : pystr) : pystr := replace_aux old new (length s) s.

(** [count] of a [dict]-free [list.count("")]. *)
Definition count_empty (xs : list pystr) : nat := length (filter is_nil xs).

(** [", ".join(xs)] and the like. *)
Fixpoint py_join (sep : pystr) (xs : list pystr) : pystr :=
  match xs with
  | [] => []
  | [x] => x
  | x :: r => x ++ sep ++ py_join sep r
  end.

(** [[^0-9A-Za-z가-힣]+] *)
Definition is_word_char (c : Z) : bool :=
  (((48 <=? c) && (c <=? 57)) || ((65 <=? c) && (c <=? 90)) || ((97 <=? c) && (c <=? 122))
   || ((44032 <=? c) && (c <=? 55203)))%Z.

Definition re_nonword_run : regex := RPlus (RSet (fun c => negb (is_word_char c)))%Z.

Definition _STOPWORDS : list pystr :=
  map u ["및"; "그리고"; "등"; "으로"; "에서"; "대한"; "관련"; "이번"; "지난"; "통해";
         "대해"; "을"; "를"; "은"; "는"; "이"; "가"; "와"; "과"; "또는"; "또"; "더"; "등의";
         "한다"; "했다"; "합니다"; "이다"; "한다는"; "있는"; "없는"; "가장"; "최대"; "최소";
         "서울시"; "부산시"; "대구시"; "인천시"; "광주시"; "대전시"; "울산시"; "세종시"]%string.

(** The first two lines of [_auto_keywords]: the kept tokens. *)
Definition keyword_tokens (text : pystr) : list pystr :=
  filter (fun t => (2 <=? length t) && negb (existsb (str_eqb t) _STOPWORDS))
         (re_split re_nonword_run text).

(** [Counter(tokens)]: the counts, in the order keys were first seen. *)
Definition counter (ts : list pystr) : list (pystr * Z) :=
  map (fun t => (t, Z.of_nat (length (filter (str_eqb t) ts)))) (dict_fromkeys ts).

(** [Counter.most_common(n)]: [heapq.nlargest(n, items, key=count)],
    which equals [sorted(items, key=count, reverse=True)[:n]]. *)
Definition most_common (cnt : list (pystr * Z)) (n : nat) : list (pystr * Z) :=
  firstn n (sorted_desc snd cnt).

(** [_auto_keywords(text, topk)] *)
Definition _auto_keywords (text : pystr) (topk : nat) : list pystr :=
  map fst (most_common (counter (keyword_tokens text)) topk).

(** [pref_map] of [_suggest_subs_from_text]. *)
Definition pref_map : list (pystr * list pystr) :=
  map (fun ab => (u (fst ab), map u (snd ab)))
    [("사회", ["행사"; "축제"; "문화"; "복지"; "교육"; "시민"; "청년"; "노인"]);
     ("투자_금융", ["금융"; "보험"; "대출"; "보조금"; "세제"; "지원"]);
     ("산업_기업", ["기업"; "산업"; "생산"; "공장"; "유통"; "안전"]);
     ("연구_기술", ["R&D"; "AI"; "기술"; "혁신"; "연구"; "개발"]);
     ("규제_제도", ["규제완화"; "제도개선"; "개정"; "법안"; "시행령"]);
     ("수출_글로벌", ["수출"; "무역"; "해외"; "글로벌"; "FTA"]);
     ("인사_조직", ["채용"; "고용"; "임금"; "노사"; "근로시간"]);
     ("정책_정부", ["정책"; "정부"; "부처"; "위원회"])]%string.

(** [pref_map.get(primary, [])] *)
Definition pref_of (primary : pystr) : list pystr :=
  match find (fun kv => str_eqb (fst kv) primary) pref_map with
  | Some (_, v) => v
  | None => []
  end.

(** The candidate loop of [_suggest_subs_from_text]. *)
Fixpoint collect_subs (cands : list pystr) (out : list pystr) : list pystr :=
  match cands with
  | [] => out
  | k :: r =>
      let k := py_strip k in
      if is_nil k || existsb (str_eqb k) out then collect_subs r out
      else
        let out := out ++ [k] in
        if 6 <=? length out then out else collect_subs r out
  end.

(** [Processor._suggest_subs_from_text(text, title, region, primary)] *)
Definition _suggest_subs_from_text (text : pystr) (title : option pystr)
           (region primary : pystr) : list pystr :=
  let base := title_or_empty title ++ 32%Z :: text in
  let keys := _auto_keywords base 12 in
  let prefer := pref_of primary in
  let prefer :=
    if negb (is_nil region) && negb (str_eqb region (u "전국"))
    then prefer ++ [region; u "지자체"; u "지역"] else prefer in
  collect_subs (prefer ++ keys ++ _SUBCATEGORY_HINTS) [].

(** The text [json.dumps(_CATEGORY_GUIDE, ensure_ascii=False, indent=2)]
    produces (none of the strings needs an escape). *)
Definition category_guide_json : pystr :=
  py_join [10%Z]
    (map uq ["{";
      "  '정책_정부': '정부 정책/사업 공지, 부처 발표, 공공행사 안내, 정부주도 캠페인',";
      "  '산업_기업': '기업 활동, 산업 동향, 신제품/서비스, 생산/공장/유통, 산업안전',";
      "  '연구_기술': '연구 성과, 신기술/과학, R&D, AI/디지털 전환',";
      "  '규제_제도': '법/시행령/고시 개정, 규제 완화/강화, 제도 개선',";
      "  '수출_글로벌': '수출, 무역, 해외 진출, 국제협력/외교 경제',";
      "  '투자_금융': '금융 정책/지원, 대출/보험/금융사, 투자/펀드/증권',";
      "  '인사_조직': '채용/고용/임금/노사, 조직 개편/인사 이동',";
      "  '사회': '지역 행사/축제/문화/복지/교육, 재난/안전/보건, 시민 대상 서비스',";
      "  '기타': '상기 어디에도 명확히 속하지 않는 경우'";
      "}"]%string).

(** [Processor._category_prompt(text, title, region)] *)
Definition _category_prompt (text : pystr) (title : option pystr) (region : pystr) : pystr :=
  let cats := py_join (u ", ") _PRIMARY_CATEGORIES in
  let hints := py_join (u ", ") _SUBCATEGORY_HINTS in
  let region_hint := if is_nil region then [] else u "(참고 지역: " ++ region ++ u ")" in
  u "너는 한국어 뉴스 분류기다. 다음 기사에 대해 **주카테고리 정확히 1개**와 **서브카테고리 정확히 4개**를 JSON으로만 출력하라." ++ [10%Z]
  ++ u "- 주카테고리 후보: [" ++ cats ++ u "]" ++ [10%Z]
  ++ u "- 카테고리 가이드:" ++ [10%Z] ++ category_guide_json ++ [10%Z]
  ++ u "- 서브카테고리 예시(자유 조합): [" ++ hints ++ u "]" ++ [10%Z]
  ++ u "- 규칙:" ++ [10%Z]
  ++ u "  1) 본문 도메인 신호가 강하면 해당 도메인을 우선(예: 금융/보험/대출 → 투자_금융, 수출/무역 → 수출_글로벌, R&D/AI → 연구_기술, 채용/임금/노사 → 인사_조직, 지역행사/축제 → 사회)." ++ [10%Z]
  ++ u "  2) 단지 '정부/정책'이라는 단어가 포함되었다고 해서 무조건 정책_정부로 분류하지 말 것." ++ [10%Z]
  ++ u "  3) 서브카테고리는 중복/유사어 금지, 실제 기사 핵심 키워드 4개로만 구성." ++ [10%Z]
  ++ u "  4) 출력은 JSON 하나만. 추가 설명/주석 금지." ++ [10%Z]
  ++ region_hint ++ [10%Z]
  ++ uq "출력 예시: {'primary':'사회','subcategories':['행사','문화','지역경제','지자체']}" ++ [10%Z]
  ++ u "제목: " ++ title_or_empty title ++ [10%Z] ++ u "본문:" ++ [10%Z]
  ++ firstn 7000 text.

(** [for s in subs] of [_normalize_subs] needs [str] items: [None] is
    the [TypeError] [re.sub] raises on any other one. *)
Definition all_strs (xs : list json) : option (list pystr) :=
  fold_right (fun x acc => match x, acc with
                           | JStr s, Some ss => Some (s :: ss)
                           | _, _ => None
                           end) (Some []) xs.

Section Classify2.

Context (py_lower : pystr -> pystr).

(** One iteration of the loop of [_normalize_subs]: [None] is [continue]. *)
Definition normalize_sub (s : pystr) : option pystr :=
  let s := py_strip (re_sub false re_ws_run (u " ") s) in
  if is_nil s then None
  else
    let s := py_replace (py_replace s (u "R & D") (u "R&D")) (u "r&d") (u "R&D") in
    if existsb (str_eqb (py_lower s)) [u "ai"; u "인공지능"] then Some (u "AI") else Some s.

(** [_normalize_subs(subs)] *)
Definition _normalize_subs (subs : list pystr) : list pystr :=
  _pad4 (flat_map (fun s => match normalize_sub s with Some x => [x] | None => [] end) subs).

(** [Processor._debias_primary(primary, text, title, region)] *)
Definition _debias_primary (primary text : pystr) (title : option pystr) (region : pystr)
  : pystr :=
  let t := py_lower (title_or_empty title ++ 32%Z :: text) in
  if has_any t ["보험"; "대출"; "연체"; "금융"; "펀드"; "증권"; "보조금"; "세제"]%string
  then u "투자_금융"
  else if has_any t ["수출"; "무역"; "해외"; "글로벌"; "fta"]%string then u "수출_글로벌"
  else if has_any t ["r&d"; "연구"; "기술"; "ai"; "인공지능"; "혁신"; "디지털전환"]%string
  then u "연구_기술"
  else if has_any t ["채용"; "고용"; "임금"; "노사"; "근로시간"]%string then u "인사_조직"
  else if has_any t ["산업재해"; "산재"; "중대재해"; "산업안전"]%string then u "산업_기업"
  else if negb (str_eqb region (u "전국"))
          && has_any t ["행사"; "축제"; "기념식"; "페스티벌"; "공연"; "전시"]%string
  then u "사회"
  else if has_any t ["규제완화"; "규제 완화"; "제도개선"; "제도 개선"; "개정"; "시행령";
                     "시행규칙"]%string
  then u "규제_제도"
  else primary.

(** The [subs] list [_fallback_classify] builds (lines 297-326), under
    the same tests as [fallback_scores]. *)
Definition fallback_subs (text : pystr) (title : option pystr) (region : pystr)
  : list pystr :=
  let t := py_lower (title_or_empty title ++ 32%Z :: text) in
  let add (b : bool) (xs : list string) (subs : list pystr) :=
    if b then subs ++ map u xs else subs in
  let subs := [] in
  let subs := add (has_any t ["대출"; "은행"; "보험"; "카드"; "신용"; "금감원"; "채무조정"; "연체";
                              "보험료"; "금융지원"; "보조금"; "세제"]%string)
                  ["금융지원"; "세제"]%string subs in
  let subs := add (has_any t ["산업재해"; "산재"; "중대재해"; "노동안전"; "안전사고"; "산업안전"]%string)
                  ["안전관리"]%string subs in
  let subs := add (has_any t ["수출"; "무역"; "해외"; "글로벌"; "fta"]%string)
                  ["수출"]%string subs in
  let subs := add (has_any t ["r&d"; "연구"; "기술"; "ai"; "인공지능"; "혁신"; "디지털전환"]%string)
                  ["R&D"; "AI"]%string subs in
  let subs := add (has_any t ["채용"; "고용"; "임금"; "노사"; "근로시간"]%string)
                  ["채용"]%string subs in
  let subs := add (has_any t ["행사"; "축제"; "기념식"; "경축식"; "초대합니다"; "페스티벌"; "시민 참여";
                              "광복"; "문화"; "공연"; "전시"]%string)
                  ["행사"; "문화"]%string subs in
  let subs := add (has_any t ["농축산물"; "전통시장"; "온누리상품권"; "하나로마트"; "할인"; "쿠폰";
                              "소비진작"; "환급"]%string)
                  ["지역경제"]%string subs in
  let subs := add (has_any t ["규제 완화"; "규제완화"; "제도 개선"; "제도개선"; "개정"; "시행령";
                              "시행규칙"; "법안"; "조례"]%string)
                  ["제도개선"; "규제완화"]%string subs in
  let subs := add (has_any t ["대통령"; "국무회의"; "국정"; "국정운영"; "청와대"; "국무위원"]%string)
                  ["정책"]%string subs in
  let subs := add (has_any t ["정부"; "부처"; "위원회"; "정책"; "정부합동"; "국정브리핑"]%string)
                  ["정책"]%string subs in
  subs.

(** [Processor._fallback_classify(text, title, region)] *)
Definition _fallback_classify (text : pystr) (title : option pystr) (region : pystr)
  : pystr * list pystr :=
  let primary := _fallback_classify_primary py_lower text title region in
  let subs := _normalize_subs (fallback_subs text title region) in
  let subs :=
    if 0 <? count_empty subs
    then _normalize_subs (subs ++ _suggest_subs_from_text text title region primary)
    else subs in
  (primary, subs).

(** The enrichment branch of [Processor.classify]: [Some] when it
    returns, [None] when it raises (and the fallback runs). *)
Definition llm_classify (chat : json_chat_t) (text : pystr) (title : option pystr)
           (region : pystr) : option (pystr * list pystr) :=
  match chat (_category_prompt text title region) 300 with
  | None => None
  | Some reply =>
      let js := if py_truthy reply then reply else JObj [] in
      match js with
      | JObj d =>
          let cat :=
            match dict_get d (u "primary") with
            | None => Some None
            | Some v =>
                if py_truthy v
                then match v with JStr s => Some (Some s) | _ => None end
                else Some (Some [])
            end in
          match cat with
          | None => None
          | Some cat =>
              let primary := _normalize_primary cat in
              let sv := match dict_get d (u "subcategories") with
                        | Some v => if py_truthy v then v else JArr []
                        | None => JArr []
                        end in
              match option_map all_strs (py_iter sv) with
              | Some (Some ss) =>
                  let subs := _normalize_subs ss in
                  let primary := _debias_primary primary text title region in
                  let subs :=
                    if 0 <? count_empty subs
                    then _normalize_subs
                           (subs ++ _suggest_subs_from_text text title region primary)
                    else subs in
                  Some (primary, subs)
              | _ => None
              end
          end
      | _ => None
      end
  end.

(** [Processor.classify(text, title)]; [llm] is [self.llm]. *)
Definition classify (llm : option json_chat_t) (text : pystr) (title : option pystr)
  : pystr * list pystr :=
  let blob := py_strip (title_or_empty title ++ 10%Z :: text) in
  let region := detect_region text title in
  match llm with
  | Some chat =>
      if 1 <=? length blob then
        match llm_classify chat text title region with
        | Some r => r
        | None => _fallback_classify text title region
        end
      else _fallback_classify text title region
  | None => _fallback_classify text title region
  end.

End Classify2.

End Processors.

(* ------------------------------------------------------------------ *)
(** ** [app.py]: the key coercion applied to each input item *)

Module App.

(** [key in d] *)
Definition dict_has (d : pydict) (k : pystr) : bool :=
  match dict_get d k with Some _ => true | None => false end.

(** The loop [for k in keys: v = out.get(k); if isinstance(v, str) and
    v.strip(): ... break]: the first such [v]. *)
Fixpoint first_nonblank_str (d : pydict) (keys : list pystr) : option pystr :=
  match keys with
  | [] => None
  | k :: ks =>
      match dict_get d k with
      | Some (JStr v) => if is_nil (py_strip v) then first_nonblank_str d ks else Some v
      | _ => first_nonblank_str d ks
      end
  end.

Definition text_source_keys : list pystr :=
  map u ["contents"; "content"; "body"; "desc"; "description"]%string.
Definition title_source_keys : list pystr := map u ["newsTitle"; "name"; "headline"]%string.

(** [_coerce_item_keys(d)] for a [dict] [d] (any other value is returned
    as it is); [out = dict(d)] is a copy, so [d] itself is not changed. *)
Definition _coerce_item_keys (d : pydict) : pydict :=
  let out := d in
  let out :=
    if dict_has out (u "text") then out
    else match first_nonblank_str out text_source_keys with
         | Some v => dict_set out (u "text") (JStr v)
         | None => out
         end in
  let out :=
    if dict_has out (u "title") then out
    else match first_nonblank_str out title_source_keys with
         | Some v => dict_set out (u "title") (JStr v)
         | None => out
         end in
  let out :=
    if negb (dict_has out (u "id")) && dict_has out (u "newsIdentifyId") then
      match dict_get out (u "newsIdentifyId") with
      | Some v => dict_set out (u "id") v
      | None => out
      end
    else out in
  out.

End App.


(* ------------------------------------------------------------------ *)
(** ** Vocabulary of the statements *)

(** [ne] is a subsequence of [xs]. *)
Inductive subseq {A : Type} : list A -> list A -> Prop :=
| subseq_nil : subseq [] []
| subseq_skip x ne xs : subseq ne xs -> subseq ne (x :: xs)
| subseq_take x ne xs : subseq ne xs -> subseq (x :: ne) (x :: xs).

(** Position of the first occurrence of [x] in [xs] ([length xs] when
    absent). *)
Fixpoint index_of (x : pystr) (xs : list pystr) : nat :=
  match xs with
  | [] => 0
  | y :: ys => if str_eqb x y then 0 else S (index_of x ys)
  end.

(** [ne] lists distinct entries of [xs] in the order of their first
    occurrences, with no entry skipped: whatever occurs in [xs] before
    the first occurrence of the [k]-th entry of [ne] is among the first
    [k] entries of [ne]. *)
Definition first_occurrence_order (xs ne : list pystr) : Prop :=
  subseq ne xs /\ NoDup ne /\
  (forall k x, nth_error ne k = Some x ->
   forall y, In y (firstn (index_of x xs) xs) -> In y (firstn k ne)).

(** A list of exactly four strings: distinct non-empty entries, taken
    from [xs] in first-occurrence order, followed by empty strings. *)
Definition pad4_shape (xs ys : list pystr) : Prop :=
  length ys = 4 /\
  exists ne, ys = ne ++ repeat [] (4 - length ne) /\
             Forall (fun x => x <> []) ne /\ first_occurrence_order xs ne.

(** A JSON object holding a non-empty string under one of the body keys. *)
Definition record_like (j : json) : Prop :=
  exists d, j = JObj d /\
  exists k s, In k _TEXT_KEYS /\ dict_get d k = Some (JStr s) /\ s <> [].

(** A rule-based processor for concrete runs: ASCII case mapping, no
    enrichment. *)
Definition ascii_str_lower (s : pystr) : pystr := map ascii_lower s.

Definition ascii_isdecimal (c : Z) : bool := is_digit c.

Definition rule_processor : Processor :=
  {| proc_summarize := Processors.summarize ascii_isdecimal None;
     proc_classify := fun text title =>
       (Processors._fallback_classify_primary ascii_str_lower text title
          (Processors.detect_region text title), []);
     proc_detect_region := Processors.detect_region |}.

(** Text without two consecutive spaces. *)
Definition no_double_space (y : pystr) : Prop :=
  forall p q, y <> p ++ 32%Z :: 32%Z :: q.

(** Text in which no run of white space holds three newlines. *)
Definition no_blank_run3 (y : pystr) : Prop :=
  forall p m q, y = p ++ m ++ q -> Forall (fun c => py_isspace c = true) m ->
  count_occ Z.eq_dec m 10%Z < 3.

(** A newline reached from the start of [t] through white space only. *)
Definition reach10 (t : pystr) : Prop :=
  exists m y, t = m ++ 10%Z :: y /\ Forall (fun c => py_isspace c = true) m.

(** Two newlines reached from the start of [t] through white space only. *)
Definition reach2 (t : pystr) : Prop :=
  exists m y, t = m ++ 10%Z :: y /\ Forall (fun c => py_isspace c = true) m /\ reach10 y.

(** A left-to-right scan of the output of the last steps of
    [strip_html]: [k] newlines in the current run of white space,
    [p32] when the previous character is a space.  It fails on a tab,
    on a second space in a row and on a third newline in one run. *)
Fixpoint clean_ck (k : nat) (p32 : bool) (s : pystr) : bool :=
  match s with
  | [] => true
  | c :: r =>
      if py_isspace c then
        let k' := if (c =? 10)%Z then S k else k in
        negb (c =? 9)%Z && negb (p32 && (c =? 32)%Z) && (k' <? 3) && clean_ck k' (c =? 32)%Z r
      else clean_ck 0 false r
  end.

(** The same scan for tabs and double spaces only. *)
Fixpoint hws_ck (p32 : bool) (s : pystr) : bool :=
  match s with
  | [] => true
  | c :: r => negb (c =? 9)%Z && negb (p32 && (c =? 32)%Z) && hws_ck (c =? 32)%Z r
  end.

(** A regular expression whose matches consume only characters with
    property [P]. *)
Definition consumes (ic : bool) (r : regex) (P : Z -> Prop) : Prop :=
  forall b a cp b' a' cp', In ((b', a'), cp') (re_match ic r (b, a) cp) ->
  exists m, a = m ++ a' /\ Forall P m.

(** The invariant of the score table built by [_fallback_classify]. *)
Definition scores_inv (sc : Processors.scores_t) : Prop :=
  map fst sc = Processors._PRIMARY_CATEGORIES /\ Forall (fun kv => (0 <= snd kv)%Z) sc /\
  In (u "기타", 0%Z) sc.


(* ================================================================== *)
(** * Proofs *)

(** Case analysis on every [match] in a hypothesis. *)
Ltac destruct_matches_in H :=
  repeat match type of H with
         | context [match ?x with _ => _ end] => destruct x
         end.

(** ** Strings *)

Lemma str_eqb_eq : forall a b, str_eqb a b = true <-> a = b.
Proof.
  intros a b; unfold str_eqb; destruct (list_eq_dec Z.eq_dec a b); split;
    congruence.
Qed.

(** ** Sanity checks on concrete inputs *)

Example splitlines_ex :
  py_splitlines (u "a" ++ [10%Z] ++ u "b") = [u "a"; u "b"].
Proof. reflexivity. Qed.

Example json_loads_ex :
  json_loads (uq "[{'a':1}]") = Some (JArr [JObj [(u "a", JInt 1)]]).
Proof. reflexivity. Qed.

Example strip_html_ex1 :
  strip_html (u "<p>a <b>b</b></p><script>x</SCRIPT>&amp;lt;") = u "a b " ++ [10%Z] ++ u " &lt;".
Proof. vm_compute. reflexivity. Qed.

Example load_input_ex2 :
  _load_input (uq "{'a':1}" ++ [10%Z] ++ uq " {'b':[2]}")
  = [[(u "a", JInt 1)]; [(u "b", JArr [JInt 2])]].
Proof. vm_compute. reflexivity. Qed.

Example load_input_ex3 :
  _load_input (uq "{'data': [{'x': 1}], 'q': []}") = [[(u "x", JInt 1)]].
Proof. vm_compute. reflexivity. Qed.

Example detect_region_ex :
  Processors.detect_region (u "부산시에서 청년 채용 박람회가 열렸다.")
    (Some (u "부산 청년 채용 박람회")) = u "부산".
Proof. vm_compute. reflexivity. Qed.

Lemma str_eqb_refl : forall a, str_eqb a a = true.
Proof. intros a; apply str_eqb_eq; reflexivity. Qed.

Lemma existsb_str_eqb_In : forall x l, existsb (str_eqb x) l = true <-> In x l.
Proof.
  intros x l; rewrite existsb_exists; split.
  - intros [y [Hy He]]; apply str_eqb_eq in He; subst; exact Hy.
  - intros H; exists x; split; [exact H | apply str_eqb_refl].
Qed.

(** ** The [_pad4] transforms *)

Lemma dedup_aux_props : forall xs seen,
  NoDup (dedup_aux seen xs) /\
  (forall y, In y (dedup_aux seen xs) -> In y xs /\ ~ In y seen) /\
  subseq (dedup_aux seen xs) xs.
Proof.
  induction xs as [|a xs IH]; intros seen; simpl.
  - split; [constructor | split; [tauto | constructor]].
  - destruct (existsb (str_eqb a) seen) eqn:E.
    + destruct (IH seen) as [H1 [H2 H3]].
      split; [exact H1 | split; [| now constructor]].
      intros y Hy; destruct (H2 y Hy); tauto.
    + destruct (IH (a :: seen)) as [H1 [H2 H3]].
      assert (Hn : ~ In a seen).
      { intros Hin; apply existsb_str_eqb_In in Hin; congruence. }
      split; [| split; [| now constructor]].
      * constructor; [| exact H1].
        intros Hin; destruct (H2 a Hin) as [_ Hc]; apply Hc; left; reflexivity.
      * intros y [<- | Hy]; [tauto |].
        destruct (H2 y Hy) as [Hy1 Hy2]; simpl in Hy2; tauto.
Qed.

Lemma index_of_cons_neq : forall x a xs, x <> a -> index_of x (a :: xs) = S (index_of x xs).
Proof.
  intros x a xs Hne; simpl.
  destruct (str_eqb x a) eqn:E; [apply str_eqb_eq in E; congruence | reflexivity].
Qed.

Lemma dedup_aux_order : forall xs seen k x,
  nth_error (dedup_aux seen xs) k = Some x ->
  forall y, In y (firstn (index_of x xs) xs) ->
  In y seen \/ In y (firstn k (dedup_aux seen xs)).
Proof.
  induction xs as [|a xs IH]; intros seen k x Hk y Hy.
  - destruct k; discriminate.
  - assert (Hx : In x (dedup_aux seen (a :: xs))) by (eapply nth_error_In; eauto).
    destruct (proj1 (proj2 (dedup_aux_props (a :: xs) seen)) x Hx) as [_ Hxs].
    simpl in Hk |- *.
    destruct (existsb (str_eqb a) seen) eqn:E.
    + assert (Hxa : x <> a).
      { intros ->; apply Hxs, existsb_str_eqb_In, E. }
      rewrite index_of_cons_neq in Hy by exact Hxa.
      destruct Hy as [<- | Hy].
      * left; apply existsb_str_eqb_In, E.
      * exact (IH seen k x Hk y Hy).
    + destruct k as [|k].
      * simpl in Hk; injection Hk as Hax; subst x.
        simpl in Hy; rewrite str_eqb_refl in Hy; destruct Hy.
      * simpl in Hk.
        assert (Hx' : In x (dedup_aux (a :: seen) xs)) by (eapply nth_error_In; eauto).
        destruct (proj1 (proj2 (dedup_aux_props xs (a :: seen))) x Hx') as [_ Hxs'].
        assert (Hxa : x <> a) by (intros ->; apply Hxs'; left; reflexivity).
        rewrite index_of_cons_neq in Hy by exact Hxa.
        destruct Hy as [<- | Hy].
        -- right; left; reflexivity.
        -- destruct (IH (a :: seen) k x Hk y Hy) as [[<- | Hs] | Hr].
           ++ right; left; reflexivity.
           ++ left; exact Hs.
           ++ right; right; exact Hr.
Qed.

Lemma subseq_firstn : forall {A : Type} n (ne xs : list A),
  subseq ne xs -> subseq (firstn n ne) xs.
Proof.
  intros A n ne xs H; revert n; induction H; intros n.
  - destruct n; constructor.
  - constructor; apply IHsubseq.
  - destruct n; simpl.
    + clear IHsubseq; induction (x :: xs); constructor; assumption.
    + constructor; apply IHsubseq.
Qed.

Lemma NoDup_firstn_of : forall {A : Type} n (l : list A), NoDup l -> NoDup (firstn n l).
Proof.
  intros A n l H; rewrite <- (firstn_skipn n l) in H.
  apply NoDup_app_remove_r in H; exact H.
Qed.

Lemma firstn_dedup_order : forall xs,
  first_occurrence_order xs (firstn 4 (dict_fromkeys xs)).
Proof.
  intros xs; unfold dict_fromkeys.
  destruct (dedup_aux_props xs []) as [H1 [_ H3]].
  split; [apply subseq_firstn, H3 | split; [apply NoDup_firstn_of, H1 |]].
  intros k x Hk y Hy.
  assert (Hk4 : k < 4).
  { assert (Hs : nth_error (firstn 4 (dedup_aux [] xs)) k <> None) by congruence.
    apply nth_error_Some in Hs; rewrite length_firstn in Hs; lia. }
  rewrite nth_error_firstn in Hk.
  destruct (Nat.ltb_spec k 4); [| lia].
  destruct (dedup_aux_order xs [] k x Hk y Hy) as [[] | Hr].
  rewrite firstn_firstn, Nat.min_l by lia; exact Hr.
Qed.

Lemma pad_empty_shape : forall xs ne,
  first_occurrence_order xs ne -> Forall (fun x => x <> []) ne -> length ne <= 4 ->
  pad4_shape xs (pad_empty 4 ne).
Proof.
  intros xs ne Ho Hf Hl; unfold pad_empty; split.
  - rewrite length_app, repeat_length; lia.
  - exists ne; split; [reflexivity | split; assumption].
Qed.

Lemma In_firstn_of : forall {A : Type} n (l : list A) y, In y (firstn n l) -> In y l.
Proof.
  intros A n l y H; rewrite <- (firstn_skipn n l); apply in_or_app; left; exact H.
Qed.

Lemma Forall_nonempty_dedup : forall (P : pystr -> Prop) xs,
  Forall P xs -> Forall P (firstn 4 (dict_fromkeys xs)).
Proof.
  intros P xs H; apply Forall_forall; intros y Hy.
  apply In_firstn_of in Hy.
  destruct (proj1 (proj2 (dedup_aux_props xs [])) y Hy) as [Hin _].
  rewrite Forall_forall in H; apply H, Hin.
Qed.

Lemma pipeline_pad4_shape : forall xs,
  pad4_shape (filter (fun x => negb (is_nil (py_strip x))) xs) (_pad4 xs).
Proof.
  intros xs; unfold _pad4.
  apply pad_empty_shape.
  - apply firstn_dedup_order.
  - apply Forall_nonempty_dedup, Forall_forall.
    intros y Hy ->; apply filter_In in Hy as [_ Hy]; discriminate.
  - apply firstn_le_length.
Qed.

Lemma processors_pad4_shape : forall xs,
  pad4_shape (map py_strip (filter (fun x => negb (is_nil (py_strip x))) xs))
             (Processors._pad4 xs).
Proof.
  intros xs; unfold Processors._pad4.
  apply pad_empty_shape.
  - apply firstn_dedup_order.
  - apply Forall_nonempty_dedup, Forall_forall.
    intros y Hy Hn; apply in_map_iff in Hy as [x [Hx Hin]].
    apply filter_In in Hin as [_ Hb]; rewrite Hx, Hn in Hb; discriminate.
  - apply firstn_le_length.
Qed.

(** C3: both pad-to-4 transforms return exactly four strings whose
    non-empty entries are pairwise distinct, come from the (non-blank)
    input in first-occurrence order and precede all empty entries; the
    [subcategories] field of every output record of [main] is such a
    list. *)
Theorem pad4_exactly_four_distinct_ordered :
  (forall xs, pad4_shape (filter (fun x => negb (is_nil (py_strip x))) xs) (_pad4 xs)) /\
  (forall xs, pad4_shape (map py_strip (filter (fun x => negb (is_nil (py_strip x))) xs))
                         (Processors._pad4 xs)) /\
  (forall py_lower py_str_other proc text r,
     In r (main_results py_lower py_str_other proc text) ->
     exists xs, pad4_shape (filter (fun x => negb (is_nil (py_strip x))) xs)
                           (out_subcategories r)).
Proof.
  split; [exact pipeline_pad4_shape |].
  split; [exact processors_pad4_shape |].
  intros py_lower py_str_other proc text r Hr.
  unfold main_results in Hr; apply in_map_iff in Hr as [it [<- _]].
  unfold process_item.
  destruct (proc_classify proc (plain_text it) (Some (title it))) as [pc subcats].
  exists subcats; apply pipeline_pad4_shape.
Qed.

(** ** The fallback classifier's tie-breaker *)

Section Scores.

Import Processors.

Lemma scores_inv_init : scores_inv (map (fun k => (k, 0%Z)) _PRIMARY_CATEGORIES).
Proof.
  split; [rewrite map_map; apply map_id |].
  split; [apply Forall_forall; intros kv Hkv; apply in_map_iff in Hkv as [k [<- _]];
          simpl; lia |].
  vm_compute; tauto.
Qed.

Lemma scores_inv_bump : forall (b : bool) sc c n,
  scores_inv sc -> (0 <= n)%Z -> str_eqb (u "기타") (u c) = false ->
  scores_inv (if b then bump sc c n else sc).
Proof.
  intros b sc c n [H1 [H2 H3]] Hn Hc; destruct b; [| split; auto].
  unfold bump; split; [| split].
  - rewrite map_map, <- H1; apply map_ext; intros [k v]; simpl.
    destruct (str_eqb k (u c)); reflexivity.
  - apply Forall_forall; intros kv Hkv; apply in_map_iff in Hkv as [[k v] [<- Hin]].
    rewrite Forall_forall in H2; specialize (H2 _ Hin); simpl in H2 |- *.
    destruct (str_eqb k (u c)); simpl; lia.
  - apply in_map_iff; exists (u "기타", 0%Z); split; [simpl; rewrite Hc |]; auto.
Qed.

Lemma fallback_scores_inv : forall py_lower text title region,
  scores_inv (fallback_scores py_lower text title region).
Proof.
  intros; unfold fallback_scores; cbv zeta.
  repeat (apply scores_inv_bump; [| lia | reflexivity]).
  apply scores_inv_init.
Qed.

Lemma fold_max_ge : forall l a, (a <= fold_left Z.max l a)%Z /\
  Forall (fun x => (x <= fold_left Z.max l a)%Z) l.
Proof.
  induction l as [|x l IH]; intros a; simpl; [split; [lia | constructor] |].
  destruct (IH (Z.max a x)) as [H1 H2]; split; [lia | constructor; [lia | exact H2]].
Qed.

Lemma fold_max_attained : forall l a, fold_left Z.max l a = a \/ In (fold_left Z.max l a) l.
Proof.
  induction l as [|x l IH]; intros a; simpl; [left; reflexivity |].
  destruct (IH (Z.max a x)) as [H | H]; [| right; right; exact H].
  rewrite H; destruct (Z.max_spec a x) as [[_ ->] | [_ ->]]; [right; left | left]; reflexivity.
Qed.

Lemma max_score_upper : forall sc c s, In (c, s) sc -> (s <= max_score_of sc)%Z.
Proof.
  intros sc c s Hin; unfold max_score_of.
  assert (Hs : In s (map snd sc)) by (apply in_map_iff; exists (c, s); auto).
  destruct (map snd sc) as [|x xs]; [destruct Hs |].
  destruct (fold_max_ge xs x) as [H1 H2]; destruct Hs as [<- | Hs]; [exact H1 |].
  rewrite Forall_forall in H2; apply H2, Hs.
Qed.

Lemma max_score_attained : forall sc, sc <> [] ->
  exists c, In (c, max_score_of sc) sc.
Proof.
  intros sc Hne; unfold max_score_of.
  destruct sc as [|[c0 s0] sc']; [congruence |]; simpl.
  destruct (fold_max_attained (map snd sc') s0) as [H | H].
  - rewrite H; exists c0; left; reflexivity.
  - apply in_map_iff in H as [[c s] [Hs Hin]]; simpl in Hs.
    exists c; right; rewrite <- Hs; exact Hin.
Qed.

Lemma in_tied : forall sc c m,
  In c (map fst (filter (fun kv : pystr * Z => (snd kv =? m)%Z) sc)) <-> In (c, m) sc.
Proof.
  intros sc c m; rewrite in_map_iff; split.
  - intros [[c' s] [Hc Hin]]; simpl in Hc; subst c'.
    apply filter_In in Hin as [Hin Hs]; apply Z.eqb_eq in Hs; simpl in Hs; subst; exact Hin.
  - intros Hin; exists (c, m); split; [reflexivity |].
    apply filter_In; split; [exact Hin | apply Z.eqb_refl].
Qed.

Lemma pick_primary_in_tied : forall sc, sc <> [] -> max_score_of sc <> 0%Z ->
  In (pick_primary sc) (map fst (filter (fun kv : pystr * Z => (snd kv =? max_score_of sc)%Z) sc)).
Proof.
  intros sc Hne H0; unfold pick_primary.
  destruct (max_score_of sc =? 0)%Z eqn:E; [apply Z.eqb_eq in E; contradiction |].
  destruct (max_score_attained sc Hne) as [c Hc].
  apply in_tied in Hc.
  remember (map fst (filter (fun kv : pystr * Z => (snd kv =? max_score_of sc)%Z) sc)) as tied.
  destruct tied as [|t0 [|t1 rest]]; [destruct Hc | left; reflexivity |].
  destruct (filter (fun c0 => negb (str_eqb c0 (u "정책_정부"))) (t0 :: t1 :: rest))
    as [|np nps] eqn:Enp.
  - left; reflexivity.
  - assert (Hnp : In np (np :: nps)) by (left; reflexivity).
    rewrite <- Enp in Hnp; apply filter_In in Hnp as [Hnp _]; exact Hnp.
Qed.

End Scores.

Lemma pick_primary_props : forall sc, scores_inv sc ->
  In (Processors.pick_primary sc) Processors._PRIMARY_CATEGORIES /\
  (exists s, In (Processors.pick_primary sc, s) sc /\
     forall c' s', In (c', s') sc -> (s' <= s)%Z) /\
  ((forall c s, In (c, s) sc -> s = 0%Z) -> Processors.pick_primary sc = u "기타") /\
  (forall c1 c2 c3 m, In (c1, m) sc -> In (c2, m) sc -> c1 <> c2 ->
     (forall c s, In (c, s) sc -> (s <= m)%Z) ->
     In (c3, m) sc -> c3 <> u "정책_정부" -> Processors.pick_primary sc <> u "정책_정부").
Proof.
  intros sc [Hk [Hnn Hetc]].
  assert (Hne : sc <> []) by (intros ->; destruct Hetc).
  assert (Hmax0 : (0 <= Processors.max_score_of sc)%Z)
    by exact (max_score_upper _ _ _ Hetc).
  assert (Hattain : exists s, In (Processors.pick_primary sc, s) sc /\
            s = Processors.max_score_of sc).
  { destruct (Z.eq_dec (Processors.max_score_of sc) 0) as [E | E].
    - exists 0%Z; unfold Processors.pick_primary; rewrite E; simpl; auto.
    - exists (Processors.max_score_of sc); split; [| reflexivity].
      apply in_tied, pick_primary_in_tied; assumption. }
  destruct Hattain as [s [Hs Hsm]].
  split; [| split; [| split]].
  - rewrite <- Hk; apply in_map_iff; exists (Processors.pick_primary sc, s); auto.
  - exists s; split; [exact Hs |]; intros c' s' H; subst s.
    exact (max_score_upper _ _ _ H).
  - intros Hall; unfold Processors.pick_primary.
    destruct (max_score_attained sc Hne) as [c Hc].
    rewrite (Hall _ _ Hc); reflexivity.
  - intros c1 c2 c3 m H1 H2 H12 Hle H3 H3p.
    assert (Hm : m = Processors.max_score_of sc).
    { apply Z.le_antisymm; [exact (max_score_upper _ _ _ H1) |].
      destruct (max_score_attained sc Hne) as [c Hc]; exact (Hle _ _ Hc). }
    subst m; unfold Processors.pick_primary.
    destruct (Processors.max_score_of sc =? 0)%Z eqn:E; [intro Heq; discriminate Heq |].
    apply in_tied in H1, H2, H3.
    destruct (map fst (filter (fun kv : pystr * Z => (snd kv =? Processors.max_score_of sc)%Z) sc))
      as [|t0 [|t1 rest]]; [destruct H1 | |].
    + destruct H1 as [<- | []]; destruct H2 as [<- | []]; contradiction.
    + destruct (filter (fun c => negb (str_eqb c (u "정책_정부"))) (t0 :: t1 :: rest))
        as [|np nps] eqn:Enp.
      * assert (Hin : In c3 (filter (fun c => negb (str_eqb c (u "정책_정부"))) (t0 :: t1 :: rest))).
        { apply filter_In; split; [exact H3 |].
          destruct (str_eqb c3 (u "정책_정부")) eqn:Ec; [apply str_eqb_eq in Ec; contradiction |].
          reflexivity. }
        rewrite Enp in Hin; destruct Hin.
      * assert (Hnp : In np (np :: nps)) by (left; reflexivity).
        rewrite <- Enp in Hnp; apply filter_In in Hnp as [_ Hnp].
        intros ->; rewrite str_eqb_refl in Hnp; discriminate Hnp.
Qed.

(** C5: in the fallback classifier the returned primary category is one of
    the primary labels and attains the maximum keyword score; when every
    score is zero the result is "기타"; and when two distinct labels tie at
    the maximum and some label at the maximum is not "정책_정부", the result
    is not "정책_정부". *)
Theorem fallback_classify_primary_spec :
  forall py_lower text title region,
  let sc := Processors.fallback_scores py_lower text title region in
  let p := Processors._fallback_classify_primary py_lower text title region in
  In p Processors._PRIMARY_CATEGORIES /\
  (exists s, In (p, s) sc /\ forall c' s', In (c', s') sc -> (s' <= s)%Z) /\
  ((forall c s, In (c, s) sc -> s = 0%Z) -> p = u "기타") /\
  (forall c1 c2 c3 m, In (c1, m) sc -> In (c2, m) sc -> c1 <> c2 ->
     (forall c s, In (c, s) sc -> (s <= m)%Z) ->
     In (c3, m) sc -> c3 <> u "정책_정부" -> p <> u "정책_정부").
Proof.
  intros py_lower text title region sc p.
  exact (pick_primary_props sc (fallback_scores_inv py_lower text title region)).
Qed.

Lemma fallback_classify_primary_spec_witness :
  Processors._fallback_classify_primary ascii_str_lower (u "대통령 할인") None (u "전국")
  <> u "정책_정부".
Proof.
  destruct (fallback_classify_primary_spec ascii_str_lower (u "대통령 할인") None (u "전국"))
    as [_ [_ [_ H]]].
  apply (H (u "정책_정부") (u "사회") (u "사회") 3%Z).
  - vm_compute; tauto.
  - vm_compute; tauto.
  - vm_compute; discriminate.
  - intros c s Hin; vm_compute in Hin;
      repeat (destruct Hin as [Hin | Hin]; [injection Hin as <- <-; lia |]); destruct Hin.
  - vm_compute; tauto.
  - vm_compute; discriminate.
Defined.

Lemma pad4_exactly_four_distinct_ordered_witness :
  match main_results ascii_str_lower (fun _ => []) rule_processor
          (uq "[{'title':'t','content':'a b'}]") with
  | r :: _ => exists xs,
      pad4_shape (filter (fun x => negb (is_nil (py_strip x))) xs) (out_subcategories r)
  | [] => False
  end.
Proof.
  pose proof (proj2 (proj2 pad4_exactly_four_distinct_ordered) ascii_str_lower
                (fun _ => []) rule_processor (uq "[{'title':'t','content':'a b'}]")) as H.
  destruct (main_results ascii_str_lower (fun _ => []) rule_processor
              (uq "[{'title':'t','content':'a b'}]")) as [|r rs] eqn:E.
  - vm_compute in E; discriminate E.
  - apply (H r); left; reflexivity.
Defined.

(** ** Region detection *)

Lemma find_app_first : forall {A} (f : A -> bool) pre x post,
  Forall (fun y => f y = false) pre -> f x = true -> find f (pre ++ x :: post) = Some x.
Proof.
  intros A f pre x post Hpre Hx; induction Hpre as [|y pre Hy _ IH]; simpl.
  - rewrite Hx; reflexivity.
  - rewrite Hy; exact IH.
Qed.

Lemma find_none_forall : forall {A} (f : A -> bool) l,
  find f l = None -> forall x, In x l -> f x = false.
Proof.
  intros A f l H x Hx; induction l as [|y l IH]; [destruct Hx |]; simpl in H.
  destruct (f y) eqn:Ey; [discriminate H |].
  destruct Hx as [<- | Hx]; [exact Ey | exact (IH H Hx)].
Qed.

Lemma region_alias_bases_are_kws : forall a b,
  In (a, b) Processors._REGION_ALIASES -> In b Processors._REGION_KWS.
Proof.
  assert (H : forallb (fun ab => existsb (str_eqb (snd ab)) Processors._REGION_KWS)
                      Processors._REGION_ALIASES = true) by (vm_compute; reflexivity).
  intros a b Hin; rewrite forallb_forall in H; specialize (H _ Hin).
  apply existsb_str_eqb_In in H; exact H.
Qed.

(** C6: [detect_region] searches the title followed by the body for the
    full-form aliases first, in table order, and returns the canonical short
    form of the first alias present; with no alias and no short region name
    present it returns "전국"; and its result is always a short region name
    or "전국". *)
Theorem detect_region_alias_priority :
  (forall text title pre a b post,
     Processors._REGION_ALIASES = pre ++ (a, b) :: post ->
     py_contains (Processors.title_or_empty title ++ 10%Z :: text) a = true ->
     Forall (fun ab => py_contains (Processors.title_or_empty title ++ 10%Z :: text)
                                   (fst ab) = false) pre ->
     Processors.detect_region text title = b) /\
  (forall text title,
     (forall a b, In (a, b) Processors._REGION_ALIASES ->
        py_contains (Processors.title_or_empty title ++ 10%Z :: text) a = false) ->
     (forall kw, In kw Processors._REGION_KWS ->
        py_contains (Processors.title_or_empty title ++ 10%Z :: text) kw = false) ->
     Processors.detect_region text title = u "전국") /\
  (forall text title,
     In (Processors.detect_region text title) Processors._REGION_KWS \/
     Processors.detect_region text title = u "전국").
Proof.
  split; [| split].
  - intros text title pre a b post Ha Hc Hpre; unfold Processors.detect_region.
    rewrite Ha, (find_app_first _ pre (a, b) post Hpre Hc); reflexivity.
  - intros text title Hal Hkw; unfold Processors.detect_region.
    destruct (find _ Processors._REGION_ALIASES) as [[a b] |] eqn:E1.
    + apply find_some in E1 as [Hin Hc]; cbv beta in Hc; cbn [fst] in Hc; rewrite (Hal a b Hin) in Hc; discriminate Hc.
    + destruct (find _ Processors._REGION_KWS) as [kw |] eqn:E2; [| reflexivity].
      apply find_some in E2 as [Hin Hc]; cbv beta in Hc; rewrite (Hkw kw Hin) in Hc; discriminate Hc.
  - intros text title; unfold Processors.detect_region.
    destruct (find _ Processors._REGION_ALIASES) as [[a b] |] eqn:E1.
    + apply find_some in E1 as [Hin _]; left; exact (region_alias_bases_are_kws a b Hin).
    + destruct (find _ Processors._REGION_KWS) as [kw |] eqn:E2; [| right; reflexivity].
      apply find_some in E2 as [Hin _]; left; exact Hin.
Qed.

Lemma detect_region_alias_priority_witness :
  Processors.detect_region (u "부산시에서 열린 부산 축제") None = u "부산".
Proof.
  apply (proj1 detect_region_alias_priority _ _ [(u "서울시", u "서울")] (u "부산시") (u "부산")
           (skipn 2 Processors._REGION_ALIASES)).
  - vm_compute; reflexivity.
  - vm_compute; reflexivity.
  - constructor; [vm_compute; reflexivity | constructor].
Defined.

(** ** The loader *)

(** C8: the input [[{"a":1}][{"b":2}]] (two arrays with no separator
    between them) loads as the two records [{"a":1}] and [{"b":2}], in this
    order. *)
Theorem load_input_adjacent_arrays :
  _load_input (uq "[{'a':1}][{'b':2}]") = [[(u "a", JInt 1)]; [(u "b", JInt 2)]].
Proof. vm_compute; reflexivity. Qed.

Lemma py_isspace_cases : forall c, py_isspace c = true ->
  In c ([9; 10; 11; 12; 13; 28; 29; 30; 31; 32; 133; 160; 5760] ++
        [8192; 8193; 8194; 8195; 8196; 8197; 8198; 8199; 8200; 8201; 8202;
         8232; 8233; 8239; 8287; 12288])%Z.
Proof.
  intros c H; unfold py_isspace in H.
  repeat rewrite Bool.orb_true_iff in H; repeat rewrite Bool.andb_true_iff in H.
  repeat rewrite Z.leb_le in H; repeat rewrite Z.eqb_eq in H.
  simpl; lia.
Qed.

Lemma lstrip_brace_skip_ws : forall s, py_startswith (py_lstrip s) [123%Z] = true ->
  (exists t, skip_ws s = 123%Z :: t) \/
  (exists c t, skip_ws s = c :: t /\ py_isspace c = true /\ json_ws c = false).
Proof.
  induction s as [|c s IH]; intros H; [discriminate H |].
  cbn [py_lstrip] in H; cbn [skip_ws].
  destruct (py_isspace c) eqn:Hs.
  - destruct (json_ws c) eqn:Hw; [exact (IH H) | right; exists c, s; auto].
  - cbn [py_startswith] in H; destruct (Z.eqb_spec 123 c); [subst c | discriminate H].
    left; exists s; reflexivity.
Qed.

Lemma parse_members_obj : forall n s acc v r,
  parse_members n s acc = Some (v, r) -> is_dict v = true.
Proof.
  induction n as [|n IH]; intros s acc v r H; [discriminate H |].
  cbn [parse_members] in H; destruct_matches_in H; try discriminate H.
  - injection H as <- _; reflexivity.
  - exact (IH _ _ _ _ H).
Qed.

Lemma parse_value_brace : forall n t v r,
  parse_value n (123%Z :: t) = Some (v, r) -> is_dict v = true.
Proof.
  intros [|n] t v r H; [discriminate H |].
  cbn [parse_value] in H; destruct_matches_in H; try discriminate H;
    try (injection H as <- _; reflexivity); exact (parse_members_obj _ _ _ _ _ H).
Qed.

Lemma json_loads_decode : forall s v, json_loads s = Some v ->
  exists r, raw_decode (skip_ws s) = Some (v, r).
Proof.
  intros s v H; unfold json_loads in H.
  destruct (py_startswith s [65279%Z]); [discriminate H |].
  destruct (raw_decode (skip_ws s)) as [[v' r] |]; [| discriminate H].
  destruct (skip_ws r); [injection H as ->; exists r; reflexivity | discriminate H].
Qed.

Lemma jsonl_attempt_not_array : forall raw p xs,
  jsonl_attempt raw = Some p -> json_loads raw <> Some (JArr xs).
Proof.
  intros raw p xs H Hj; unfold jsonl_attempt in H.
  destruct (py_startswith (py_lstrip raw) (u "{") && existsb (Z.eqb 10) raw) eqn:Hc;
    [| discriminate H].
  apply andb_true_iff in Hc as [Hc _].
  apply json_loads_decode in Hj as [r Hd]; unfold raw_decode, fuel_for in Hd.
  destruct (lstrip_brace_skip_ws raw Hc) as [[t Ht] | [c [t [Ht [Hs Hw]]]]];
    rewrite Ht in Hd.
  - apply parse_value_brace in Hd; discriminate Hd.
  - cbn [length] in Hd; replace (2 * S (length t) + 2) with (S (2 * S (length t) + 1)) in Hd
      by lia.
    apply py_isspace_cases in Hs.
    repeat (destruct Hs as [<- | Hs]; [try discriminate Hw; discriminate Hd |]); destruct Hs.
Qed.

Lemma dicts_in_map_JObj : forall ds, dicts_in (map JObj ds) = ds.
Proof. induction ds as [|d ds IH]; [reflexivity | simpl; rewrite IH; reflexivity]. Qed.

Lemma load_values_array : forall raw ds,
  json_loads raw = Some (JArr (map JObj ds)) -> ds <> [] -> load_values raw = ds.
Proof.
  intros raw ds H Hne; unfold load_values; rewrite H.
  assert (Hm : _merge_values_into_items [JArr (map JObj ds)] = ds).
  { unfold _merge_values_into_items; simpl; rewrite app_nil_r; apply dicts_in_map_JObj. }
  rewrite Hm; destruct ds as [|d ds']; [contradiction | reflexivity].
Qed.

Lemma load_input_array : forall text ds,
  json_loads (py_strip text) = Some (JArr (map JObj ds)) -> ds <> [] ->
  _load_input text = ds.
Proof.
  intros text ds H Hne; unfold _load_input.
  destruct (py_strip text) as [|c raw'] eqn:Er; [discriminate H |]; cbn [is_nil].
  destruct (jsonl_attempt (c :: raw')) as [p |] eqn:Ej.
  - exfalso; exact (jsonl_attempt_not_array _ _ _ Ej H).
  - exact (load_values_array _ _ H Hne).
Qed.

(** C1 (amended): when the stripped input text parses ([json.loads]) as a
    non-empty JSON array of objects, [main] builds exactly one record per
    object, in the order of the array (the record it builds from that
    object), and the output file holds exactly these records unless one
    of their strings holds a surrogate code point: then [write_text]
    raises and no output array is written. *)
Theorem main_array_one_record_per_object :
  forall py_lower py_str_other proc text ds,
  json_loads (py_strip text) = Some (JArr (map JObj ds)) -> ds <> [] ->
  let rs := map (fun d => process_item proc (normalize_item py_lower py_str_other d)) ds in
  main_results py_lower py_str_other proc text = rs /\
  length rs = length ds /\
  main_output py_lower py_str_other proc text =
    (if existsb record_has_surrogate rs then None else Some rs).
Proof.
  intros py_lower py_str_other proc text ds H Hne rs.
  assert (E : main_results py_lower py_str_other proc text = rs).
  { unfold main_results, _normalize_items, rs; rewrite (load_input_array text ds H Hne).
    rewrite map_map; reflexivity. }
  split; [exact E | split; [unfold rs; apply length_map |]].
  unfold main_output; cbv zeta; rewrite E; reflexivity.
Qed.

Lemma main_array_one_record_per_object_witness :
  main_output ascii_str_lower (fun _ => []) rule_processor
    (uq " [{'title':'t','content':'a'}, {'body':'b'}] ") =
  Some (map (fun d => process_item rule_processor (normalize_item ascii_str_lower (fun _ => []) d))
    [[(u "title", JStr (u "t")); (u "content", JStr (u "a"))]; [(u "body", JStr (u "b"))]]).
Proof.
  destruct (main_array_one_record_per_object ascii_str_lower (fun _ => []) rule_processor
           (uq " [{'title':'t','content':'a'}, {'body':'b'}] ")
           [[(u "title", JStr (u "t")); (u "content", JStr (u "a"))]; [(u "body", JStr (u "b"))]]
           ltac:(vm_compute; reflexivity) ltac:(discriminate)) as [_ [_ E]].
  rewrite E; vm_compute; reflexivity.
Defined.

(** C1 fails twice.  On the empty array: [[]] parses as an array all of
    whose (zero) elements are record-like, yet [main] writes one record,
    the plain-text record of the text [[]].  And on a lone surrogate: the
    non-empty array [[{"title":"\ud800","content":"a"}]] of record-like
    objects puts U+D800 into the output title, [write_text] raises
    [UnicodeEncodeError] and no output array is written at all. *)
Lemma main_array_one_record_per_object_counterexample :
  ~ (forall py_lower py_str_other proc text xs,
       json_loads (py_strip text) = Some (JArr xs) -> Forall record_like xs ->
       exists rs, main_output py_lower py_str_other proc text = Some rs /\
                  length rs = length xs) /\
  ~ (forall py_lower py_str_other proc text xs,
       json_loads (py_strip text) = Some (JArr xs) -> Forall record_like xs -> xs <> [] ->
       exists rs, main_output py_lower py_str_other proc text = Some rs /\
                  length rs = length xs).
Proof.
  split; intros H.
  - specialize (H ascii_str_lower (fun _ => []) rule_processor (u "[]") [] eq_refl (Forall_nil _)).
    destruct H as [rs [E L]]; vm_compute in E; injection E as <-; discriminate L.
  - assert (Hrl : Forall record_like
                    [JObj [(u "title", JStr [55296%Z]); (u "content", JStr (u "a"))]]).
    { constructor; [| constructor].
      eexists; split; [reflexivity |].
      exists (u "content"), (u "a"); split; [vm_compute; tauto | split; [reflexivity | discriminate]]. }
    specialize (H ascii_str_lower (fun _ => []) rule_processor
                  (uq "[{'title':'\ud800','content':'a'}]") _ ltac:(vm_compute; reflexivity) Hrl
                  ltac:(discriminate)).
    destruct H as [rs [E _]]; vm_compute in E; discriminate E.
Qed.

Lemma if_is_nil_nonnil : forall {A} (r : A) (xs : list A), (if is_nil xs then [r] else xs) <> [].
Proof. intros A r [|x xs]; discriminate. Qed.

Lemma load_values_nonnil : forall raw, load_values raw <> [].
Proof.
  intros raw; unfold load_values.
  destruct (match json_loads raw with Some data => Some [data]
            | None => _parse_multiple_json_values raw end) as [values |];
    [| discriminate].
  destruct (if is_nil (_merge_values_into_items values) && first_is_empty_list values
            then _ else _) as [values' items].
  apply if_is_nil_nonnil.
Qed.

Lemma dicts_in_forallb_nonnil : forall parsed,
  negb (is_nil parsed) && forallb is_dict parsed = true -> dicts_in parsed <> [].
Proof.
  intros [|[] parsed] H; simpl in H; try discriminate H; discriminate.
Qed.

Lemma jsonl_attempt_nonnil : forall raw p, jsonl_attempt raw = Some p -> p <> [].
Proof.
  intros raw p H; unfold jsonl_attempt in H.
  destruct (_ && _); [| discriminate H].
  destruct (loads_all _) as [parsed |]; [| discriminate H].
  destruct (negb (is_nil parsed) && forallb is_dict parsed) eqn:E; [| discriminate H].
  injection H as <-; exact (dicts_in_forallb_nonnil _ E).
Qed.

(** C7 (amended): the loader works on the stripped text [raw].  When [raw]
    is not empty and every parse strategy fails (the JSON Lines attempt,
    [json.loads] and the multi-value parser), the result is the single
    record with the empty title and the body [raw]; a non-empty [raw]
    never loads as zero records; an empty or whitespace-only text loads as
    no record. *)
Theorem load_input_plain_text_fallback :
  (forall text, py_strip text <> [] ->
     jsonl_attempt (py_strip text) = None -> json_loads (py_strip text) = None ->
     _parse_multiple_json_values (py_strip text) = None ->
     _load_input text = [plain_record (py_strip text)]) /\
  (forall text, py_strip text <> [] -> _load_input text <> []) /\
  (forall text, py_strip text = [] -> _load_input text = []).
Proof.
  split; [| split].
  - intros text Hne Hj Hl Hm; unfold _load_input.
    destruct (py_strip text) as [|c raw'] eqn:E; [contradiction |]; cbn [is_nil].
    rewrite Hj; unfold load_values; rewrite Hl, Hm; reflexivity.
  - intros text Hne; unfold _load_input.
    destruct (py_strip text) as [|c raw'] eqn:E; [contradiction |]; cbn [is_nil].
    destruct (jsonl_attempt (c :: raw')) as [p |] eqn:Ej;
      [exact (jsonl_attempt_nonnil _ _ Ej) | apply load_values_nonnil].
  - intros text H; unfold _load_input; rewrite H; reflexivity.
Qed.

Lemma load_input_plain_text_fallback_witness :
  _load_input (u "  not json ") = [plain_record (u "not json")] /\
  _load_input (u "x") <> [] /\ _load_input (u " ") = [].
Proof.
  destruct load_input_plain_text_fallback as [H1 [H2 H3]].
  split; [| split].
  - apply (H1 (u "  not json ")); vm_compute; first [reflexivity | discriminate].
  - apply (H2 (u "x")); vm_compute; discriminate.
  - apply (H3 (u " ")); vm_compute; reflexivity.
Defined.

(** C7 fails on a text made of white space only: it is not empty, yet it
    loads as no record. *)
Lemma load_input_plain_text_fallback_counterexample :
  ~ (forall text, text <> [] -> _load_input text <> []).
Proof.
  intros H; apply (H (u " ")); [discriminate | vm_compute; reflexivity].
Qed.

Lemma In_py_lstrip : forall c s, In c s -> py_isspace c = false -> In c (py_lstrip s).
Proof.
  intros c s; induction s as [|x s IH]; intros Hin Hc; [destruct Hin |]; cbn [py_lstrip].
  destruct (py_isspace x) eqn:Ex.
  - destruct Hin as [-> | Hin]; [congruence | exact (IH Hin Hc)].
  - exact Hin.
Qed.

Lemma In_py_strip : forall c s, In c s -> py_isspace c = false -> In c (py_strip s).
Proof.
  intros c s Hin Hc; unfold py_strip, py_rstrip.
  rewrite <- in_rev; apply In_py_lstrip; [rewrite <- in_rev; apply In_py_lstrip |]; assumption.
Qed.

Lemma splitlines_aux_keeps : forall s cur c, In c cur ->
  exists ln, In ln (splitlines_aux s cur) /\ In c ln.
Proof.
  induction s as [|x s IH]; intros cur c Hin.
  - destruct cur as [|y cur']; [destruct Hin |].
    exists (rev (y :: cur')); split; [left; reflexivity | rewrite <- in_rev; exact Hin].
  - cbn [splitlines_aux]; destruct (is_line_break x).
    + repeat match goal with |- context [match ?y with _ => _ end] => destruct y end;
        exists (rev cur); (split; [left; reflexivity | rewrite <- in_rev; exact Hin]).
    + apply IH; right; exact Hin.
Qed.

Lemma loads_all_objects : forall lines ds,
  Forall2 (fun ln d => json_loads ln = Some (JObj d)) lines ds ->
  loads_all lines = Some (map JObj ds).
Proof.
  intros lines ds H; induction H as [|ln d lines ds Hd _ IH]; [reflexivity |].
  cbn [loads_all]; rewrite Hd, IH; reflexivity.
Qed.

Lemma loads_all_values : forall lines parsed, loads_all lines = Some parsed ->
  Forall2 (fun ln v => json_loads ln = Some v) lines parsed.
Proof.
  induction lines as [|ln lines IH]; intros parsed H; cbn [loads_all] in H.
  - injection H as <-; constructor.
  - destruct (json_loads ln) as [v |] eqn:Ev; [| discriminate H].
    destruct (loads_all lines) as [vs |]; [| discriminate H].
    injection H as <-; constructor; [exact Ev | apply IH; reflexivity].
Qed.

Lemma forallb_is_dict_map : forall ds, forallb is_dict (map JObj ds) = true.
Proof. induction ds; [reflexivity | exact IHds]. Qed.

Lemma Forall2_in_left : forall {A B} (R : A -> B -> Prop) l1 l2 x,
  Forall2 R l1 l2 -> In x l1 -> exists y, In y l2 /\ R x y.
Proof.
  intros A B R l1 l2 x H; induction H as [|a b l1 l2 Hab _ IH]; intros Hin; [destruct Hin |].
  destruct Hin as [<- | Hin]; [exists b; split; [left; reflexivity | exact Hab] |].
  destruct (IH Hin) as [y [Hy Hxy]]; exists y; split; [right; exact Hy | exact Hxy].
Qed.

Lemma jsonl_lines_nonnil : forall r,
  filter (fun ln => negb (is_nil (py_strip ln))) (py_splitlines (123%Z :: r)) <> [].
Proof.
  intros r Hnil.
  destruct (splitlines_aux_keeps r [123%Z] 123%Z (or_introl eq_refl)) as [ln [Hln Hc]].
  assert (Hk : In ln (filter (fun ln => negb (is_nil (py_strip ln))) (py_splitlines (123%Z :: r)))).
  { apply filter_In; split; [exact Hln |].
    pose proof (In_py_strip 123%Z ln Hc eq_refl) as Hs.
    destruct (py_strip ln); [destruct Hs | reflexivity]. }
  rewrite Hnil in Hk; destruct Hk.
Qed.

(** C9: JSON Lines mode.  When the stripped text begins with [{] and
    contains a newline, and its non-blank lines parse one by one as the
    objects [ds], the loader returns [ds], in line order; when some
    non-blank line does not parse as an object, the loader returns what
    the remaining strategies ([load_values]) give. *)
Theorem load_input_jsonl_mode :
  (forall text ds,
     py_startswith (py_strip text) (u "{") = true -> In 10%Z (py_strip text) ->
     Forall2 (fun ln d => json_loads ln = Some (JObj d))
       (filter (fun ln => negb (is_nil (py_strip ln))) (py_splitlines (py_strip text))) ds ->
     _load_input text = ds) /\
  (forall text ln,
     py_strip text <> [] ->
     In ln (filter (fun ln => negb (is_nil (py_strip ln))) (py_splitlines (py_strip text))) ->
     (forall d, json_loads ln <> Some (JObj d)) ->
     _load_input text = load_values (py_strip text)).
Proof.
  split.
  - intros text ds Hb Hnl Hall; unfold _load_input; change (u "{") with [123%Z] in Hb.
    destruct (py_strip text) as [|c r] eqn:E; [discriminate Hb |].
    cbn [py_startswith] in Hb; destruct (Z.eqb_spec 123 c) as [<- | _]; [| discriminate Hb].
    cbn [is_nil]; unfold jsonl_attempt; change (u "{") with [123%Z].
    assert (Hl : py_lstrip (123%Z :: r) = 123%Z :: r) by reflexivity; rewrite Hl.
    assert (Hx : existsb (Z.eqb 10) (123%Z :: r) = true)
      by (apply existsb_exists; exists 10%Z; split; [exact Hnl | reflexivity]).
    rewrite Hx; cbn [py_startswith andb]; rewrite (loads_all_objects _ _ Hall).
    rewrite forallb_is_dict_map, dicts_in_map_JObj.
    destruct ds as [|d ds']; [| destruct r; reflexivity].
    apply Forall2_length in Hall; destruct (filter _ _) eqn:Ef; [| discriminate Hall].
    exfalso; exact (jsonl_lines_nonnil r Ef).
  - intros text ln Hne Hin Hbad; unfold _load_input.
    destruct (py_strip text) as [|c r] eqn:E; [contradiction |]; cbn [is_nil].
    assert (Hj : jsonl_attempt (c :: r) = None).
    { unfold jsonl_attempt; destruct (_ && _); [| reflexivity].
      destruct (loads_all _) as [parsed |] eqn:El; [| reflexivity].
      apply loads_all_values in El.
      destruct (Forall2_in_left _ _ _ _ El Hin) as [v [Hv Hj]].
      assert (Hd : forallb is_dict parsed = false).
      { apply Bool.not_true_iff_false; intros Hf; rewrite forallb_forall in Hf.
        specialize (Hf v Hv); destruct v; try discriminate Hf; exact (Hbad _ Hj). }
      rewrite Hd, andb_false_r; reflexivity. }
    rewrite Hj; reflexivity.
Qed.

Lemma load_input_jsonl_mode_witness :
  _load_input (uq "{'a':1}" ++ [10%Z] ++ uq " {'b':2}") =
    [[(u "a", JInt 1)]; [(u "b", JInt 2)]] /\
  _load_input (uq "{'a':1}" ++ [10%Z] ++ u "x") =
    load_values (py_strip (uq "{'a':1}" ++ [10%Z] ++ u "x")).
Proof.
  split.
  - apply (proj1 load_input_jsonl_mode); [vm_compute; reflexivity | vm_compute; tauto |].
    match goal with |- Forall2 _ ?l _ => let l' := eval vm_compute in l in change l with l' end.
    repeat (apply Forall2_cons; [vm_compute; reflexivity |]); apply Forall2_nil.
  - apply (proj2 load_input_jsonl_mode _ (u "x")); [vm_compute; discriminate | vm_compute; tauto |].
    intros d H; vm_compute in H; discriminate H.
Defined.

(** ** Identifier resolution *)

Lemma pos_to_dec_digits : forall fuel n acc,
  Forall (fun c => (48 <= c <= 57)%Z) acc ->
  Forall (fun c => (48 <= c <= 57)%Z) (pos_to_dec fuel n acc).
Proof.
  induction fuel as [|f IH]; intros n acc H; cbn [pos_to_dec]; [exact H |].
  assert (Hd : Forall (fun c => (48 <= c <= 57)%Z) ((48 + n mod 10)%Z :: acc)).
  { constructor; [pose proof (Z.mod_pos_bound n 10); lia | exact H]. }
  destruct (n <? 10)%Z; [exact Hd | exact (IH _ _ Hd)].
Qed.

Lemma pos_to_dec_nonnil : forall fuel n acc, acc <> [] -> pos_to_dec fuel n acc <> [].
Proof.
  induction fuel as [|f IH]; intros n acc H; cbn [pos_to_dec]; [exact H |].
  destruct (n <? 10)%Z; [discriminate | apply IH; discriminate].
Qed.

Lemma digit_not_space : forall c, (48 <= c <= 57)%Z \/ c = 45%Z -> py_isspace c = false.
Proof.
  intros c Hc; destruct (py_isspace c) eqn:E; [| reflexivity].
  apply py_isspace_cases in E; simpl in E.
  repeat (destruct E as [<- | E]; [lia |]); destruct E.
Qed.

Lemma z_to_dec_shape : forall z,
  z_to_dec z <> [] /\ Forall (fun c => py_isspace c = false) (z_to_dec z).
Proof.
  intros z; unfold z_to_dec.
  set (f := Z.to_nat (Z.log2 (Z.abs z))).
  assert (Hne : pos_to_dec (S f) (Z.abs z) [] <> []).
  { cbn [pos_to_dec]; destruct (Z.abs z <? 10)%Z; [discriminate |].
    apply pos_to_dec_nonnil; discriminate. }
  assert (Hs : Forall (fun c => py_isspace c = false) (pos_to_dec (S f) (Z.abs z) [])).
  { eapply Forall_impl; [| exact (pos_to_dec_digits (S f) (Z.abs z) [] (Forall_nil _))].
    intros c Hc; apply digit_not_space; left; exact Hc. }
  destruct (z <? 0)%Z; [split; [discriminate | constructor; [reflexivity | exact Hs]] |].
  split; assumption.
Qed.

Lemma py_lstrip_nonspace : forall s,
  Forall (fun c => py_isspace c = false) s -> py_lstrip s = s.
Proof. intros [|c s] H; [reflexivity |]; inversion H; subst; cbn [py_lstrip]; rewrite H2; reflexivity. Qed.

Lemma py_strip_nonspace : forall s,
  Forall (fun c => py_isspace c = false) s -> py_strip s = s.
Proof.
  intros s H; unfold py_strip, py_rstrip; rewrite (py_lstrip_nonspace s H).
  rewrite py_lstrip_nonspace; [apply rev_involutive |].
  apply Forall_forall; intros c Hc; rewrite <- in_rev in Hc.
  rewrite Forall_forall in H; exact (H c Hc).
Qed.

Lemma coerce_id_some : forall py_str_other v s,
  _coerce_id py_str_other v = Some s -> s <> [] /\ s = py_strip (py_str py_str_other v).
Proof.
  intros py_str_other v s H; unfold _coerce_id in H.
  destruct v; try discriminate H;
    destruct (py_strip _) eqn:E; try discriminate H; injection H as <-; split; congruence.
Qed.

Lemma coerce_id_none : forall py_str_other v,
  _coerce_id py_str_other v = None <->
  v = JNull \/ py_strip (py_str py_str_other v) = [].
Proof.
  intros py_str_other v; unfold _coerce_id; split.
  - destruct v; try (left; reflexivity);
      right; destruct (py_strip _); first [reflexivity | discriminate].
  - intros [-> | E]; [reflexivity |].
    destruct v; try reflexivity; rewrite E; reflexivity.
Qed.

Lemma first_exact_id_some : forall py_str_other it keys s,
  first_exact_id py_str_other it keys = Some s -> s <> [].
Proof.
  intros py_str_other it keys s; induction keys as [|k ks IH]; cbn [first_exact_id];
    [discriminate |].
  destruct (dict_get it k) as [v |]; [| exact IH].
  destruct (_coerce_id py_str_other v) as [s' |] eqn:E; [| exact IH].
  intros H; injection H as <-; exact (proj1 (coerce_id_some _ _ _ E)).
Qed.

Lemma loose_id_some : forall py_lower py_str_other it s,
  loose_id py_lower py_str_other it = Some s -> s <> [].
Proof.
  intros py_lower py_str_other it s; induction it as [|[k v] it IH]; cbn [loose_id];
    [discriminate |].
  destruct (id_like_key py_lower k); [| exact IH].
  destruct (_coerce_id py_str_other v) as [s' |] eqn:E; [| exact IH].
  intros H; injection H as <-; exact (proj1 (coerce_id_some _ _ _ E)).
Qed.

Lemma first_exact_id_skip : forall py_str_other it pre l,
  (forall k v, In k pre -> dict_get it k = Some v -> _coerce_id py_str_other v = None) ->
  first_exact_id py_str_other it (pre ++ l) = first_exact_id py_str_other it l.
Proof.
  intros py_str_other it pre l H; induction pre as [|k pre IH]; [reflexivity |].
  cbn [app first_exact_id].
  destruct (dict_get it k) as [v |] eqn:Ev.
  - rewrite (H k v (or_introl eq_refl) Ev); apply IH; intros k' v' Hk; apply H; right; exact Hk.
  - apply IH; intros k' v' Hk; apply H; right; exact Hk.
Qed.

Lemma loose_id_none : forall py_lower py_str_other it,
  (forall k v, In (k, v) it -> id_like_key py_lower k = true ->
     _coerce_id py_str_other v = None) ->
  loose_id py_lower py_str_other it = None.
Proof.
  intros py_lower py_str_other it H; induction it as [|[k v] it IH]; [reflexivity |].
  cbn [loose_id]; destruct (id_like_key py_lower k) eqn:Ek.
  - rewrite (H k v (or_introl eq_refl) Ek); apply IH; intros k' v' Hk; apply H; right; exact Hk.
  - apply IH; intros k' v' Hk; apply H; right; exact Hk.
Qed.

(** C10: identifier resolution.  [_get_news_id] never resolves to the
    empty string; [_coerce_id] drops exactly [None] and values whose [str()]
    form is empty or white space; the exact keys are tried in their ranked
    order, a present key whose value is dropped falls through to the later
    keys and, after the last one, to the loose key-name matching; an [int]
    is coerced to its decimal [str()] form; and when neither an exact key
    nor an id-like key yields a value the result is [None]. *)
Theorem get_news_id_resolution : forall py_lower py_str_other,
  (forall it s, _get_news_id py_lower py_str_other it = Some s -> s <> []) /\
  (forall v, _coerce_id py_str_other v = None <->
             v = JNull \/ py_strip (py_str py_str_other v) = []) /\
  (forall it pre k post v,
     exact_keys = pre ++ k :: post ->
     (forall k' v', In k' pre -> dict_get it k' = Some v' -> _coerce_id py_str_other v' = None) ->
     dict_get it k = Some v -> _coerce_id py_str_other v <> None ->
     _get_news_id py_lower py_str_other it = _coerce_id py_str_other v) /\
  (forall it,
     (forall k v, In k exact_keys -> dict_get it k = Some v -> _coerce_id py_str_other v = None) ->
     _get_news_id py_lower py_str_other it = loose_id py_lower py_str_other it) /\
  (forall z, _coerce_id py_str_other (JInt z) = Some (z_to_dec z)) /\
  (forall it,
     (forall k v, In k exact_keys -> dict_get it k = Some v -> _coerce_id py_str_other v = None) ->
     (forall k v, In (k, v) it -> id_like_key py_lower k = true ->
        _coerce_id py_str_other v = None) ->
     _get_news_id py_lower py_str_other it = None).
Proof.
  intros py_lower py_str_other.
  assert (Hfall : forall it,
     (forall k v, In k exact_keys -> dict_get it k = Some v -> _coerce_id py_str_other v = None) ->
     _get_news_id py_lower py_str_other it = loose_id py_lower py_str_other it).
  { intros it H; unfold _get_news_id.
    rewrite <- (app_nil_r exact_keys), (first_exact_id_skip _ _ _ [] H); reflexivity. }
  split; [| split; [| split; [| split; [| split]]]].
  - intros it s; unfold _get_news_id.
    destruct (first_exact_id py_str_other it exact_keys) as [s' |] eqn:E.
    + intros H; injection H as <-; exact (first_exact_id_some _ _ _ _ E).
    + apply loose_id_some.
  - apply coerce_id_none.
  - intros it pre k post v Hk Hpre Hv Hc; unfold _get_news_id.
    rewrite Hk, (first_exact_id_skip _ _ _ _ Hpre); cbn [first_exact_id]; rewrite Hv.
    destruct (_coerce_id py_str_other v) as [s |]; [reflexivity | contradiction].
  - exact Hfall.
  - intros z; unfold _coerce_id; cbn [py_str].
    destruct (z_to_dec_shape z) as [Hne Hs]; rewrite (py_strip_nonspace _ Hs).
    destruct (z_to_dec z); [contradiction | reflexivity].
  - intros it H1 H2; rewrite (Hfall it H1); exact (loose_id_none _ _ _ H2).
Qed.

Lemma get_news_id_resolution_witness :
  _get_news_id ascii_str_lower (fun _ => [])
    [(u "NewsItemId", JStr (u "  ")); (u "newsId", JInt 42); (u "id", JStr (u "x"))] =
    Some (u "42") /\
  _get_news_id ascii_str_lower (fun _ => []) [(u "id", JNull); (u "news_id_2", JStr [])] = None.
Proof.
  destruct (get_news_id_resolution ascii_str_lower (fun _ => [])) as [_ [_ [H3 [_ [_ H6]]]]].
  split.
  - rewrite (H3 _ (firstn 5 exact_keys) (u "newsId") (skipn 6 exact_keys) (JInt 42)).
    + vm_compute; reflexivity.
    + vm_compute; reflexivity.
    + intros k' v' Hk Hg; vm_compute in Hk.
      repeat (destruct Hk as [<- | Hk];
              [vm_compute in Hg; first [discriminate Hg | injection Hg as <-; vm_compute; reflexivity] |]).
      destruct Hk.
    + vm_compute; reflexivity.
    + vm_compute; discriminate.
  - apply H6.
    + intros k v Hk Hg; vm_compute in Hk.
      repeat (destruct Hk as [<- | Hk];
              [vm_compute in Hg; first [discriminate Hg | injection Hg as <-; vm_compute; reflexivity] |]).
      destruct Hk.
    + intros k v Hin Hid; vm_compute in Hin.
      repeat (destruct Hin as [Hin | Hin]; [injection Hin as <- <-; vm_compute; reflexivity |]).
      destruct Hin.
Defined.

(** ** Summaries *)

Lemma py_lstrip_head : forall s c t, py_lstrip s = c :: t -> py_isspace c = false.
Proof.
  induction s as [|x s IH]; intros c t H; [discriminate H |]; cbn [py_lstrip] in H.
  destruct (py_isspace x) eqn:Ex; [exact (IH _ _ H) | injection H as -> _; exact Ex].
Qed.

Lemma py_strip_nonspace_witness : forall s, py_strip s <> [] ->
  exists c, In c (py_strip s) /\ py_isspace c = false.
Proof.
  intros s H; unfold py_strip, py_rstrip in *.
  destruct (py_lstrip (rev (py_lstrip s))) as [|c t] eqn:E; [contradiction |].
  exists c; split; [rewrite <- in_rev; left; reflexivity | exact (py_lstrip_head _ _ _ E)].
Qed.

Lemma py_strip_strip_nonnil : forall s, py_strip s <> [] -> py_strip (py_strip s) <> [].
Proof.
  intros s H; destruct (py_strip_nonspace_witness s H) as [c [Hc Hs]].
  pose proof (In_py_strip c _ Hc Hs) as Hin; intros E; rewrite E in Hin; destruct Hin.
Qed.

Lemma sub_aux_nonnil : forall ic r repl n b a, repl <> [] -> a <> [] ->
  sub_aux ic r repl n b a <> [].
Proof.
  intros ic r repl [|n] b a Hr Ha; cbn [sub_aux]; [exact Ha |].
  destruct (re_match ic r (b, a) None) as [|[[b' a'] m] rest].
  - destruct a; [contradiction | discriminate].
  - destruct (length a' <? length a);
      [| destruct a; [exact Hr |]];
      intros E; apply app_eq_nil in E as [E _]; contradiction.
Qed.

Lemma close_sentence_nonnil : forall s, py_strip s <> [] ->
  Processors._close_sentence s <> [].
Proof.
  intros s H; unfold Processors._close_sentence.
  destruct (py_strip s) as [|c t] eqn:E; [contradiction |]; cbn [is_nil].
  destruct (_ || _).
  - apply sub_aux_nonnil; discriminate.
  - intros E'; apply app_eq_nil in E' as [_ E']; discriminate E'.
Qed.

Lemma insert_desc_in : forall {A} (key : A -> Z) x y ys,
  In y (Processors.insert_desc key x ys) -> y = x \/ In y ys.
Proof.
  intros A key x y ys; induction ys as [|z ys IH]; cbn [Processors.insert_desc].
  - intros [<- | []]; left; reflexivity.
  - destruct (key x <=? key z)%Z.
    + intros [<- | H]; [right; left; reflexivity |].
      destruct (IH H) as [-> | H']; [left; reflexivity | right; right; exact H'].
    + intros [<- | H]; [left; reflexivity | right; exact H].
Qed.

Lemma insert_desc_length : forall {A} (key : A -> Z) x ys,
  length (Processors.insert_desc key x ys) = S (length ys).
Proof.
  intros A key x ys; induction ys as [|z ys IH]; cbn [Processors.insert_desc]; [reflexivity |].
  destruct (key x <=? key z)%Z; cbn [length]; [rewrite IH |]; reflexivity.
Qed.

Lemma sorted_desc_props : forall {A} (key : A -> Z) xs,
  length (Processors.sorted_desc key xs) = length xs /\
  (forall y, In y (Processors.sorted_desc key xs) -> In y xs).
Proof.
  intros A key xs; unfold Processors.sorted_desc.
  assert (G : forall acc, length (fold_left (fun acc x => Processors.insert_desc key x acc) xs acc)
                          = length acc + length xs /\
             (forall y, In y (fold_left (fun acc x => Processors.insert_desc key x acc) xs acc) ->
                        In y acc \/ In y xs)).
  { induction xs as [|x xs IH]; intros acc; cbn [fold_left]; [split; [simpl; lia | auto] |].
    destruct (IH (Processors.insert_desc key x acc)) as [H1 H2]; split.
    - rewrite H1, insert_desc_length; simpl; lia.
    - intros y Hy; destruct (H2 y Hy) as [H | H]; [| right; right; exact H].
      destruct (insert_desc_in key x y acc H) as [-> | H']; [right; left | left]; auto. }
  destruct (G []) as [H1 H2]; split; [exact H1 |].
  intros y Hy; destruct (H2 y Hy) as [[] | H]; exact H.
Qed.

Lemma split_sentences_nonblank : forall text,
  Forall (fun x => py_strip x <> []) (Processors._split_sentences_ko text).
Proof.
  intros text; unfold Processors._split_sentences_ko.
  destruct (is_nil (py_strip text)); [constructor |].
  apply Forall_forall; intros x Hx; apply in_map_iff in Hx as [s [<- Hs]].
  apply filter_In in Hs as [_ Hs]; apply andb_true_iff in Hs as [_ Hs].
  apply Nat.ltb_lt in Hs; apply py_strip_strip_nonnil.
  intros E; rewrite E in Hs; simpl in Hs; lia.
Qed.

Lemma firstn_forall : forall {A} (P : A -> Prop) n xs, Forall P xs -> Forall P (firstn n xs).
Proof.
  intros A P n xs H; apply Forall_forall; intros x Hx.
  rewrite Forall_forall in H; exact (H x (In_firstn_of n xs x Hx)).
Qed.

Lemma pad3_firstn : forall (ne : list pystr), length ne <= 3 ->
  firstn 3 (pad_empty 3 ne) = ne ++ repeat [] (3 - length ne).
Proof.
  intros ne H; unfold pad_empty; apply firstn_all2.
  rewrite length_app, repeat_length; lia.
Qed.

Lemma fallback_summary_shape : forall py_isdecimal text title,
  exists ne,
    Processors._fallback_summary py_isdecimal text title = ne ++ repeat [] (3 - length ne) /\
    length ne <= 3 /\ Forall (fun s => s <> []) ne /\
    (title = None -> length ne = Nat.min 3 (length (Processors._split_sentences_ko text))).
Proof.
  intros py_isdecimal text title; unfold Processors._fallback_summary, Processors.MAX_SUMMARY_LINES.
  cbv zeta.
  set (sents := Processors._split_sentences_ko text).
  set (picked1 := firstn 3 (Processors.sorted_desc (Processors.score py_isdecimal) sents)).
  assert (H1 : Forall (fun x => py_strip x <> []) picked1).
  { apply firstn_forall; apply Forall_forall; intros x Hx.
    apply (proj2 (sorted_desc_props _ _)) in Hx.
    pose proof (split_sentences_nonblank text) as Hs; rewrite Forall_forall in Hs; exact (Hs x Hx). }
  set (picked2 := match title with
                  | Some t =>
                      if negb (is_nil (py_strip t)) then
                        match picked1 with
                        | p0 :: _ => if py_contains p0 (py_strip t) then picked1
                                     else py_strip t :: picked1
                        | [] => py_strip t :: picked1
                        end
                      else picked1
                  | None => picked1
                  end).
  assert (H2 : Forall (fun x => py_strip x <> []) picked2).
  { unfold picked2; destruct title as [t |]; [| exact H1].
    destruct (is_nil (py_strip t)) eqn:Et; [exact H1 |]; cbn [negb].
    assert (Ht : py_strip (py_strip t) <> [])
      by (apply py_strip_strip_nonnil; destruct (py_strip t); [discriminate Et | discriminate]).
    destruct picked1 as [|p0 ps]; [constructor; [exact Ht | exact H1] |].
    destruct (py_contains p0 (py_strip t)); [exact H1 | constructor; [exact Ht | exact H1]]. }
  exists (map Processors._close_sentence (firstn 3 picked2)).
  assert (Hl : length (map Processors._close_sentence (firstn 3 picked2)) <= 3)
    by (rewrite length_map, length_firstn; lia).
  split; [exact (pad3_firstn _ Hl) | split; [exact Hl | split]].
  - apply Forall_forall; intros x Hx; apply in_map_iff in Hx as [y [<- Hy]].
    apply close_sentence_nonnil; apply In_firstn_of in Hy.
    rewrite Forall_forall in H2; exact (H2 y Hy).
  - intros ->; unfold picked2, picked1.
    rewrite length_map, firstn_firstn, length_firstn, (proj1 (sorted_desc_props _ _)).
    reflexivity.
Qed.

Lemma firstn3_pad : forall (ne : list pystr),
  firstn 3 (ne ++ [[]; []; []]) = firstn 3 ne ++ repeat [] (3 - length (firstn 3 ne)).
Proof. intros [|a [|b [|c rest]]]; reflexivity. Qed.

Lemma llm_summary_shape : forall chat text title lines,
  Processors.llm_summary chat text title = Some lines ->
  exists ne, lines = ne ++ repeat [] (3 - length ne) /\ 1 <= length ne <= 3 /\
             Forall (fun s => s <> []) ne.
Proof.
  intros chat text title lines H; unfold Processors.llm_summary in H.
  destruct (chat _ 420) as [reply |]; [| discriminate H].
  destruct (if Processors.py_truthy reply then reply else JObj []) as [| | | | | | d]; try discriminate H.
  destruct (Processors.py_iter _) as [ls |]; [| discriminate H].
  set (cl := map Processors._close_sentence
               (filter (fun ln => negb (is_nil (py_strip ln)))
                  (flat_map (fun ln => match ln with JStr s => [s] | _ => [] end) ls))) in H.
  destruct (1 <=? length cl) eqn:Hlen; [| discriminate H].
  injection H as <-; unfold Processors.MAX_SUMMARY_LINES.
  exists (firstn 3 cl); split; [apply firstn3_pad | split].
  - apply Nat.leb_le in Hlen; rewrite length_firstn; lia.
  - apply firstn_forall, Forall_forall; intros x Hx; unfold cl in Hx.
    apply in_map_iff in Hx as [y [<- Hy]]; apply filter_In in Hy as [_ Hy].
    apply close_sentence_nonnil; destruct (py_strip y); [discriminate Hy | discriminate].
Qed.

(** C2: [summarize] always returns exactly three strings: non-empty lines
    followed by empty strings.  This holds whether the enrichment reply is
    used (whatever number of lines it supplies) or the rule-based fallback
    runs; on the fallback path with no title, the number of non-empty lines
    is the number of scored sentences, capped at three. *)
Theorem summarize_three_lines :
  (forall py_isdecimal llm text title,
     length (Processors.summarize py_isdecimal llm text title) = 3 /\
     exists ne, Processors.summarize py_isdecimal llm text title = ne ++ repeat [] (3 - length ne) /\
                Forall (fun s => s <> []) ne) /\
  (forall py_isdecimal text,
     exists ne, Processors.summarize py_isdecimal None text None = ne ++ repeat [] (3 - length ne) /\
                length ne = Nat.min 3 (length (Processors._split_sentences_ko (py_strip text))) /\
                Forall (fun s => s <> []) ne).
Proof.
  assert (Hfb : forall py_isdecimal text title,
            length (Processors._fallback_summary py_isdecimal text title) = 3 /\
            exists ne, Processors._fallback_summary py_isdecimal text title =
                         ne ++ repeat [] (3 - length ne) /\ Forall (fun s => s <> []) ne).
  { intros py_isdecimal text title.
    destruct (fallback_summary_shape py_isdecimal text title) as [ne [E [Hl [Hf _]]]].
    split; [rewrite E, length_app, repeat_length; lia | exists ne; auto]. }
  split.
  - intros py_isdecimal llm text title; unfold Processors.summarize.
    destruct llm as [chat |]; [| apply Hfb].
    destruct (1 <=? length (py_strip text)); [| apply Hfb].
    destruct (Processors.llm_summary chat (py_strip text) title) as [lines |] eqn:E;
      [| apply Hfb].
    destruct (llm_summary_shape _ _ _ _ E) as [ne [El [Hl Hf]]].
    split; [rewrite El, length_app, repeat_length; lia | exists ne; auto].
  - intros py_isdecimal text; unfold Processors.summarize.
    destruct (fallback_summary_shape py_isdecimal (py_strip text) None) as [ne [E [_ [Hf Hn]]]].
    exists ne; split; [exact E | split; [exact (Hn eq_refl) | exact Hf]].
Qed.

(** ** [strip_html] on text it has already cleaned *)

Lemma sub_aux_nomatch : forall ic r repl n b a,
  (forall p q, a = p ++ q -> re_match ic r (rev p ++ b, q) None = []) ->
  sub_aux ic r repl n b a = a.
Proof.
  intros ic r repl n; induction n as [|n IH]; intros b a H; [reflexivity |].
  cbn [sub_aux]; rewrite (H [] a eq_refl : re_match ic r (b, a) None = []).
  destruct a as [|x a2]; [reflexivity |]; f_equal; apply IH.
  intros p q E; subst a2.
  replace (rev p ++ x :: b) with (rev (x :: p) ++ b) by (simpl; rewrite <- app_assoc; reflexivity).
  apply H; reflexivity.
Qed.

Lemma fold_case_60 : forall x, fold_case x = 60%Z -> x = 60%Z.
Proof.
  intros x; unfold fold_case, ascii_lower.
  destruct ((x =? 304) || (x =? 305))%Z; [discriminate |].
  destruct (x =? 383)%Z; [discriminate |]; destruct (x =? 8490)%Z; [discriminate |].
  destruct ((65 <=? x) && (x <=? 90))%Z eqn:E; [| auto].
  apply andb_true_iff in E as [E1 E2]; apply Z.leb_le in E1, E2; lia.
Qed.

Lemma lead60_nomatch : forall ic r b q cp, ~ In 60%Z q ->
  re_match ic (RSeq (RChar 60) r) (b, q) cp = [].
Proof.
  intros ic r b [|x q] cp H; [reflexivity |]; cbn [re_match].
  destruct (char_eq ic 60 x) eqn:E; [| reflexivity].
  exfalso; apply H; left; unfold char_eq in E; destruct ic.
  - apply Z.eqb_eq in E; apply fold_case_60; rewrite <- E; reflexivity.
  - apply Z.eqb_eq in E; symmetry; exact E.
Qed.

Lemma sub_lead60_id : forall ic r repl y, ~ In 60%Z y ->
  re_sub ic (RSeq (RChar 60) r) repl y = y.
Proof.
  intros ic r repl y H; apply sub_aux_nomatch; intros p q E.
  apply lead60_nomatch; intros Hq; apply H; subst y; apply in_or_app; right; exact Hq.
Qed.

Lemma html_unescape_no_amp : forall y, ~ In 38%Z y -> html_unescape y = y.
Proof.
  intros y H; unfold html_unescape.
  destruct (existsb (Z.eqb 38) y) eqn:E; [| reflexivity].
  apply existsb_exists in E as [x [Hx Ex]]; apply Z.eqb_eq in Ex; subst x; contradiction.
Qed.

Lemma no_double_space_tail : forall x a, no_double_space (x :: a) -> no_double_space a.
Proof. intros x a H p q E; apply (H (x :: p) q); rewrite E; reflexivity. Qed.

Lemma hws_nomatch : forall b x a, (x =? 32)%Z = false -> (x =? 9)%Z = false ->
  re_match false re_hws (b, x :: a) None = [].
Proof. intros b x a H1 H2; simpl; rewrite H1, H2; reflexivity. Qed.

Lemma hws_single : forall b a,
  (forall y a', a = y :: a' -> (y =? 32)%Z = false /\ (y =? 9)%Z = false) ->
  re_match false re_hws (b, 32%Z :: a) None = [((32%Z :: b, a), None)].
Proof.
  intros b [|y a'] H; [reflexivity |].
  destruct (H y a' eq_refl) as [H1 H2]; simpl; rewrite H1, H2; reflexivity.
Qed.

Lemma sub_hws_id : forall n b a, ~ In 9%Z a -> no_double_space a ->
  sub_aux false re_hws [32%Z] n b a = a.
Proof.
  induction n as [|n IH]; intros b a H9 H32; [reflexivity |].
  destruct a as [|x a2]; [reflexivity |].
  assert (Ht9 : ~ In 9%Z a2) by (intros Hin; apply H9; right; exact Hin).
  assert (Ht32 := no_double_space_tail _ _ H32).
  cbn [sub_aux].
  destruct (Z.eqb_spec x 32) as [-> | Hx32].
  - rewrite hws_single.
    + assert (Hlt : (length a2 <? length (32%Z :: a2)) = true)
        by (apply Nat.ltb_lt; simpl; lia).
      rewrite Hlt; cbn [app]; f_equal; apply IH; assumption.
    + intros y a' ->; split.
      * apply Z.eqb_neq; intros ->; apply (H32 [] a'); reflexivity.
      * apply Z.eqb_neq; intros ->; apply Ht9; left; reflexivity.
  - rewrite hws_nomatch.
    + f_equal; apply IH; assumption.
    + apply Z.eqb_neq; exact Hx32.
    + apply Z.eqb_neq; intros ->; apply H9; left; reflexivity.
Qed.

Lemma consumes_char : forall c (P : Z -> Prop), P c -> consumes false (RChar c) P.
Proof.
  intros c P Hc b [|x a] cp b' a' cp' Hin; cbn [re_match] in Hin; [destruct Hin |].
  unfold char_eq in Hin; destruct (Z.eqb_spec c x) as [<- | _]; [| destruct Hin].
  destruct Hin as [E | []]; injection E as _ <- _.
  exists [c]; split; [reflexivity | constructor; [exact Hc | constructor]].
Qed.

Lemma consumes_set : forall ic p (P : Z -> Prop), (forall x, p x = true -> P x) ->
  consumes ic (RSet p) P.
Proof.
  intros ic p P Hp b [|x a] cp b' a' cp' Hin; cbn [re_match] in Hin; [destruct Hin |].
  destruct (p x) eqn:Ex; [| destruct Hin].
  destruct Hin as [E | []]; injection E as _ <- _.
  exists [x]; split; [reflexivity | constructor; [exact (Hp x Ex) | constructor]].
Qed.

Lemma consumes_seq : forall ic r1 r2 P, consumes ic r1 P -> consumes ic r2 P ->
  consumes ic (RSeq r1 r2) P.
Proof.
  intros ic r1 r2 P H1 H2 b a cp b' a' cp' Hin; cbn [re_match] in Hin.
  apply in_flat_map in Hin as [[[b1 a1] cp1] [Hm Hin]]; cbn [fst snd] in Hin.
  destruct (H1 _ _ _ _ _ _ Hm) as [m1 [-> F1]].
  destruct (H2 _ _ _ _ _ _ Hin) as [m2 [-> F2]].
  exists (m1 ++ m2); split; [rewrite app_assoc; reflexivity | apply Forall_app; auto].
Qed.

Lemma re_match_star : forall ic g r1 z cp,
  re_match ic (RStar g r1) z cp = star_go ic g r1 (S (length (snd z))) z cp.
Proof.
  intros ic g r1 z cp.
  change (re_match ic (RStar g r1) z cp) with
    ((fix go (n : nat) (z : zipper) (cp : caps) : list (zipper * caps) :=
        match n with
        | O => [(z, cp)]
        | S n' =>
            let more :=
              flat_map (fun zc =>
                          if length (snd (fst zc)) <? length (snd z)
                          then go n' (fst zc) (snd zc) else [])
                       (re_match ic r1 z cp) in
            if g then more ++ [(z, cp)] else (z, cp) :: more
        end) (S (length (snd z))) z cp).
  generalize (S (length (snd z))) as n; intros n.
  revert z cp; induction n as [|n IH]; intros z cp; [reflexivity |].
  cbn [star_go]; cbv zeta.
  assert (E : flat_map (fun zc =>
     if length (snd (fst zc)) <? length (snd z) then
       (fix go (n : nat) (z : zipper) (cp : caps) : list (zipper * caps) :=
        match n with
        | O => [(z, cp)]
        | S n' =>
            let more :=
              flat_map (fun zc =>
                          if length (snd (fst zc)) <? length (snd z)
                          then go n' (fst zc) (snd zc) else [])
                       (re_match ic r1 z cp) in
            if g then more ++ [(z, cp)] else (z, cp) :: more
        end) n (fst zc) (snd zc) else []) (re_match ic r1 z cp)
    = flat_map (fun zc =>
     if length (snd (fst zc)) <? length (snd z) then star_go ic g r1 n (fst zc) (snd zc)
     else []) (re_match ic r1 z cp)).
  { apply flat_map_ext; intros zc; destruct (_ <? _); [apply IH | reflexivity]. }
  cbv zeta in E; rewrite E; reflexivity.
Qed.

Lemma consumes_star : forall ic g r1 P, consumes ic r1 P -> consumes ic (RStar g r1) P.
Proof.
  intros ic g r1 P H b a cp b' a' cp' Hin; rewrite re_match_star in Hin.
  generalize dependent (S (length (snd (b, a)))); intros n.
  revert b a cp; induction n as [|n IH]; intros b a cp Hin.
  - destruct Hin as [E | []]; injection E as _ <- _; exists []; split; [reflexivity | constructor].
  - assert (Hz : forall res, In res (flat_map (fun zc =>
                   if length (snd (fst zc)) <? length (snd (b, a))
                   then star_go ic g r1 n (fst zc) (snd zc) else [])
                   (re_match ic r1 (b, a) cp)) -> res = ((b', a'), cp') ->
              exists m, a = m ++ a' /\ Forall P m).
    { intros res Hres ->; apply in_flat_map in Hres as [[[b1 a1] cp1] [Hm Hres]].
      cbn [fst snd] in Hres; destruct (_ <? _); [| destruct Hres].
      destruct (H _ _ _ _ _ _ Hm) as [m1 [-> F1]].
      destruct (IH _ _ _ Hres) as [m2 [-> F2]].
      exists (m1 ++ m2); split; [rewrite app_assoc; reflexivity | apply Forall_app; auto]. }
    cbn [star_go] in Hin; cbv zeta in Hin; destruct g.
    + apply in_app_or in Hin as [Hin | [E | []]]; [exact (Hz _ Hin eq_refl) |].
      injection E as _ <- _; exists []; split; [reflexivity | constructor].
    + destruct Hin as [E | Hin]; [| exact (Hz _ Hin eq_refl)].
      injection E as _ <- _; exists []; split; [reflexivity | constructor].
Qed.

Lemma seq_inv : forall ic r1 r2 z cp res, In res (re_match ic (RSeq r1 r2) z cp) ->
  exists z1 cp1, In (z1, cp1) (re_match ic r1 z cp) /\ In res (re_match ic r2 z1 cp1).
Proof.
  intros ic r1 r2 z cp res H; cbn [re_match] in H.
  apply in_flat_map in H as [[z1 cp1] [H1 H2]]; eauto.
Qed.

Lemma char_inv : forall c b a cp b' a' cp',
  In ((b', a'), cp') (re_match false (RChar c) (b, a) cp) -> a = c :: a'.
Proof.
  intros c b [|x a] cp b' a' cp' H; cbn [re_match] in H; [destruct H |].
  unfold char_eq in H; destruct (Z.eqb_spec c x) as [<- | _]; [| destruct H].
  destruct H as [E | []]; injection E as _ <- _; reflexivity.
Qed.

Lemma nl3_shape : forall b a cp b' a' cp',
  In ((b', a'), cp') (re_match false re_nl3 (b, a) cp) ->
  exists m1 m2 m3, a = ([10%Z] ++ m1 ++ [10%Z] ++ m2 ++ [10%Z] ++ m3) ++ a' /\
    Forall (fun c => py_isspace c = true) m1 /\
    Forall (fun c => py_isspace c = true) m2 /\
    Forall (fun c => py_isspace c = true) m3.
Proof.
  intros b a cp b' a' cp' H.
  assert (HS : consumes false RSpace (fun c => py_isspace c = true))
    by (apply consumes_set; auto).
  assert (HN : consumes false (RChar 10) (fun c => py_isspace c = true))
    by (apply consumes_char; reflexivity).
  unfold re_nl3, RPlus in H; cbn [RCat] in H.
  apply seq_inv in H as [[b1 a1] [cp1 [H1 H]]]; apply char_inv in H1; subst a.
  apply seq_inv in H as [[b2 a2] [cp2 [H2 H]]].
  destruct (consumes_star _ _ _ _ HS _ _ _ _ _ _ H2) as [m1 [-> F1]].
  apply seq_inv in H as [[b3 a3] [cp3 [H3 H]]]; apply char_inv in H3; subst a2.
  apply seq_inv in H as [[b4 a4] [cp4 [H4 H]]].
  destruct (consumes_star _ _ _ _ HS _ _ _ _ _ _ H4) as [m2 [-> F2]].
  apply seq_inv in H as [[b5 a5] [cp5 [H5 H]]]; apply char_inv in H5; subst a4.
  destruct (consumes_star _ _ _ _ HN _ _ _ _ _ _ H) as [m3 [-> F3]].
  exists m1, m2, m3; split; [| auto].
  simpl; repeat (rewrite <- app_assoc; simpl); reflexivity.
Qed.

Lemma sub_nl3_id : forall y, no_blank_run3 y -> re_sub false re_nl3 [10%Z; 10%Z] y = y.
Proof.
  intros y Hy; unfold re_sub; apply sub_aux_nomatch; intros p q Eq.
  destruct (re_match false re_nl3 (rev p ++ [], q) None) as [|[[b' a'] cp'] rest] eqn:E;
    [reflexivity | exfalso].
  assert (Hin : In ((b', a'), cp') (re_match false re_nl3 (rev p ++ [], q) None))
    by (rewrite E; left; reflexivity).
  apply nl3_shape in Hin as (m1 & m2 & m3 & -> & F1 & F2 & F3).
  assert (Hsp : py_isspace 10%Z = true) by reflexivity.
  specialize (Hy p _ a' Eq).
  assert (Hc : count_occ Z.eq_dec ([10%Z] ++ m1 ++ [10%Z] ++ m2 ++ [10%Z] ++ m3) 10%Z < 3).
  { apply Hy; repeat (apply Forall_app; split); auto. }
  rewrite !count_occ_app in Hc; cbn [count_occ] in Hc.
  destruct (Z.eq_dec 10 10) as [_ | C]; [lia | exact (C eq_refl)].
Qed.

Lemma re_sub_hws_id : forall y, ~ In 9%Z y -> no_double_space y ->
  re_sub false re_hws [32%Z] y = y.
Proof. intros y H9 Hd; apply sub_hws_id; assumption. Qed.

Lemma lead60_script_style : exists r, re_script_style = RSeq (RChar 60) r.
Proof. eexists; reflexivity. Qed.

Lemma lead60_br : exists r, re_br = RSeq (RChar 60) r.
Proof. eexists; reflexivity. Qed.

Lemma lead60_p_close : exists r, re_p_close = RSeq (RChar 60) r.
Proof. eexists; reflexivity. Qed.

Lemma lead60_tag : exists r, re_tag = RSeq (RChar 60) r.
Proof. eexists; reflexivity. Qed.

(** [strip_html] leaves unchanged every text already in its output form:
    no [<], no [&], no tab, no two adjacent spaces, no white-space run
    holding three newlines, and no leading or trailing white space. *)
Lemma strip_html_fixed_on_clean_text : forall y,
  ~ In 60%Z y -> ~ In 38%Z y -> ~ In 9%Z y ->
  no_double_space y -> no_blank_run3 y -> py_strip y = y ->
  strip_html y = y.
Proof.
  intros y H60 H38 H9 Hds Hbr Hst.
  unfold strip_html; destruct y as [|c y0]; [reflexivity |]; cbv zeta.
  remember (c :: y0) as y eqn:Ey; clear Ey.
  destruct lead60_script_style as [r1 E1]; rewrite E1, (sub_lead60_id true r1 _ y H60).
  destruct lead60_br as [r2 E2]; rewrite E2, (sub_lead60_id true r2 _ y H60).
  destruct lead60_p_close as [r3 E3]; rewrite E3, (sub_lead60_id true r3 _ y H60).
  destruct lead60_tag as [r4 E4]; rewrite E4, (sub_lead60_id false r4 _ y H60).
  rewrite (html_unescape_no_amp y H38).
  change (u " ") with [32%Z]; rewrite (re_sub_hws_id y H9 Hds).
  rewrite (sub_nl3_id y Hbr); exact Hst.
Qed.

(** C4: the stripper is not idempotent: [&amp;lt;] strips to [&lt;], which
    strips again to [<]. *)
Lemma strip_html_idempotent_counterexample :
  ~ (forall x, strip_html (strip_html x) = strip_html x).
Proof.
  intros H; specialize (H (u "&amp;lt;")); vm_compute in H; discriminate H.
Qed.

(* ------------------------------------------------------------------ *)
(** ** Stripping and identifiers *)

Lemma py_lstrip_suffix : forall s, exists d, s = d ++ py_lstrip s.
Proof.
  induction s as [|c s IH]; [exists []; reflexivity |]; cbn [py_lstrip].
  destruct (py_isspace c); [destruct IH as [d Hd]; exists (c :: d); simpl; congruence |].
  exists []; reflexivity.
Qed.

Lemma py_lstrip_keep : forall c t, py_isspace c = false -> py_lstrip (c :: t) = c :: t.
Proof. intros c t H; cbn [py_lstrip]; rewrite H; reflexivity. Qed.

Lemma py_strip_idem : forall s, py_strip (py_strip s) = py_strip s.
Proof.
  intros s; unfold py_strip at 1 2; unfold py_strip, py_rstrip.
  remember (py_lstrip s) as a eqn:Ea.
  destruct (py_lstrip (rev a)) as [|c t] eqn:Eb; [reflexivity |].
  destruct (py_lstrip_suffix (rev a)) as [d Hd]; rewrite Eb in Hd.
  assert (Ha : a = rev (c :: t) ++ rev d)
    by (rewrite <- (rev_involutive a), Hd, rev_app_distr; reflexivity).
  pose proof (py_lstrip_head _ _ _ Eb) as Hc.
  destruct (rev (c :: t)) as [|h r] eqn:Er; [cbn [rev] in Er; apply app_eq_nil in Er as [_ Er']; discriminate Er' |].
  assert (Hh : py_isspace h = false)
    by (apply (py_lstrip_head s h (r ++ rev d)); rewrite <- Ea, Ha; reflexivity).
  rewrite (py_lstrip_keep h r Hh), <- Er, rev_involutive, (py_lstrip_keep c t Hc).
  reflexivity.
Qed.

(* ------------------------------------------------------------------ *)
(** ** A second [strip_html] pass *)

Lemma flat_map_nil : forall {A B} (f : A -> list B) l,
  (forall x, In x l -> f x = []) -> flat_map f l = [].
Proof.
  intros A B f l; induction l as [|x l IH]; intros H; [reflexivity |]; cbn [flat_map].
  rewrite (H x (or_introl eq_refl)), IH; [reflexivity |].
  intros y Hy; exact (H y (or_intror Hy)).
Qed.

Lemma star_none : forall ic g r1 z cp, re_match ic r1 z cp = [] ->
  re_match ic (RStar g r1) z cp = [(z, cp)].
Proof. intros ic g r1 z cp H; rewrite re_match_star; cbn [star_go]; rewrite H; destruct g; reflexivity. Qed.

Lemma star_step : forall ic r1 b x t cp,
  re_match ic r1 (b, x :: t) cp = [((x :: b, t), cp)] ->
  re_match ic (RStar true r1) (b, x :: t) cp =
  re_match ic (RStar true r1) (x :: b, t) cp ++ [((b, x :: t), cp)].
Proof.
  intros ic r1 b x t cp H; rewrite !re_match_star; cbn [snd length].
  change (star_go ic true r1 (S (S (length t))) (b, x :: t) cp) with
    (flat_map (fun zc => if length (snd (fst zc)) <? length (snd (b, x :: t))
                         then star_go ic true r1 (S (length t)) (fst zc) (snd zc) else [])
              (re_match ic r1 (b, x :: t) cp) ++ [((b, x :: t), cp)]).
  rewrite H; cbn [flat_map fst snd length].
  replace (length t <? S (length t)) with true by (symmetry; apply Nat.ltb_lt; lia).
  rewrite app_nil_r; reflexivity.
Qed.

Lemma set_one : forall ic p b x t cp, p x = true ->
  re_match ic (RSet p) (b, x :: t) cp = [((x :: b, t), cp)].
Proof. intros ic p b x t cp H; cbn [re_match]; rewrite H; reflexivity. Qed.

Lemma set_zero : forall ic p b x t cp, p x = false -> re_match ic (RSet p) (b, x :: t) cp = [].
Proof. intros ic p b x t cp H; cbn [re_match]; rewrite H; reflexivity. Qed.

Lemma char10_one : forall b t cp,
  re_match false (RChar 10) (b, 10%Z :: t) cp = [((10%Z :: b, t), cp)].
Proof. reflexivity. Qed.

Lemma char10_zero : forall b a cp, (forall y, a <> 10%Z :: y) ->
  re_match false (RChar 10) (b, a) cp = [].
Proof.
  intros b [|x a] cp H; [reflexivity |]; cbn [re_match]; unfold char_eq.
  destruct (Z.eqb_spec 10 x) as [<- | _]; [exfalso; exact (H a eq_refl) | reflexivity].
Qed.

Lemma seq_char10_zero : forall r b a cp, (forall y, a <> 10%Z :: y) ->
  re_match false (RSeq (RChar 10) r) (b, a) cp = [].
Proof.
  intros r b a cp H.
  change (re_match false (RSeq (RChar 10) r) (b, a) cp) with
    (flat_map (fun zc => re_match false r (fst zc) (snd zc)) (re_match false (RChar 10) (b, a) cp)).
  rewrite (char10_zero b a cp H); reflexivity.
Qed.

Lemma seq_char10_one : forall r b t cp,
  re_match false (RSeq (RChar 10) r) (b, 10%Z :: t) cp = re_match false r (10%Z :: b, t) cp.
Proof.
  intros r b t cp.
  change (re_match false (RSeq (RChar 10) r) (b, 10%Z :: t) cp) with
    (flat_map (fun zc => re_match false r (fst zc) (snd zc))
              (re_match false (RChar 10) (b, 10%Z :: t) cp)).
  rewrite char10_one; cbn [flat_map fst snd]; apply app_nil_r.
Qed.

Lemma consumes_space : consumes false RSpace (fun c => py_isspace c = true).
Proof. apply consumes_set; auto. Qed.

Lemma reach10_nl : forall t, reach10 (10%Z :: t).
Proof. intros t; exists [], t; split; [reflexivity | constructor]. Qed.

Lemma reach10_cons : forall x t, py_isspace x = true -> reach10 t -> reach10 (x :: t).
Proof.
  intros x t Hx [m [y [-> Hm]]]; exists (x :: m), y; split; [reflexivity | constructor; auto].
Qed.

Lemma reach10_inv : forall x t, reach10 (x :: t) ->
  x = 10%Z \/ (py_isspace x = true /\ reach10 t).
Proof.
  intros x t [[|c m] [y [E Hm]]]; injection E as E1 E2; [left; exact E1 |].
  subst c; inversion Hm; subst; right; split; [assumption | exists m, y; auto].
Qed.

Lemma reach10_ws : forall x t, reach10 (x :: t) -> py_isspace x = true.
Proof. intros x t H; destruct (reach10_inv x t H) as [-> | [Hx _]]; [reflexivity | exact Hx]. Qed.

Lemma reach10_nil : ~ reach10 [].
Proof. intros [[|c m] [y [E _]]]; discriminate. Qed.

Lemma reach2_nl : forall t, reach10 t -> reach2 (10%Z :: t).
Proof. intros t H; exists [], t; split; [reflexivity | split; [constructor | exact H]]. Qed.

Lemma reach2_cons : forall x t, py_isspace x = true -> reach2 t -> reach2 (x :: t).
Proof.
  intros x t Hx [m [y [-> [Hm Hy]]]]; exists (x :: m), y.
  split; [reflexivity | split; [constructor; auto | exact Hy]].
Qed.

Lemma reach2_inv : forall x t, reach2 (x :: t) ->
  (x = 10%Z /\ reach10 t) \/ (py_isspace x = true /\ reach2 t).
Proof.
  intros x t [[|c m] [y [E [Hm Hy]]]]; injection E as E1 E2.
  - left; subst; split; [reflexivity | exact Hy].
  - subst c; inversion Hm; subst; right; split; [assumption | exists m, y; auto].
Qed.

Lemma reach2_reach10 : forall t, reach2 t -> reach10 t.
Proof. intros t [m [y [E [Hm _]]]]; exists m, y; auto. Qed.

Lemma reach10_dec : forall t, {reach10 t} + {~ reach10 t}.
Proof.
  induction t as [|x t IH]; [right; exact reach10_nil |].
  destruct (Z.eq_dec x 10) as [-> | Hx]; [left; apply reach10_nl |].
  destruct (py_isspace x) eqn:Ws.
  - destruct IH as [H | H]; [left; apply reach10_cons; assumption |].
    right; intros H'; destruct (reach10_inv _ _ H') as [E | [_ H'']]; [exact (Hx E) | exact (H H'')].
  - right; intros H'; rewrite (reach10_ws _ _ H') in Ws; discriminate.
Defined.

Lemma reach2_dec : forall t, {reach2 t} + {~ reach2 t}.
Proof.
  induction t as [|x t IH]; [right; intros H; exact (reach10_nil (reach2_reach10 _ H)) |].
  destruct (Z.eq_dec x 10) as [-> | Hx].
  - destruct (reach10_dec t) as [H | H]; [left; apply reach2_nl; exact H |].
    right; intros H'; destruct (reach2_inv _ _ H') as [[_ H''] | [_ H'']];
      [exact (H H'') | exact (H (reach2_reach10 _ H''))].
  - destruct (py_isspace x) eqn:Ws.
    + destruct IH as [H | H]; [left; apply reach2_cons; assumption |].
      right; intros H'; destruct (reach2_inv _ _ H') as [[E _] | [_ H'']];
        [exact (Hx E) | exact (H H'')].
    + right; intros H'; rewrite (reach10_ws _ _ (reach2_reach10 _ H')) in Ws; discriminate.
Defined.

(** [\s*\n+] finds no match where no newline is reached through white space. *)
Lemma ws_nl_fail : forall b t cp, ~ reach10 t ->
  re_match false (RSeq (RStar true RSpace) (RPlus (RChar 10))) (b, t) cp = [].
Proof.
  intros b t cp H.
  change (re_match false (RSeq (RStar true RSpace) (RPlus (RChar 10))) (b, t) cp) with
    (flat_map (fun zc => re_match false (RPlus (RChar 10)) (fst zc) (snd zc))
              (re_match false (RStar true RSpace) (b, t) cp)).
  apply flat_map_nil; intros [[b' a'] cp'] Hin; cbn [fst snd].
  destruct (consumes_star _ _ _ _ consumes_space _ _ _ _ _ _ Hin) as [m [Ea Fm]].
  apply seq_char10_zero; intros y ->; apply H; exists m, y; auto.
Qed.

(** [\s*\n\s*\n+] finds no match where two newlines are not reached
    through white space. *)
Lemma ws_nl_ws_nl_fail : forall b v cp, ~ reach2 v ->
  re_match false (RSeq (RStar true RSpace)
                   (RSeq (RChar 10) (RSeq (RStar true RSpace) (RPlus (RChar 10))))) (b, v) cp = [].
Proof.
  intros b v cp H.
  change (re_match false (RSeq (RStar true RSpace)
                   (RSeq (RChar 10) (RSeq (RStar true RSpace) (RPlus (RChar 10))))) (b, v) cp) with
    (flat_map (fun zc => re_match false
                   (RSeq (RChar 10) (RSeq (RStar true RSpace) (RPlus (RChar 10)))) (fst zc) (snd zc))
              (re_match false (RStar true RSpace) (b, v) cp)).
  apply flat_map_nil; intros [[b' a'] cp'] Hin; cbn [fst snd].
  destruct (consumes_star _ _ _ _ consumes_space _ _ _ _ _ _ Hin) as [m [Ea Fm]].
  destruct a' as [|x y]; [apply seq_char10_zero; intros y' E; discriminate E |].
  destruct (Z.eq_dec x 10) as [-> | Hx].
  - rewrite seq_char10_one; apply ws_nl_fail; intros Hy; apply H; exists m, y; auto.
  - apply seq_char10_zero; intros y' E; injection E as E _; exact (Hx E).
Qed.

(** The first match of [\s*\n+] ends after the last newline reached
    through white space. *)
Lemma ws_nl_first : forall t b cp, reach10 t -> exists b' a' cp' rest,
  re_match false (RSeq (RStar true RSpace) (RPlus (RChar 10))) (b, t) cp =
    ((b', a'), cp') :: rest /\ ~ reach10 a'.
Proof.
  induction t as [|x t IH]; intros b cp H; [exfalso; exact (reach10_nil H) |].
  assert (Hx := reach10_ws _ _ H).
  change (re_match false (RSeq (RStar true RSpace) (RPlus (RChar 10))) (b, x :: t) cp) with
    (flat_map (fun zc => re_match false (RPlus (RChar 10)) (fst zc) (snd zc))
              (re_match false (RStar true RSpace) (b, x :: t) cp)).
  rewrite (star_step false RSpace b x t cp (set_one false py_isspace b x t cp Hx)), flat_map_app.
  destruct (reach10_dec t) as [Ht | Ht].
  - destruct (IH (x :: b) cp Ht) as (b' & a' & cp' & rest & E & Ha).
    change (re_match false (RSeq (RStar true RSpace) (RPlus (RChar 10))) (x :: b, t) cp) with
      (flat_map (fun zc => re_match false (RPlus (RChar 10)) (fst zc) (snd zc))
                (re_match false (RStar true RSpace) (x :: b, t) cp)) in E.
    rewrite E; exists b', a', cp', (rest ++ flat_map (fun zc => re_match false (RPlus (RChar 10))
                                                  (fst zc) (snd zc)) [((b, x :: t), cp)]).
    split; [reflexivity | exact Ha].
  - assert (E0 := ws_nl_fail (x :: b) t cp Ht).
    change (re_match false (RSeq (RStar true RSpace) (RPlus (RChar 10))) (x :: b, t) cp) with
      (flat_map (fun zc => re_match false (RPlus (RChar 10)) (fst zc) (snd zc))
                (re_match false (RStar true RSpace) (x :: b, t) cp)) in E0.
    rewrite E0; cbn [app flat_map fst snd]; rewrite app_nil_r.
    destruct (reach10_inv _ _ H) as [-> | [_ Ht']]; [| exfalso; exact (Ht Ht')].
    unfold RPlus; rewrite seq_char10_one, star_none.
    + exists (10%Z :: b), t, cp, []; split; [reflexivity | exact Ht].
    + apply char10_zero; intros y ->; apply Ht; apply reach10_nl.
Qed.

Lemma ws_nl_ws_nl_first : forall v b cp, reach2 v -> exists b' a' cp' rest,
  re_match false (RSeq (RStar true RSpace)
                   (RSeq (RChar 10) (RSeq (RStar true RSpace) (RPlus (RChar 10))))) (b, v) cp =
    ((b', a'), cp') :: rest /\ ~ reach10 a'.
Proof.
  induction v as [|x t IH]; intros b cp H;
    [exfalso; exact (reach10_nil (reach2_reach10 _ H)) |].
  assert (Hx := reach10_ws _ _ (reach2_reach10 _ H)).
  set (K := RSeq (RChar 10) (RSeq (RStar true RSpace) (RPlus (RChar 10)))).
  change (re_match false (RSeq (RStar true RSpace) K) (b, x :: t) cp) with
    (flat_map (fun zc => re_match false K (fst zc) (snd zc))
              (re_match false (RStar true RSpace) (b, x :: t) cp)).
  rewrite (star_step false RSpace b x t cp (set_one false py_isspace b x t cp Hx)), flat_map_app.
  destruct (reach2_dec t) as [Ht | Ht].
  - destruct (IH (x :: b) cp Ht) as (b' & a' & cp' & rest & E & Ha); fold K in E.
    change (re_match false (RSeq (RStar true RSpace) K) (x :: b, t) cp) with
      (flat_map (fun zc => re_match false K (fst zc) (snd zc))
                (re_match false (RStar true RSpace) (x :: b, t) cp)) in E.
    rewrite E; exists b', a', cp',
      (rest ++ flat_map (fun zc => re_match false K (fst zc) (snd zc)) [((b, x :: t), cp)]).
    split; [reflexivity | exact Ha].
  - assert (E0 := ws_nl_ws_nl_fail (x :: b) t cp Ht); fold K in E0.
    change (re_match false (RSeq (RStar true RSpace) K) (x :: b, t) cp) with
      (flat_map (fun zc => re_match false K (fst zc) (snd zc))
                (re_match false (RStar true RSpace) (x :: b, t) cp)) in E0.
    rewrite E0; cbn [app flat_map fst snd]; rewrite app_nil_r.
    destruct (reach2_inv _ _ H) as [[-> Ht'] | [_ Ht']]; [| exfalso; exact (Ht Ht')].
    unfold K; rewrite seq_char10_one; exact (ws_nl_first t (10%Z :: b) cp Ht').
Qed.

Lemma nl3_eq : re_nl3 = RSeq (RChar 10) (RSeq (RStar true RSpace)
                   (RSeq (RChar 10) (RSeq (RStar true RSpace) (RPlus (RChar 10))))).
Proof. reflexivity. Qed.

Lemma nl3_first : forall v b cp, reach2 v -> exists b' a' cp' rest,
  re_match false re_nl3 (b, 10%Z :: v) cp = ((b', a'), cp') :: rest /\ ~ reach10 a'.
Proof.
  intros v b cp H; rewrite nl3_eq, seq_char10_one; exact (ws_nl_ws_nl_first v _ cp H).
Qed.

Lemma nl3_fail : forall v b cp, ~ reach2 v -> re_match false re_nl3 (b, 10%Z :: v) cp = [].
Proof. intros v b cp H; rewrite nl3_eq, seq_char10_one; exact (ws_nl_ws_nl_fail _ v cp H). Qed.

Lemma nl3_fail_other : forall b a cp, (forall y, a <> 10%Z :: y) -> re_match false re_nl3 (b, a) cp = [].
Proof. intros b a cp H; rewrite nl3_eq; apply seq_char10_zero; exact H. Qed.

Lemma nds_suffix : forall p s, no_double_space (p ++ s) -> no_double_space s.
Proof. intros p s H p' q E; apply (H (p ++ p') q); rewrite E, app_assoc; reflexivity. Qed.

Lemma clean_ck_nl : forall k p r, k < 2 -> clean_ck k p (10%Z :: r) = clean_ck (S k) false r.
Proof. intros [|[|k]] p r Hk; [| | lia]; destruct p; reflexivity. Qed.

Lemma clean_ck_ws : forall k p x r, py_isspace x = true -> x <> 10%Z -> x <> 9%Z ->
  (p = true -> x <> 32%Z) -> k < 3 -> clean_ck k p (x :: r) = clean_ck k (x =? 32)%Z r.
Proof.
  intros k p x r Hs H10 H9 H32 Hk; cbn [clean_ck]; rewrite Hs; cbv zeta.
  rewrite (proj2 (Z.eqb_neq x 10) H10), (proj2 (Z.eqb_neq x 9) H9).
  replace (k <? 3) with true by (symmetry; apply Nat.ltb_lt; lia).
  destruct p; [rewrite (proj2 (Z.eqb_neq x 32) (H32 eq_refl)) |]; reflexivity.
Qed.

Lemma clean_ck_nonws : forall k p x r, py_isspace x = false ->
  clean_ck k p (x :: r) = clean_ck 0 false r.
Proof. intros k p x r Hs; cbn [clean_ck]; rewrite Hs; reflexivity. Qed.

(** [re.sub(r"\n\s*\n\s*\n+", "\n\n", t)] on a text without tabs and
    double spaces leaves none, and no run of white space with three
    newlines: [k] and [p] describe the output already produced. *)
Lemma sub_nl3_clean : forall n b a k p, length a < n ->
  ~ In 9%Z a -> no_double_space a -> (p = true -> forall t, a <> 32%Z :: t) ->
  (k = 0 \/ (k = 1 /\ ~ reach2 a) \/ (k = 2 /\ ~ reach10 a)) ->
  clean_ck k p (sub_aux false re_nl3 [10%Z; 10%Z] n b a) = true.
Proof.
  induction n as [|n IH]; intros b a k p Hn H9 Hd Hp Hk; [lia |].
  destruct a as [|x t].
  { cbn [sub_aux]; rewrite nl3_fail_other; [reflexivity | intros y E; discriminate E]. }
  assert (H9t : ~ In 9%Z t) by (intros Hi; apply H9; right; exact Hi).
  assert (Hdt : no_double_space t) by exact (nds_suffix [x] t Hd).
  cbn [length] in Hn.
  destruct (Z.eq_dec x 10) as [-> | Hx10]; [destruct (reach2_dec t) as [R2 | NR2] |].
  - assert (Hk0 : k = 0).
    { destruct Hk as [-> | [[_ N] | [_ N]]]; [reflexivity | |].
      - exfalso; apply N; apply reach2_cons; [reflexivity | exact R2].
      - exfalso; apply N; apply reach10_nl. }
    subst k.
    destruct (nl3_first t b None R2) as (b' & a' & cp' & rest & E & Ha).
    assert (Hin : In ((b', a'), cp') (re_match false re_nl3 (b, 10%Z :: t) None))
      by (rewrite E; left; reflexivity).
    destruct (nl3_shape _ _ _ _ _ _ Hin) as (m1 & m2 & m3 & Ea & _).
    assert (La : length a' < length t).
    { apply (f_equal (@length Z)) in Ea; rewrite !length_app in Ea; cbn [length] in Ea; lia. }
    cbn [sub_aux]; rewrite E.
    replace (length a' <? length (10%Z :: t)) with true
      by (symmetry; apply Nat.ltb_lt; cbn [length]; lia).
    cbv beta iota; cbn [app]; rewrite (clean_ck_nl 0 p) by lia; rewrite (clean_ck_nl 1 false) by lia.
    apply IH.
    + lia.
    + intros Hi; apply H9; rewrite Ea; apply in_or_app; right; exact Hi.
    + rewrite Ea in Hd; exact (nds_suffix _ _ Hd).
    + discriminate.
    + right; right; split; [reflexivity | exact Ha].
  - cbn [sub_aux]; rewrite (nl3_fail t b None NR2); cbv beta iota.
    assert (Hk2 : k < 2).
    { destruct Hk as [-> | [[-> _] | [_ N]]]; [lia | lia | exfalso; apply N; apply reach10_nl]. }
    rewrite (clean_ck_nl k p) by exact Hk2.
    apply IH; [lia | exact H9t | exact Hdt | discriminate |].
    destruct Hk as [-> | [[-> N] | [_ N]]]; [right; left; split; [reflexivity | exact NR2] | |].
    + right; right; split; [reflexivity |]; intros Ht; apply N; apply reach2_nl; exact Ht.
    + exfalso; apply N; apply reach10_nl.
  - cbn [sub_aux]; rewrite nl3_fail_other by (intros y E; injection E as E _; exact (Hx10 E)).
    cbv beta iota.
    assert (Hp' : (x =? 32)%Z = true -> forall t', t <> 32%Z :: t').
    { intros E t' ->; apply Z.eqb_eq in E; subst x; apply (Hd [] t'); reflexivity. }
    destruct (py_isspace x) eqn:Ws.
    + assert (Hx9 : x <> 9%Z) by (intros ->; apply H9; left; reflexivity).
      assert (Hx32 : p = true -> x <> 32%Z) by (intros Hpt ->; exact (Hp Hpt t eq_refl)).
      assert (Hk3 : k < 3) by (destruct Hk as [-> | [[-> _] | [-> _]]]; lia).
      rewrite (clean_ck_ws k p x) by assumption.
      apply IH; [lia | exact H9t | exact Hdt | exact Hp' |].
      destruct Hk as [-> | [[-> N] | [-> N]]]; [left; reflexivity | |].
      * right; left; split; [reflexivity |]; intros Ht; apply N; apply reach2_cons; assumption.
      * right; right; split; [reflexivity |]; intros Ht; apply N; apply reach10_cons; assumption.
    + rewrite clean_ck_nonws by exact Ws.
      apply IH; [lia | exact H9t | exact Hdt | discriminate | left; reflexivity].
Qed.

Lemma count10_cons : forall c m, count_occ Z.eq_dec (c :: m) 10%Z =
  (if (c =? 10)%Z then S (count_occ Z.eq_dec m 10%Z) else count_occ Z.eq_dec m 10%Z).
Proof.
  intros c m; cbn [count_occ].
  destruct (Z.eq_dec c 10) as [-> | H]; [reflexivity |].
  rewrite (proj2 (Z.eqb_neq c 10) H); reflexivity.
Qed.

Lemma clean_ck_sound : forall s k p, k < 3 -> clean_ck k p s = true ->
  ~ In 9%Z s /\ (p = true -> forall t, s <> 32%Z :: t) /\ no_double_space s /\
  (forall m q, s = m ++ q -> Forall (fun c => py_isspace c = true) m ->
     k + count_occ Z.eq_dec m 10%Z < 3) /\
  no_blank_run3 s.
Proof.
  induction s as [|c r IH]; intros k p Hk H.
  - split; [intros [] |]; split; [intros _ t E; discriminate E |].
    split; [intros [|x p'] q E; discriminate E |].
    split; [intros [|x m] q E _; [cbn; lia | discriminate E] |].
    intros [|x p'] [|y m] q E _; try discriminate E; cbn; lia.
  - cbn [clean_ck] in H; destruct (py_isspace c) eqn:Ws.
    + cbv zeta in H; apply andb_prop in H as [H Hr]; apply andb_prop in H as [H Hlt].
      apply andb_prop in H as [H9 H32]; apply Nat.ltb_lt in Hlt.
      apply negb_true_iff in H9, H32.
      destruct (IH _ _ Hlt Hr) as (N9 & N32 & ND & NS & NB).
      assert (Seg : forall m q, c :: r = m ++ q -> Forall (fun c => py_isspace c = true) m ->
                      k + count_occ Z.eq_dec m 10%Z < 3).
      { intros [|x m] q E F; [cbn; lia |]; cbn [app] in E; injection E as <- E.
        apply Forall_cons_iff in F as [_ F]; specialize (NS m q E F); revert NS.
        rewrite count10_cons; destruct (Z.eqb c 10); intros; lia. }
      split; [intros [-> | Hi]; [discriminate H9 | exact (N9 Hi)] |].
      split; [intros -> t E; injection E as E1 _; subst c; discriminate H32 |].
      split.
      { intros [|x p'] q E; cbn [app] in E; injection E as E1 E.
        - exact (N32 (proj2 (Z.eqb_eq _ _) E1) q E).
        - exact (ND p' q E). }
      split; [exact Seg |].
      intros [|x p'] m q E F.
      * specialize (Seg m q E F); lia.
      * cbn [app] in E; injection E as _ E; exact (NB p' m q E F).
    + destruct (IH 0 false ltac:(lia) H) as (N9 & _ & ND & _ & NB).
      split; [intros [-> | Hi]; [discriminate Ws | exact (N9 Hi)] |].
      split; [intros _ t E; injection E as E1 _; subst c; discriminate Ws |].
      split.
      { intros [|x p'] q E; cbn [app] in E; injection E as E1 E;
          [subst c; discriminate Ws | exact (ND p' q E)]. }
      split.
      { intros [|x m] q E F; [cbn; lia |]; cbn [app] in E; injection E as <- E.
        apply Forall_cons_iff in F as [F _]; congruence. }
      intros [|x p'] m q E F.
      * destruct m as [|y m]; [cbn; lia |]; cbn [app] in E; injection E as <- E.
        apply Forall_cons_iff in F as [F _]; congruence.
      * cbn [app] in E; injection E as _ E; exact (NB p' m q E F).
Qed.

Lemma clean_ck_prefix : forall s1 s2 k p, clean_ck k p (s1 ++ s2) = true -> clean_ck k p s1 = true.
Proof.
  induction s1 as [|c s1 IH]; intros s2 k p H; [reflexivity |]; cbn [app clean_ck] in *.
  destruct (py_isspace c); [| exact (IH _ _ _ H)].
  cbv zeta in *; apply andb_prop in H as [H1 H2].
  apply andb_true_intro; split; [exact H1 | exact (IH _ _ _ H2)].
Qed.

Lemma clean_ck_lstrip : forall s k p, clean_ck k p s = true -> clean_ck 0 false (py_lstrip s) = true.
Proof.
  induction s as [|c r IH]; intros k p H; [reflexivity |]; cbn [py_lstrip].
  destruct (py_isspace c) eqn:Ws.
  - cbn [clean_ck] in H; rewrite Ws in H; cbv zeta in H; apply andb_prop in H as [_ H].
    exact (IH _ _ H).
  - rewrite clean_ck_nonws by exact Ws; rewrite clean_ck_nonws in H by exact Ws; exact H.
Qed.

Lemma clean_ck_strip : forall s, clean_ck 0 false s = true -> clean_ck 0 false (py_strip s) = true.
Proof.
  intros s H; apply clean_ck_lstrip in H; unfold py_strip, py_rstrip.
  remember (py_lstrip s) as a eqn:Ea; clear Ea.
  destruct (py_lstrip_suffix (rev a)) as [d Hd].
  apply (clean_ck_prefix _ (rev d)); rewrite <- rev_app_distr, <- Hd, rev_involutive; exact H.
Qed.

Lemma hws_ck_sound : forall s p, hws_ck p s = true ->
  ~ In 9%Z s /\ (p = true -> forall t, s <> 32%Z :: t) /\ no_double_space s.
Proof.
  induction s as [|c r IH]; intros p H.
  - split; [intros [] |]; split; [intros _ t E; discriminate E |].
    intros [|x p'] q E; discriminate E.
  - cbn [hws_ck] in H; apply andb_prop in H as [H Hr]; apply andb_prop in H as [H9 H32].
    apply negb_true_iff in H9, H32.
    destruct (IH _ Hr) as (N9 & N32 & ND).
    split; [intros [-> | Hi]; [discriminate H9 | exact (N9 Hi)] |].
    split; [intros -> t E; injection E as E1 _; subst c; discriminate H32 |].
    intros [|x p'] q E; cbn [app] in E; injection E as E1 E.
    + exact (N32 (proj2 (Z.eqb_eq _ _) E1) q E).
    + exact (ND p' q E).
Qed.

Lemma star_set_head : forall ic p a b cp, exists b' a' rest m,
  re_match ic (RStar true (RSet p)) (b, a) cp = ((b', a'), cp) :: rest /\ a = m ++ a' /\
  (forall c t, a' = c :: t -> p c = false).
Proof.
  intros ic p; induction a as [|x t IH]; intros b cp.
  - rewrite star_none by reflexivity; exists b, [], [], []; split; [reflexivity |].
    split; [reflexivity | intros c t E; discriminate E].
  - destruct (p x) eqn:Px.
    + rewrite (star_step ic (RSet p) b x t cp (set_one ic p b x t cp Px)).
      destruct (IH (x :: b) cp) as (b' & a' & rest & m & E & -> & Ha).
      rewrite E; exists b', a', (rest ++ [((b, x :: m ++ a'), cp)]), (x :: m).
      split; [reflexivity | split; [reflexivity | exact Ha]].
    + rewrite star_none by (apply set_zero; exact Px).
      exists b, (x :: t), [], []; split; [reflexivity |].
      split; [reflexivity | intros c t' E; injection E as -> _; exact Px].
Qed.

Lemma hws_first : forall b x t cp, (x = 32%Z \/ x = 9%Z) -> exists b' a' rest m,
  re_match false re_hws (b, x :: t) cp = ((b', a'), cp) :: rest /\ t = m ++ a' /\
  (forall c t', a' = c :: t' -> c <> 32%Z /\ c <> 9%Z).
Proof.
  intros b x t cp Hx.
  assert (Px : existsb (Z.eqb x) [32; 9]%Z = true) by (destruct Hx as [-> | ->]; reflexivity).
  change (re_match false re_hws (b, x :: t) cp) with
    (flat_map (fun zc => re_match false (RStar true (RCls [32; 9]%Z)) (fst zc) (snd zc))
              (re_match false (RCls [32; 9]%Z) (b, x :: t) cp)).
  unfold RCls; rewrite (set_one false (fun c => existsb (Z.eqb c) [32; 9]%Z) b x t cp Px).
  cbn [flat_map fst snd]; rewrite app_nil_r.
  destruct (star_set_head false (fun c => existsb (Z.eqb c) [32; 9]%Z) t (x :: b) cp)
    as (b' & a' & rest & m & E & Et & Ha).
  rewrite E; exists b', a', rest, m; split; [reflexivity | split; [exact Et |]].
  intros c t' Ec; specialize (Ha c t' Ec); cbv beta in Ha; cbn [existsb] in Ha.
  destruct (Z.eqb_spec c 32); [discriminate Ha |]; destruct (Z.eqb_spec c 9); [discriminate Ha |].
  split; assumption.
Qed.

(** [re.sub(r"[ \t]+", " ", t)] leaves no tab and no two spaces in a row. *)
Lemma sub_hws_clean : forall n b a p, length a < n ->
  (p = true -> forall c t, a = c :: t -> c <> 32%Z /\ c <> 9%Z) ->
  hws_ck p (sub_aux false re_hws [32%Z] n b a) = true.
Proof.
  induction n as [|n IH]; intros b a p Hn Hp; [lia |].
  destruct a as [|x t]; [reflexivity |]; cbn [length] in Hn.
  assert (Cases : {x = 32%Z \/ x = 9%Z} + {x <> 32%Z /\ x <> 9%Z}).
  { destruct (Z.eq_dec x 32); [left; tauto |]; destruct (Z.eq_dec x 9); [left | right]; tauto. }
  destruct Cases as [Hx | [N32 N9]].
  - destruct (hws_first b x t None Hx) as (b' & a' & rest & m & E & -> & Ha).
    cbn [sub_aux]; rewrite E.
    replace (length a' <? length (x :: m ++ a')) with true
      by (symmetry; apply Nat.ltb_lt; cbn [length]; rewrite length_app; lia).
    cbv beta iota; cbn [app].
    destruct p; [exfalso; destruct (Hp eq_refl x (m ++ a') eq_refl); tauto |].
    change (hws_ck true (sub_aux false re_hws [32%Z] n b' a') = true).
    apply IH; [rewrite length_app in Hn; lia | intros _; exact Ha].
  - cbn [sub_aux]; rewrite hws_nomatch by (apply Z.eqb_neq; assumption).
    cbv beta iota; cbn [hws_ck].
    rewrite (proj2 (Z.eqb_neq x 9) N9), (proj2 (Z.eqb_neq x 32) N32).
    destruct p; cbn [andb negb]; (apply IH; [lia | discriminate]).
Qed.

(** The output of [strip_html] has no tab, no two spaces in a row, no
    run of white space with three newlines, and no white space at its
    ends. *)
Lemma strip_html_output_clean : forall x,
  ~ In 9%Z (strip_html x) /\ no_double_space (strip_html x) /\
  no_blank_run3 (strip_html x) /\ py_strip (strip_html x) = strip_html x.
Proof.
  intros x.
  assert (C : clean_ck 0 false (strip_html x) = true).
  { unfold strip_html; destruct x as [|c x0]; [reflexivity |]; cbv beta iota zeta.
    apply clean_ck_strip.
    match goal with |- context [re_sub false re_hws _ ?z] => set (z0 := z) end.
    change (u " ") with [32%Z].
    destruct (hws_ck_sound _ false (sub_hws_clean (S (length z0)) [] z0 false
                                      ltac:(lia) ltac:(discriminate))) as (H9 & _ & HD).
    unfold re_sub at 1; apply sub_nl3_clean; [lia | exact H9 | exact HD | discriminate |].
    left; reflexivity. }
  destruct (clean_ck_sound _ 0 false ltac:(lia) C) as (H9 & _ & HD & _ & HB).
  split; [exact H9 | split; [exact HD | split; [exact HB |]]].
  unfold strip_html; destruct x as [|c x0]; [reflexivity |]; cbv beta iota zeta; apply py_strip_idem.
Qed.

(** C4 (amended): [strip_html] is not idempotent on every string, but a
    second pass changes nothing whenever the first pass left no [&] and
    no [<]: its output has no tab, no two spaces in a row, no run of
    white space with three newlines and no white space at its ends. *)
Theorem strip_html_idempotent_without_amp_lt : forall x,
  ~ In 38%Z (strip_html x) -> ~ In 60%Z (strip_html x) ->
  strip_html (strip_html x) = strip_html x.
Proof.
  intros x H38 H60.
  destruct (strip_html_output_clean x) as (H9 & HD & HB & HS).
  exact (strip_html_fixed_on_clean_text _ H60 H38 H9 HD HB HS).
Qed.

Lemma strip_html_idempotent_without_amp_lt_witness :
  ~ In 38%Z (strip_html (u "<b>x</b>  y&nbsp;z")) /\
  ~ In 60%Z (strip_html (u "<b>x</b>  y&nbsp;z")) /\
  strip_html (strip_html (u "<b>x</b>  y&nbsp;z")) = strip_html (u "<b>x</b>  y&nbsp;z").
Proof.
  assert (N38 : ~ In 38%Z (strip_html (u "<b>x</b>  y&nbsp;z")))
    by (intros H; vm_compute in H; repeat (destruct H as [H | H]; [discriminate H |]); exact H).
  assert (N60 : ~ In 60%Z (strip_html (u "<b>x</b>  y&nbsp;z")))
    by (intros H; vm_compute in H; repeat (destruct H as [H | H]; [discriminate H |]); exact H).
  exact (conj N38 (conj N60 (strip_html_idempotent_without_amp_lt _ N38 N60))).
Defined.


Lemma coerce_id_stripped : forall py_str_other v s,
  _coerce_id py_str_other v = Some s -> s <> [] /\ py_strip s = s.
Proof.
  intros py_str_other v s H; destruct (coerce_id_some _ _ _ H) as [Hn ->].
  split; [exact Hn | apply py_strip_idem].
Qed.

Lemma first_exact_id_from : forall py_str_other it keys s,
  first_exact_id py_str_other it keys = Some s -> exists v, _coerce_id py_str_other v = Some s.
Proof.
  intros py_str_other it keys s; induction keys as [|k ks IH]; cbn [first_exact_id];
    [discriminate |].
  destruct (dict_get it k) as [v|]; [| exact IH].
  destruct (_coerce_id py_str_other v) eqn:E; [intros H; injection H as <-; eauto | exact IH].
Qed.

Lemma loose_id_from : forall py_lower py_str_other it s,
  loose_id py_lower py_str_other it = Some s -> exists v, _coerce_id py_str_other v = Some s.
Proof.
  intros py_lower py_str_other it s; induction it as [|[k v] it IH]; cbn [loose_id];
    [discriminate |].
  destruct (id_like_key py_lower k); [| exact IH].
  destruct (_coerce_id py_str_other v) eqn:E; [intros H; injection H as <-; eauto | exact IH].
Qed.

(** [_get_news_id] returns an identifier with no surrounding white space:
    a non-empty string equal to its own [strip()]. *)
Theorem get_news_id_stripped : forall py_lower py_str_other item s,
  _get_news_id py_lower py_str_other item = Some s -> s <> [] /\ py_strip s = s.
Proof.
  intros py_lower py_str_other item s; unfold _get_news_id.
  destruct (first_exact_id py_str_other item exact_keys) as [s'|] eqn:E.
  - intros H; injection H as <-; destruct (first_exact_id_from _ _ _ _ E) as [v Hv].
    exact (coerce_id_stripped _ _ _ Hv).
  - intros H; destruct (loose_id_from _ _ _ _ H) as [v Hv]; exact (coerce_id_stripped _ _ _ Hv).
Qed.

Lemma get_news_id_stripped_witness :
  _get_news_id ascii_str_lower (fun _ => []) [(u "news_id", JStr (u " 7 "))] = Some (u "7") /\
  u "7" <> [] /\ py_strip (u "7") = u "7".
Proof.
  assert (E : _get_news_id ascii_str_lower (fun _ => []) [(u "news_id", JStr (u " 7 "))]
              = Some (u "7")) by (vm_compute; reflexivity).
  split; [exact E | exact (get_news_id_stripped _ _ _ _ E)].
Defined.

(* ------------------------------------------------------------------ *)
(** ** [_pad4] is idempotent *)

Lemma dedup_aux_nodup_id : forall xs seen, NoDup xs -> (forall x, In x xs -> ~ In x seen) ->
  dedup_aux seen xs = xs.
Proof.
  induction xs as [|x xs IH]; intros seen Hnd Hs; [reflexivity |]; cbn [dedup_aux].
  inversion Hnd as [|? ? Hx Hnd']; subst.
  destruct (existsb (str_eqb x) seen) eqn:E.
  - apply existsb_str_eqb_In in E; exfalso; exact (Hs x (or_introl eq_refl) E).
  - f_equal; apply IH; [exact Hnd' |].
    intros y Hy [<- | Hy']; [exact (Hx Hy) | exact (Hs y (or_intror Hy) Hy')].
Qed.

Lemma filter_nonblank_pad : forall ne,
  Forall (fun x => py_strip x <> []) ne ->
  filter (fun x => negb (is_nil (py_strip x))) (pad_empty 4 ne) = ne.
Proof.
  intros ne H; unfold pad_empty; rewrite filter_app.
  assert (R : forall k, filter (fun x => negb (is_nil (py_strip x))) (repeat [] k) = [])
    by (induction k; [reflexivity | exact IHk]).
  rewrite R, app_nil_r; induction ne as [|x ne IH]; [reflexivity |].
  inversion H as [|? ? Hx Hne]; subst; cbn [filter].
  destruct (py_strip x) eqn:E; [contradiction | cbn; f_equal; exact (IH Hne)].
Qed.

Lemma pad4_idem_core : forall (ne : list pystr), NoDup ne -> length ne <= 4 ->
  firstn 4 (dict_fromkeys ne) = ne.
Proof.
  intros ne Hnd Hl; unfold dict_fromkeys; rewrite dedup_aux_nodup_id; [| exact Hnd | tauto].
  apply firstn_all2; exact Hl.
Qed.

Lemma pipeline_pad4_parts : forall xs,
  let ne := firstn 4 (dict_fromkeys (filter (fun x => negb (is_nil (py_strip x))) xs)) in
  _pad4 xs = pad_empty 4 ne /\ NoDup ne /\ length ne <= 4 /\
  Forall (fun x => py_strip x <> []) ne.
Proof.
  intros xs ne; split; [reflexivity |].
  destruct (dedup_aux_props (filter (fun x => negb (is_nil (py_strip x))) xs) [])
    as [Hnd [Hin _]].
  split; [apply NoDup_firstn_of; exact Hnd |].
  split; [apply firstn_le_length |].
  apply Forall_forall; intros y Hy; apply In_firstn_of in Hy.
  destruct (Hin y Hy) as [Hy' _]; apply filter_In in Hy' as [_ Hy'].
  destruct (py_strip y); [discriminate | discriminate].
Qed.

(** [pipeline._pad4] is idempotent: padding an already padded list of
    subcategories gives it back unchanged. *)
Theorem pipeline_pad4_idempotent : forall xs, _pad4 (_pad4 xs) = _pad4 xs.
Proof.
  intros xs; destruct (pipeline_pad4_parts xs) as [E [Hnd [Hl Hf]]].
  rewrite E; unfold _pad4 at 1; rewrite filter_nonblank_pad by exact Hf.
  rewrite pad4_idem_core by assumption; reflexivity.
Qed.

Lemma processors_pad4_parts : forall xs,
  let ne := firstn 4 (dict_fromkeys
              (map py_strip (filter (fun x => negb (is_nil (py_strip x))) xs))) in
  Processors._pad4 xs = pad_empty 4 ne /\ NoDup ne /\ length ne <= 4 /\
  Forall (fun x => x <> [] /\ py_strip x = x) ne.
Proof.
  intros xs ne; split; [reflexivity |].
  destruct (dedup_aux_props (map py_strip (filter (fun x => negb (is_nil (py_strip x))) xs)) [])
    as [Hnd [Hin _]].
  split; [apply NoDup_firstn_of; exact Hnd |].
  split; [apply firstn_le_length |].
  apply Forall_forall; intros y Hy; apply In_firstn_of in Hy.
  destruct (Hin y Hy) as [Hy' _]; apply in_map_iff in Hy' as [x [<- Hx]].
  apply filter_In in Hx as [_ Hx]; split; [| apply py_strip_idem].
  destruct (py_strip x); [discriminate | discriminate].
Qed.

(** [processors._pad4] is idempotent. *)
Theorem processors_pad4_idempotent : forall xs,
  Processors._pad4 (Processors._pad4 xs) = Processors._pad4 xs.
Proof.
  intros xs; destruct (processors_pad4_parts xs) as [E [Hnd [Hl Hf]]].
  rewrite E; unfold Processors._pad4 at 1.
  rewrite filter_nonblank_pad
    by (apply Forall_forall; intros y Hy; rewrite Forall_forall in Hf;
        destruct (Hf y Hy) as [H1 H2]; rewrite H2; exact H1).
  rewrite map_ext_in with (g := fun x => x)
    by (intros y Hy; rewrite Forall_forall in Hf; exact (proj2 (Hf y Hy))).
  rewrite map_id, pad4_idem_core by assumption; reflexivity.
Qed.

(* ------------------------------------------------------------------ *)
(** ** The classifier's normalisations *)

Lemma primary_mapping_targets : forall a b, In (a, b) Processors.primary_mapping ->
  In b Processors._PRIMARY_CATEGORIES.
Proof.
  intros a b H; vm_compute in H;
    repeat (destruct H as [H | H]; [injection H as <- <-; vm_compute; tauto |]); destruct H.
Qed.

Lemma normalize_primary_in : forall cat,
  In (Processors._normalize_primary cat) Processors._PRIMARY_CATEGORIES.
Proof.
  intros cat; unfold Processors._normalize_primary.
  set (c := py_strip _).
  destruct (existsb (str_eqb c) _) eqn:E; [apply existsb_str_eqb_In; exact E |].
  destruct (find _ _) as [[a b]|] eqn:Ef; [| vm_compute; tauto].
  apply find_some in Ef as [Hin _]; exact (primary_mapping_targets _ _ Hin).
Qed.

(** [_normalize_primary] always returns one of the nine categories: a
    category name, once stripped, is kept as it is, a slash spelling
    ["정책/정부"] and the like is mapped to its category, anything else
    ([None] included) becomes ["기타"]. *)
Theorem normalize_primary_category : forall cat,
  In (Processors._normalize_primary cat) Processors._PRIMARY_CATEGORIES /\
  (forall s, In (py_strip s) Processors._PRIMARY_CATEGORIES ->
     Processors._normalize_primary (Some s) = py_strip s) /\
  (forall a b, In (a, b) Processors.primary_mapping ->
     Processors._normalize_primary (Some a) = b) /\
  (forall s, ~ In (py_strip s) Processors._PRIMARY_CATEGORIES ->
     (forall a b, In (a, b) Processors.primary_mapping -> a <> py_strip s) ->
     Processors._normalize_primary (Some s) = u "기타") /\
  Processors._normalize_primary None = u "기타".
Proof.
  intros cat; split; [apply normalize_primary_in | split; [| split; [| split]]].
  - intros s Hs; unfold Processors._normalize_primary.
    apply existsb_str_eqb_In in Hs; rewrite Hs; reflexivity.
  - intros a b H; vm_compute in H;
      repeat (destruct H as [H | H]; [injection H as <- <-; vm_compute; reflexivity |]);
      destruct H.
  - intros s Hc Hm; unfold Processors._normalize_primary.
    rewrite <- existsb_str_eqb_In in Hc; apply Bool.not_true_is_false in Hc; rewrite Hc.
    destruct (find _ _) as [[a b]|] eqn:E; [| reflexivity].
    apply find_some in E as [Hin He]; apply str_eqb_eq in He; cbn [fst] in He.
    exfalso; exact (Hm a b Hin He).
  - vm_compute; reflexivity.
Qed.

Lemma debias_primary_cases : forall py_lower primary text title region,
  let r := Processors._debias_primary py_lower primary text title region in
  r = primary \/
  (In r Processors._PRIMARY_CATEGORIES /\ r <> u "정책_정부" /\ r <> u "기타").
Proof.
  intros py_lower primary text title region r; subst r.
  unfold Processors._debias_primary.
  repeat match goal with
         | |- context [if ?b then _ else _] => destruct b
         end;
    first [left; reflexivity
          | right; split; [vm_compute; tauto | split; vm_compute; discriminate]].
Qed.

(** [_debias_primary] either keeps the category it is given or replaces
    it by a category other than ["정책_정부"] and ["기타"]. *)
Theorem debias_primary_range : forall py_lower primary text title region,
  let r := Processors._debias_primary py_lower primary text title region in
  r = primary \/
  (In r Processors._PRIMARY_CATEGORIES /\ r <> u "정책_정부" /\ r <> u "기타").
Proof. exact debias_primary_cases. Qed.

(* ------------------------------------------------------------------ *)
(** ** Subcategory suggestions *)

Lemma dedup_aux_seen_ext : forall xs s1 s2, (forall x, In x s1 <-> In x s2) ->
  dedup_aux s1 xs = dedup_aux s2 xs.
Proof.
  induction xs as [|a xs IH]; intros s1 s2 Hs; simpl; [reflexivity |].
  assert (E : existsb (str_eqb a) s1 = existsb (str_eqb a) s2).
  { destruct (existsb (str_eqb a) s1) eqn:E1, (existsb (str_eqb a) s2) eqn:E2; auto.
    - apply existsb_str_eqb_In, Hs, existsb_str_eqb_In in E1; congruence.
    - apply existsb_str_eqb_In, Hs, existsb_str_eqb_In in E2; congruence. }
  rewrite E; destruct (existsb (str_eqb a) s2).
  - apply IH; exact Hs.
  - f_equal; apply IH; intros x; simpl; rewrite Hs; tauto.
Qed.

Lemma dedup_aux_complete : forall xs seen y, In y xs -> ~ In y seen ->
  In y (dedup_aux seen xs).
Proof.
  induction xs as [|a xs IH]; intros seen y Hy Hs; [destruct Hy |]; simpl.
  destruct (existsb (str_eqb a) seen) eqn:E.
  - destruct Hy as [<- | Hy]; [apply existsb_str_eqb_In in E; contradiction |].
    apply IH; assumption.
  - destruct (list_eq_dec Z.eq_dec a y) as [<- | Hne]; [left; reflexivity |].
    right; apply IH; [destruct Hy; [contradiction | assumption] |].
    intros [? | ?]; contradiction.
Qed.

Lemma dedup_aux_app : forall p q s,
  dedup_aux s (p ++ q) = dedup_aux s p ++ dedup_aux (p ++ s) q.
Proof.
  induction p as [|a p IH]; intros q s; simpl; [reflexivity |].
  destruct (existsb (str_eqb a) s) eqn:E.
  - rewrite IH; f_equal; apply dedup_aux_seen_ext; intros x.
    apply existsb_str_eqb_In in E; simpl; rewrite !in_app_iff.
    split; [tauto | intros [Hx | H]; [subst x; right; exact E | exact H]].
  - rewrite IH; simpl; f_equal; f_equal; apply dedup_aux_seen_ext; intros x.
    simpl; rewrite !in_app_iff; simpl; tauto.
Qed.

(** The candidate loop keeps the first six distinct stripped non-empty
    candidates. *)
Lemma collect_subs_eq : forall cands out, length out < 6 ->
  Processors.collect_subs cands out =
  firstn 6 (out ++ dedup_aux out (filter (fun x => negb (is_nil x)) (map py_strip cands))).
Proof.
  induction cands as [|k r IH]; intros out Hl.
  - cbn [Processors.collect_subs map filter dedup_aux].
    rewrite app_nil_r, firstn_all2 by lia; reflexivity.
  - cbn [Processors.collect_subs map filter]; cbv zeta.
    destruct (is_nil (py_strip k)) eqn:En; cbn [negb orb].
    + apply IH; exact Hl.
    + cbn [dedup_aux]; destruct (existsb (str_eqb (py_strip k)) out) eqn:Ee.
      * apply IH; exact Hl.
      * rewrite (dedup_aux_seen_ext _ (py_strip k :: out) (out ++ [py_strip k]))
          by (intros x; rewrite in_app_iff; simpl; tauto).
        set (D := dedup_aux (out ++ [py_strip k]) _).
        replace (out ++ py_strip k :: D) with ((out ++ [py_strip k]) ++ D)
          by (rewrite <- app_assoc; reflexivity).
        rewrite length_app; cbn [length].
        destruct (6 <=? length out + 1) eqn:E6.
        -- apply Nat.leb_le in E6.
           rewrite firstn_app, length_app; cbn [length].
           replace (6 - (length out + 1)) with 0 by lia.
           rewrite firstn_O, app_nil_r, firstn_all2 by (rewrite length_app; simpl; lia).
           reflexivity.
        -- apply Nat.leb_gt in E6; apply IH; rewrite length_app; simpl; lia.
Qed.

Lemma pref_of_cases : forall primary,
  let p := Processors.pref_of primary in
  filter (fun x => negb (is_nil x)) (map py_strip p) = p /\ dict_fromkeys p = p.
Proof.
  intros primary p; subst p; unfold Processors.pref_of.
  destruct (find _ _) as [[k v]|] eqn:E; [| split; reflexivity].
  apply find_some in E as [H _].
  vm_compute in H;
    repeat (destruct H as [H | H];
            [injection H as <- <-; split; vm_compute; reflexivity |]); destruct H.
Qed.

Lemma hints_ok :
  Forall (fun y => y <> [] /\ py_strip y = y) Processors._SUBCATEGORY_HINTS /\
  NoDup Processors._SUBCATEGORY_HINTS /\ 6 <= length Processors._SUBCATEGORY_HINTS.
Proof.
  split; [| split].
  - apply Forall_forall; intros y Hy.
    assert (Hb : forallb (fun y => negb (is_nil y) && str_eqb (py_strip y) y)
                   Processors._SUBCATEGORY_HINTS = true) by (vm_compute; reflexivity).
    rewrite forallb_forall in Hb; specialize (Hb y Hy).
    apply andb_prop in Hb as [H1 H2]; apply str_eqb_eq in H2; split; [| exact H2].
    intros ->; discriminate.
  - assert (E : dict_fromkeys Processors._SUBCATEGORY_HINTS = Processors._SUBCATEGORY_HINTS)
      by (vm_compute; reflexivity).
    rewrite <- E; apply dedup_aux_props.
  - vm_compute; lia.
Qed.

(** [_suggest_subs_from_text] returns exactly six suggestions, pairwise
    distinct, non-empty and stripped, and it starts with the preferred
    keywords of the category it is given (the first six of them). *)
Theorem suggest_subs_shape : forall text title region primary,
  let r := Processors._suggest_subs_from_text text title region primary in
  length r = 6 /\ NoDup r /\ Forall (fun x => x <> [] /\ py_strip x = x) r /\
  firstn (Nat.min 6 (length (Processors.pref_of primary))) r =
  firstn 6 (Processors.pref_of primary).
Proof.
  intros text title region primary r; subst r.
  unfold Processors._suggest_subs_from_text; cbv zeta.
  set (P := Processors.pref_of primary).
  match goal with
  | |- context [Processors._auto_keywords ?b 12] => set (keys := Processors._auto_keywords b 12)
  end.
  match goal with
  | |- context [if ?c then P ++ ?t else P] => set (pre := if c then P ++ t else P)
  end.
  assert (Hpre : exists T, pre = P ++ T)
    by (subst pre; destruct (_ && _); [eexists; reflexivity | exists []; rewrite app_nil_r; reflexivity]).
  destruct Hpre as [T HT]; rewrite HT.
  rewrite collect_subs_eq by (simpl; lia); cbn [app].
  set (nn := fun x : pystr => negb (is_nil x)).
  set (X := filter nn (map py_strip ((P ++ T) ++ keys ++ Processors._SUBCATEGORY_HINTS))).
  assert (HX : forall y, In y X -> y <> [] /\ py_strip y = y).
  { intros y Hy; subst X; apply filter_In in Hy as [Hy Hn].
    apply in_map_iff in Hy as [x [<- _]]; split; [| apply py_strip_idem].
    intros E; unfold nn in Hn; rewrite E in Hn; discriminate. }
  destruct (dedup_aux_props X []) as [Hnd [Hin _]].
  destruct hints_ok as [Hh [Hhnd Hhl]].
  assert (Hlen : 6 <= length (dedup_aux [] X)).
  { transitivity (length Processors._SUBCATEGORY_HINTS); [exact Hhl |].
    apply NoDup_incl_length; [exact Hhnd |].
    intros y Hy; apply dedup_aux_complete; [| intros []].
    rewrite Forall_forall in Hh; destruct (Hh y Hy) as [Hy1 Hy2].
    subst X; apply filter_In; split.
    - apply in_map_iff; exists y; split; [exact Hy2 |].
      rewrite !in_app_iff; tauto.
    - unfold nn; destruct y; [contradiction | reflexivity]. }
  split; [| split; [| split]].
  - rewrite length_firstn; change (Nat.min 6 (length (dedup_aux [] X)) = 6); lia.
  - apply NoDup_firstn_of; exact Hnd.
  - apply Forall_forall; intros y Hy; apply In_firstn_of in Hy.
    destruct (Hin y Hy) as [Hy' _]; exact (HX y Hy').
  - destruct (pref_of_cases primary) as [Hf Hd]; fold P in Hf, Hd.
    assert (EX : X = P ++ filter nn (map py_strip (T ++ keys ++ Processors._SUBCATEGORY_HINTS))).
    { subst X; rewrite <- app_assoc, map_app, filter_app; f_equal; exact Hf. }
    change (firstn (Nat.min 6 (length P)) (firstn 6 (dedup_aux [] X)) = firstn 6 P).
    rewrite EX; unfold dict_fromkeys in Hd; rewrite dedup_aux_app, Hd.
    rewrite firstn_firstn, firstn_app.
    replace (Nat.min (Nat.min 6 (length P)) 6 - length P) with 0 by lia.
    rewrite firstn_O, app_nil_r.
    destruct (Nat.le_ge_cases (length P) 6) as [Hle | Hge].
    + replace (Nat.min (Nat.min 6 (length P)) 6) with (length P) by lia.
      rewrite firstn_all, firstn_all2 by lia; reflexivity.
    + replace (Nat.min (Nat.min 6 (length P)) 6) with 6 by lia; reflexivity.
Qed.

(* ------------------------------------------------------------------ *)
(** ** [Processor.classify] *)

Lemma normalize_subs_ok : forall py_lower subs,
  exists ne, Processors._normalize_subs py_lower subs = ne ++ repeat [] (4 - length ne) /\
    length ne <= 4 /\ NoDup ne /\ Forall (fun x => x <> [] /\ py_strip x = x) ne.
Proof.
  intros py_lower subs; unfold Processors._normalize_subs.
  match goal with |- context [Processors._pad4 ?xs] =>
    destruct (processors_pad4_parts xs) as [E [Hn [Hl Hf]]] end.
  eexists; rewrite E; unfold pad_empty; eauto.
Qed.

Lemma fallback_classify_ok : forall py_lower text title region,
  let r := Processors._fallback_classify py_lower text title region in
  In (fst r) Processors._PRIMARY_CATEGORIES /\
  exists ne, snd r = ne ++ repeat [] (4 - length ne) /\
    length ne <= 4 /\ NoDup ne /\ Forall (fun x => x <> [] /\ py_strip x = x) ne.
Proof.
  intros py_lower text title region r; subst r.
  unfold Processors._fallback_classify; cbv zeta; cbn [fst snd]; split.
  - exact (proj1 (pick_primary_props _ (fallback_scores_inv py_lower text title region))).
  - destruct (0 <? _); apply normalize_subs_ok.
Qed.

Lemma llm_classify_ok : forall py_lower chat text title region r,
  Processors.llm_classify py_lower chat text title region = Some r ->
  In (fst r) Processors._PRIMARY_CATEGORIES /\
  exists ne, snd r = ne ++ repeat [] (4 - length ne) /\
    length ne <= 4 /\ NoDup ne /\ Forall (fun x => x <> [] /\ py_strip x = x) ne.
Proof.
  intros py_lower chat text title region r H; unfold Processors.llm_classify in H.
  destruct_matches_in H; try discriminate; injection H as <-; cbn [fst snd];
    (split; [| apply normalize_subs_ok]);
    match goal with
    | |- In (Processors._debias_primary _ ?p _ _ _) _ =>
        destruct (debias_primary_cases py_lower p text title region) as [-> | [Hin _]];
        [apply normalize_primary_in | exact Hin]
    end.
Qed.

(** Whatever the model returns, and without a model, [classify] yields
    one of the nine primary categories and exactly four subcategories:
    distinct non-empty stripped entries first, then [""] padding. *)
Theorem classify_shape : forall py_lower llm text title,
  let r := Processors.classify py_lower llm text title in
  In (fst r) Processors._PRIMARY_CATEGORIES /\
  exists ne, snd r = ne ++ repeat [] (4 - length ne) /\
    length ne <= 4 /\ NoDup ne /\ Forall (fun x => x <> [] /\ py_strip x = x) ne.
Proof.
  intros py_lower llm text title r; subst r; unfold Processors.classify; cbv zeta.
  destruct llm as [chat|]; [destruct (1 <=? _) |]; try apply fallback_classify_ok.
  destruct (Processors.llm_classify _ _ _ _ _) as [r|] eqn:E;
    [exact (llm_classify_ok _ _ _ _ _ _ E) | apply fallback_classify_ok].
Qed.

(* ------------------------------------------------------------------ *)
(** ** Keyword extraction *)

Lemma plus_set_head : forall p b x a2 cp, p x = true ->
  exists h rest, re_match false (RPlus (RSet p)) (b, x :: a2) cp = h :: rest /\
    length (snd (fst h)) <= length a2.
Proof.
  intros p b x a2 cp Hp.
  assert (E0 : re_match false (RPlus (RSet p)) (b, x :: a2) cp =
               flat_map (fun zc => re_match false (RStar true (RSet p)) (fst zc) (snd zc))
                        (re_match false (RSet p) (b, x :: a2) cp)) by reflexivity.
  assert (E1 : re_match false (RSet p) (b, x :: a2) cp = [((x :: b, a2), cp)])
    by (cbn [re_match]; rewrite Hp; reflexivity).
  rewrite E0, E1; cbn [flat_map fst snd]; rewrite app_nil_r.
  assert (Hin : In ((x :: b, a2), cp) (re_match false (RStar true (RSet p)) (x :: b, a2) cp)).
  { rewrite re_match_star; cbn [star_go]; cbv zeta; apply in_or_app; right; left; reflexivity. }
  destruct (re_match false (RStar true (RSet p)) (x :: b, a2) cp)
    as [|[[b' a'] cp'] rest] eqn:E; [destruct Hin |].
  exists ((b', a'), cp'), rest; split; [reflexivity |].
  assert (Hh : In ((b', a'), cp') (re_match false (RStar true (RSet p)) (x :: b, a2) cp))
    by (rewrite E; left; reflexivity).
  destruct (consumes_star false true (RSet p) (fun _ => True)
              (consumes_set false p _ (fun _ _ => I)) _ _ _ _ _ _ Hh) as [m [Ha _]].
  cbn [fst snd]; rewrite Ha, length_app; lia.
Qed.

(** The pieces of [re.split] on a run of characters of a set contain no
    character of the set. *)
Lemma split_plus_set_pieces : forall p n b a cur, length a < n ->
  Forall (fun c => p c = false) cur ->
  Forall (Forall (fun c => p c = false)) (split_aux (RPlus (RSet p)) n b a cur).
Proof.
  intros p n; induction n as [|n IH]; intros b a cur Hn Hc; [lia |].
  cbn [split_aux].
  assert (Hx : forall x a2, a = x :: a2 ->
                 (forall h rest, re_match false (RPlus (RSet p)) (b, a) None = h :: rest ->
                    length (snd (fst h)) >= length a) -> p x = false).
  { intros x a2 -> Hr; destruct (p x) eqn:Px; [| reflexivity].
    destruct (plus_set_head p b x a2 None Px) as [h [rest [E L]]].
    specialize (Hr h rest E); cbn [length] in Hr; lia. }
  destruct (re_match false (RPlus (RSet p)) (b, a) None) as [|[[b' a'] cp'] rest] eqn:E.
  - destruct a as [|x a2]; [constructor; [apply Forall_rev; exact Hc | constructor] |].
    apply IH; [cbn [length] in Hn; lia |].
    constructor; [| exact Hc].
    apply (Hx x a2 eq_refl); intros h rest' E'; discriminate E'.
  - destruct (length a' <? length a) eqn:L.
    + apply Nat.ltb_lt in L; constructor; [apply Forall_rev; exact Hc |].
      apply IH; [lia | constructor].
    + apply Nat.ltb_ge in L.
      destruct a as [|x a2]; [constructor; [apply Forall_rev; exact Hc | constructor] |].
      apply IH; [cbn [length] in Hn; lia |].
      constructor; [| exact Hc].
      apply (Hx x a2 eq_refl); intros h rest' E'; injection E' as <- _; exact L.
Qed.

Lemma keyword_tokens_props : forall text t, In t (Processors.keyword_tokens text) ->
  2 <= length t /\ ~ In t Processors._STOPWORDS /\
  Forall (fun c => Processors.is_word_char c = true) t.
Proof.
  intros text t Ht; unfold Processors.keyword_tokens in Ht.
  apply filter_In in Ht as [Hs Hb]; apply andb_prop in Hb as [H1 H2].
  split; [apply Nat.leb_le; exact H1 |]; split.
  - intros Hin; apply existsb_str_eqb_In in Hin; rewrite Hin in H2; discriminate.
  - assert (F := split_plus_set_pieces (fun c => negb (Processors.is_word_char c))
                   (S (length text)) [] text [] ltac:(lia) (Forall_nil _)).
    rewrite Forall_forall in F; specialize (F t Hs).
    eapply Forall_impl; [| exact F]; intros c Hc; cbn beta in Hc.
    destruct (Processors.is_word_char c); [reflexivity | discriminate].
Qed.

Lemma insert_desc_perm : forall {A} (key : A -> Z) x ys,
  Permutation (Processors.insert_desc key x ys) (x :: ys).
Proof.
  intros A key x ys; induction ys as [|y ys IH]; cbn [Processors.insert_desc]; [reflexivity |].
  destruct (key x <=? key y)%Z; [| reflexivity].
  transitivity (y :: x :: ys); [constructor; exact IH | apply perm_swap].
Qed.

Lemma insert_desc_sorted : forall {A} (key : A -> Z) x ys,
  StronglySorted (fun a b => (key b <= key a)%Z) ys ->
  StronglySorted (fun a b => (key b <= key a)%Z) (Processors.insert_desc key x ys).
Proof.
  intros A key x ys; induction ys as [|y ys IH]; intros Hs; cbn [Processors.insert_desc].
  - constructor; constructor.
  - apply StronglySorted_inv in Hs as [Hs Hf].
    destruct (key x <=? key y)%Z eqn:E.
    + apply Z.leb_le in E; constructor; [exact (IH Hs) |].
      apply (Permutation_Forall (Permutation_sym (insert_desc_perm key x ys))).
      constructor; [exact E | exact Hf].
    + apply Z.leb_gt in E; constructor; [constructor; [exact Hs | exact Hf] |].
      constructor; [lia |].
      eapply Forall_impl; [| exact Hf]; intros z Hz; cbn beta in Hz; lia.
Qed.

Lemma sorted_desc_perm_sorted : forall {A} (key : A -> Z) xs,
  Permutation (Processors.sorted_desc key xs) xs /\
  StronglySorted (fun a b => (key b <= key a)%Z) (Processors.sorted_desc key xs).
Proof.
  intros A key xs; unfold Processors.sorted_desc.
  assert (G : forall acc, StronglySorted (fun a b => (key b <= key a)%Z) acc ->
    Permutation (fold_left (fun acc x => Processors.insert_desc key x acc) xs acc) (xs ++ acc) /\
    StronglySorted (fun a b => (key b <= key a)%Z)
      (fold_left (fun acc x => Processors.insert_desc key x acc) xs acc)).
  { induction xs as [|x xs IH]; intros acc Hs; cbn [fold_left]; [split; [reflexivity | exact Hs] |].
    destruct (IH (Processors.insert_desc key x acc) (insert_desc_sorted key x acc Hs)) as [H1 H2].
    split; [| exact H2].
    rewrite H1, insert_desc_perm; apply Permutation_sym, Permutation_middle. }
  destruct (G [] (SSorted_nil _)) as [H1 H2]; rewrite app_nil_r in H1; auto.
Qed.

Lemma StronglySorted_app_rel : forall {A} (R : A -> A -> Prop) l1 l2,
  StronglySorted R (l1 ++ l2) -> forall a b, In a l1 -> In b l2 -> R a b.
Proof.
  intros A R l1; induction l1 as [|x l1 IH]; intros l2 Hs a b Ha Hb; [destruct Ha |].
  apply StronglySorted_inv in Hs as [Hs Hf]; destruct Ha as [<- | Ha].
  - rewrite Forall_forall in Hf; apply Hf, in_or_app; right; exact Hb.
  - exact (IH l2 Hs a b Ha Hb).
Qed.

Lemma StronglySorted_firstn : forall {A} (R : A -> A -> Prop) n l,
  StronglySorted R l -> StronglySorted R (firstn n l).
Proof.
  intros A R n l; revert n; induction l as [|x l IH]; intros [|n] Hs; cbn [firstn];
    try constructor.
  - apply StronglySorted_inv in Hs as [Hs Hf]; exact (IH n Hs).
  - apply StronglySorted_inv in Hs as [Hs Hf].
    apply Forall_forall; intros y Hy; rewrite Forall_forall in Hf; exact (Hf y (In_firstn_of n l y Hy)).
Qed.

(** [_auto_keywords] returns the [topk] most frequent tokens, distinct
    and by non-increasing count: fewer only when the text has fewer
    distinct tokens, and a token left out occurs no more often than any
    token returned. Every keyword has at least two characters, is not a
    stop word and is made of digits, ASCII letters and Hangul syllables
    only. *)
Theorem auto_keywords_topk : forall text topk,
  let ts := Processors.keyword_tokens text in
  let ks := Processors._auto_keywords text topk in
  let cnt w := length (filter (str_eqb w) ts) in
  NoDup ks /\ length ks = Nat.min topk (length (dict_fromkeys ts)) /\
  StronglySorted (fun a b => cnt b <= cnt a) ks /\
  (forall w t, In w ks -> In t ts -> ~ In t ks -> cnt t <= cnt w) /\
  (forall w, In w ks -> In w ts /\ 2 <= length w /\ ~ In w Processors._STOPWORDS /\
     Forall (fun c => Processors.is_word_char c = true) w).
Proof.
  intros text topk ts ks cnt.
  set (C := Processors.counter ts).
  set (S := Processors.sorted_desc snd C).
  assert (Eks : ks = map fst (firstn topk S)) by reflexivity.
  destruct (sorted_desc_perm_sorted snd C) as [HP HS]; fold S in HP, HS.
  assert (HC : forall pr, In pr C -> In (fst pr) ts /\ snd pr = Z.of_nat (cnt (fst pr))).
  { intros pr Hpr; unfold C, Processors.counter in Hpr.
    apply in_map_iff in Hpr as [t [<- Ht]]; cbn [fst snd]; split; [| reflexivity].
    destruct (dedup_aux_props ts []) as [_ [Hin _]]; exact (proj1 (Hin t Ht)). }
  assert (HCfst : map fst C = dict_fromkeys ts).
  { unfold C, Processors.counter; rewrite map_map; apply map_id. }
  assert (HSfst : Permutation (map fst S) (dict_fromkeys ts)).
  { rewrite <- HCfst; apply Permutation_map; exact HP. }
  assert (HSin : forall pr, In pr S -> In (fst pr) ts /\ snd pr = Z.of_nat (cnt (fst pr))).
  { intros pr Hpr; apply HC; apply (Permutation_in _ HP Hpr). }
  destruct (dedup_aux_props ts []) as [Hnd [Hdin _]].
  split; [| split; [| split; [| split]]].
  - rewrite Eks, <- firstn_map; apply NoDup_firstn_of.
    apply (Permutation_NoDup (Permutation_sym HSfst)); exact Hnd.
  - rewrite Eks, length_map, length_firstn.
    rewrite (Permutation_length HP), <- (length_map fst C), HCfst; reflexivity.
  - rewrite Eks.
    assert (HF := StronglySorted_firstn _ topk S HS).
    assert (HFin : forall pr, In pr (firstn topk S) -> In pr S) by (intros pr; apply In_firstn_of).
    revert HF HFin; generalize (firstn topk S) as l; intros l.
    induction l as [|x l IH]; intros HF HFin; cbn [map]; constructor.
    + apply StronglySorted_inv in HF as [HF _]; apply IH; [exact HF |].
      intros pr Hpr; apply HFin; right; exact Hpr.
    + apply StronglySorted_inv in HF as [_ Hf].
      apply Forall_forall; intros w Hw; apply in_map_iff in Hw as [y [<- Hy]].
      rewrite Forall_forall in Hf; specialize (Hf y Hy).
      destruct (HSin x (HFin x (or_introl eq_refl))) as [_ Ex].
      destruct (HSin y (HFin y (or_intror Hy))) as [_ Ey].
      rewrite Ex, Ey in Hf; lia.
  - intros w t Hw Ht Hnk; rewrite Eks in Hw, Hnk.
    apply in_map_iff in Hw as [pw [<- Hpw]].
    assert (Htd : In t (map fst S)).
    { apply (Permutation_in _ (Permutation_sym HSfst)); apply dedup_aux_complete; [exact Ht | intros []]. }
    apply in_map_iff in Htd as [pt [<- Hpt]].
    assert (Hpt2 : In pt (skipn topk S)).
    { rewrite <- (firstn_skipn topk S) in Hpt; apply in_app_or in Hpt as [H | H]; [| exact H].
      exfalso; apply Hnk, in_map; exact H. }
    rewrite <- (firstn_skipn topk S) in HS.
    assert (R := StronglySorted_app_rel _ _ _ HS pw pt Hpw Hpt2); cbn beta in R.
    destruct (HSin pw (In_firstn_of _ _ _ Hpw)) as [_ Ew].
    assert (HptS : In pt S)
      by (rewrite <- (firstn_skipn topk S); apply in_or_app; right; exact Hpt2).
    destruct (HSin pt HptS) as [_ Et].
    lia.
  - intros w Hw; rewrite Eks in Hw; apply in_map_iff in Hw as [pw [<- Hpw]].
    destruct (HSin pw (In_firstn_of _ _ _ Hpw)) as [Hin _].
    split; [exact Hin | exact (keyword_tokens_props text _ Hin)].
Qed.

(* ------------------------------------------------------------------ *)
(** ** Tag detection *)

Lemma search_from_sound : forall ic r a b, search_from ic r b a = true ->
  exists b' a', rev b ++ a = rev b' ++ a' /\ re_match ic r (b', a') None <> [].
Proof.
  intros ic r a; induction a as [|x a IH]; intros b H; cbn [search_from] in H.
  - destruct (re_match ic r (b, []) None) eqn:E; [discriminate |].
    exists b, []; split; [reflexivity | rewrite E; discriminate].
  - destruct (re_match ic r (b, x :: a) None) eqn:E.
    + destruct (IH _ H) as [b' [a' [Hs Hm]]]; exists b', a'; split; [| exact Hm].
      rewrite <- Hs; cbn [rev]; rewrite <- app_assoc; reflexivity.
    + exists b, (x :: a); split; [reflexivity | rewrite E; discriminate].
Qed.

Lemma search_from_complete : forall ic r p b a, re_match ic r (rev p ++ b, a) None <> [] ->
  search_from ic r b (p ++ a) = true.
Proof.
  intros ic r p; induction p as [|x p IH]; intros b a H; cbn [rev app] in *.
  - destruct a; cbn [search_from]; destruct (re_match ic r (b, _) None); congruence.
  - cbn [search_from]; destruct (re_match ic r (b, x :: p ++ a) None); [| reflexivity].
    apply IH; rewrite <- app_assoc in H; exact H.
Qed.

Lemma set_inv : forall ic p b a cp b' a' cp',
  In ((b', a'), cp') (re_match ic (RSet p) (b, a) cp) ->
  exists x, a = x :: a' /\ p x = true.
Proof.
  intros ic p b [|x a] cp b' a' cp' H; cbn [re_match] in H; [destruct H |].
  destruct (p x) eqn:Ex; [| destruct H].
  destruct H as [E | []]; injection E as _ <- _; eauto.
Qed.

Lemma star_set_all : forall ic g p m b rest cp n, Forall (fun x => p x = true) m ->
  length m < n -> In ((rev m ++ b, rest), cp) (star_go ic g (RSet p) n (b, m ++ rest) cp).
Proof.
  intros ic g p m; induction m as [|x m IH]; intros b rest cp n Hm Hn;
    (destruct n as [|n]; [cbn [length] in Hn; lia |]); cbn [star_go]; cbv zeta.
  - destruct g; [apply in_or_app; right |]; left; reflexivity.
  - apply Forall_cons_iff in Hm as [Hx Hm].
    assert (Hin : In ((rev (x :: m) ++ b, rest), cp)
                     (flat_map (fun zc => if length (snd (fst zc)) <? length (snd (b, (x :: m) ++ rest))
                                          then star_go ic g (RSet p) n (fst zc) (snd zc) else [])
                               (re_match ic (RSet p) (b, (x :: m) ++ rest) cp))).
    { cbn [app re_match]; rewrite Hx; cbn [flat_map fst snd].
      replace (length (m ++ rest) <? length (x :: m ++ rest)) with true
        by (symmetry; apply Nat.ltb_lt; cbn [length]; lia).
      rewrite app_nil_r; cbn [rev]; rewrite <- app_assoc; cbn [app].
      apply IH; [exact Hm | cbn [length] in Hn; lia]. }
    destruct g; [apply in_or_app; left; exact Hin | right; exact Hin].
Qed.

(** [_has_html] (and [transform.has_html], the same function) holds
    exactly when the text contains [<], an ASCII letter, any characters
    other than [>], and then [>]. *)
Theorem has_html_iff : forall s,
  _has_html s = true <->
  exists p c m q, s = p ++ 60%Z :: c :: m ++ 62%Z :: q /\
    (((65 <= c <= 90) \/ (97 <= c <= 122))%Z) /\ ~ In 62%Z m.
Proof.
  intros s; unfold _has_html; split.
  - intros H; apply andb_prop in H as [_ H]; unfold re_search in H.
    apply search_from_sound in H as [b' [a' [Hs Hm]]]; cbn [rev app] in Hs.
    destruct (re_match false re_open_tag (b', a') None) as [|[[b1 a1] cp1] rest] eqn:E;
      [contradiction |].
    assert (Hin : In ((b1, a1), cp1) (re_match false re_open_tag (b', a') None))
      by (rewrite E; left; reflexivity).
    unfold re_open_tag in Hin; cbn [RCat] in Hin.
    apply seq_inv in Hin as [[b2 a2] [cp2 [H1 Hin]]]; apply char_inv in H1 as ->.
    apply seq_inv in Hin as [[b3 a3] [cp3 [H2 Hin]]]; apply set_inv in H2 as [c [-> Hc]].
    apply seq_inv in Hin as [[b4 a4] [cp4 [H3 H4]]]; apply char_inv in H4 as ->.
    destruct (consumes_star false true _ (fun x => x <> 62%Z)
                (consumes_set false _ _ (fun x Hx => ltac:(apply Bool.negb_true_iff, Z.eqb_neq in Hx; exact Hx)))
                _ _ _ _ _ _ H3) as [m [-> Fm]].
    exists (rev b'), c, m, a1; split; [exact Hs |]; split.
    + apply orb_prop in Hc as [Hc | Hc]; apply andb_prop in Hc as [Hc1 Hc2];
        apply Z.leb_le in Hc1, Hc2; [left | right]; lia.
    + rewrite Forall_forall in Fm; intros Hin; exact (Fm _ Hin eq_refl).
  - intros [p [c [m [q [-> [Hc Hm]]]]]].
    apply andb_true_intro; split; [destruct p; reflexivity |].
    unfold re_search; apply (search_from_complete false re_open_tag p []).
    set (B := rev p ++ []).
    assert (Hin : In ((62%Z :: rev m ++ c :: 60%Z :: B, q), None)
                     (re_match false re_open_tag (B, 60%Z :: c :: m ++ 62%Z :: q) None)).
    { unfold re_open_tag; cbn [RCat].
      apply in_flat_map; exists ((60%Z :: B, c :: m ++ 62%Z :: q), None); split;
        [cbn [re_match char_eq]; rewrite Z.eqb_refl; left; reflexivity |].
      cbn [fst snd]; apply in_flat_map; exists ((c :: 60%Z :: B, m ++ 62%Z :: q), None); split.
      - cbn [re_match].
        replace (((65 <=? c) && (c <=? 90)) || ((97 <=? c) && (c <=? 122)))%Z with true
          by (symmetry; destruct Hc as [Hc | Hc];
              [apply orb_true_intro; left | apply orb_true_intro; right];
              apply andb_true_intro; split; apply Z.leb_le; lia).
        left; reflexivity.
      - cbn [fst snd]; apply in_flat_map.
        exists ((rev m ++ c :: 60%Z :: B, 62%Z :: q), None); split.
        + change (In ((rev m ++ c :: 60%Z :: B, 62%Z :: q), None)
                    (re_match false (RStar true (RSet (fun x => negb (x =? 62)%Z)))
                              (c :: 60%Z :: B, m ++ 62%Z :: q) None)).
          rewrite re_match_star; apply star_set_all; [| cbn [snd]; rewrite length_app; cbn [length]; lia].
          apply Forall_forall; intros x Hx; apply Bool.negb_true_iff, Z.eqb_neq.
          intros ->; exact (Hm Hx).
        + cbn [fst snd re_match char_eq]; rewrite Z.eqb_refl; left; reflexivity. }
    intros E; rewrite E in Hin; exact Hin.
Qed.

(* ------------------------------------------------------------------ *)
(** ** Closing a summary sentence *)

Lemma sub_ws_run_spaces : forall n b a, length a < n ->
  Forall (fun x => py_isspace x = true -> x = 32%Z)
         (sub_aux false Processors.re_ws_run [32%Z] n b a).
Proof.
  intros n; induction n as [|n IH]; intros b a Hn; [lia |].
  change Processors.re_ws_run with (RPlus (RSet py_isspace)); cbn [sub_aux].
  assert (Hx : forall x a2, a = x :: a2 ->
                 (forall h rest, re_match false (RPlus (RSet py_isspace)) (b, a) None = h :: rest ->
                    length (snd (fst h)) >= length a) -> py_isspace x = false).
  { intros x a2 -> Hr; destruct (py_isspace x) eqn:Px; [| reflexivity].
    destruct (plus_set_head py_isspace b x a2 None Px) as [h [rest [E L]]].
    specialize (Hr h rest E); cbn [length] in Hr; lia. }
  assert (Hsp : Forall (fun x => py_isspace x = true -> x = 32%Z) [32%Z])
    by (constructor; [reflexivity | constructor]).
  destruct (re_match false (RPlus (RSet py_isspace)) (b, a) None) as [|[[b' a'] cp'] rest] eqn:E.
  - destruct a as [|x a2]; [constructor |].
    assert (Px := Hx x a2 eq_refl (fun h rest' E' => ltac:(discriminate E'))).
    constructor; [rewrite Px; discriminate |].
    apply IH; cbn [length] in Hn; lia.
  - destruct (length a' <? length a) eqn:L.
    + apply Nat.ltb_lt in L; apply Forall_app; split; [exact Hsp |].
      apply IH; lia.
    + apply Nat.ltb_ge in L; destruct a as [|x a2]; [exact Hsp |].
      assert (Px := Hx x a2 eq_refl (fun h rest' E' => ltac:(injection E' as <- _; exact L))).
      apply Forall_app; split; [exact Hsp |].
      constructor; [rewrite Px; discriminate |].
      apply IH; cbn [length] in Hn; lia.
Qed.

Lemma REnd_inv : forall ic b a cp b' a' cp',
  In ((b', a'), cp') (re_match ic REnd (b, a) cp) -> a' = a /\ (a = [] \/ a = [10%Z]).
Proof.
  intros ic b a cp b' a' cp' H.
  destruct a as [|x t]; [cbn [re_match snd] in H; destruct H as [E | []];
                         injection E as _ <- _; auto |].
  destruct (Z.eq_dec x 10) as [-> | Hn].
  - destruct t as [|y t]; cbn [re_match snd] in H; [| destruct H].
    destruct H as [E | []]; injection E as _ <- _; auto.
  - exfalso; cbn [re_match snd] in H.
    destruct x as [|p|p]; try destruct H;
      repeat (destruct p as [p|p|]; try destruct H); apply Hn; reflexivity.
Qed.

Lemma RStr_inv : forall w b a cp b' a' cp',
  In ((b', a'), cp') (re_match false (RStr w) (b, a) cp) -> a = w ++ a'.
Proof.
  induction w as [|c w IH]; intros b a cp b' a' cp' H; cbn [RStr] in H.
  - cbn [re_match] in H; destruct H as [E | []]; injection E as _ <- _; reflexivity.
  - apply seq_inv in H as [[b1 a1] [cp1 [H1 H2]]]; apply char_inv in H1 as ->.
    rewrite (IH _ _ _ _ _ _ H2); reflexivity.
Qed.

Lemma search_seq_end : forall r s, re_search false (RSeq r REnd) s = true ->
  exists b a b1 a1 cp1, s = rev b ++ a /\ In ((b1, a1), cp1) (re_match false r (b, a) None) /\
    (a1 = [] \/ a1 = [10%Z]).
Proof.
  intros r s H; unfold re_search in H; apply search_from_sound in H as [b [a [Hs Hm]]].
  cbn [rev app] in Hs.
  destruct (re_match false (RSeq r REnd) (b, a) None) as [|res rest] eqn:E; [contradiction |].
  assert (Hin : In res (re_match false (RSeq r REnd) (b, a) None)) by (rewrite E; left; reflexivity).
  apply seq_inv in Hin as [[b1 a1] [cp1 [H1 H2]]]; destruct res as [[b2 a2] cp2].
  apply REnd_inv in H2 as [_ H2]; exists b, a, b1, a1, cp1; auto.
Qed.

Lemma rstrip_chars_in : forall chars s x, In x (Processors.rstrip_chars chars s) -> In x s.
Proof.
  intros chars s x H; unfold Processors.rstrip_chars in H; rewrite <- in_rev in H.
  apply in_rev; revert H; generalize (rev s) as l; intros l.
  induction l as [|c l IH]; [tauto |]; intros H.
  destruct (existsb (Z.eqb c) chars); [right; exact (IH H) | exact H].
Qed.

(** [_close_sentence] returns [""] exactly for a blank input; otherwise
    its result ends in [.], [!], [?], [다] or [요], and the only
    whitespace left in it is the plain space. *)
Theorem close_sentence_shape : forall s,
  (py_strip s = [] -> Processors._close_sentence s = []) /\
  (py_strip s <> [] -> exists p c, Processors._close_sentence s = p ++ [c] /\
     In c [46; 33; 63; 45796; 50836]%Z /\
     Forall (fun x => py_isspace x = true -> x = 32%Z) (p ++ [c])).
Proof.
  intros s; unfold Processors._close_sentence.
  destruct (py_strip s) as [|c0 t] eqn:Es; cbn [is_nil];
    [split; [reflexivity | intros H; contradiction] | split; [discriminate | intros _]].
  set (s' := re_sub false Processors.re_ws_run (u " ") (c0 :: t)).
  assert (Hws : Forall (fun x => py_isspace x = true -> x = 32%Z) s')
    by (apply sub_ws_run_spaces; lia).
  assert (H10 : forall q, s' <> q ++ [10%Z]).
  { intros q Eq; rewrite Eq in Hws; apply Forall_app in Hws as [_ Hws].
    inversion Hws as [| ? ? Hx _]; specialize (Hx eq_refl); discriminate. }
  destruct (re_search false (RSeq (RCls [46; 33; 63]%Z) REnd) s') eqn:EA; cbn [orb].
  - apply search_seq_end in EA as [b [a [b1 [a1 [cp1 [Ha [Hin Ha1]]]]]]].
    unfold RCls in Hin.
    destruct (set_inv _ _ _ _ _ _ _ _ Hin) as [x [-> Hx]].
    destruct Ha1 as [-> | ->]; [| exfalso; apply (H10 (rev b ++ [x])); rewrite Ha, <- app_assoc; reflexivity].
    exists (rev b), x; split; [exact Ha | split; [| rewrite <- Ha; exact Hws]].
    apply existsb_exists in Hx as [y [Hy Hxy]]; apply Z.eqb_eq in Hxy; subst y.
    destruct Hy as [<- | [<- | [<- | []]]]; cbn; tauto.
  - destruct (re_search false (RSeq (Processors.RAlts (map Processors.RWord ["다"; "요"; "합니다"; "이다"]%string)) REnd) s')
      eqn:EB.
    + apply search_seq_end in EB as [b [a [b1 [a1 [cp1 [Ha [Hin Ha1]]]]]]].
      destruct Ha1 as [-> | ->].
      * cbn [Processors.RAlts map fold_left re_match] in Hin.
        assert (Hw : exists w, a = w ++ [] /\ In w (map u ["다"; "요"; "합니다"; "이다"]%string)).
        { repeat (apply in_app_or in Hin as [Hin | Hin]);
            unfold Processors.RWord in Hin; apply RStr_inv in Hin; eexists; split; try exact Hin;
            cbn [map]; simpl; tauto. }
        destruct Hw as [w [Hw Hwin]]; rewrite app_nil_r in Hw; subst a.
        vm_compute in Hwin.
        destruct Hwin as [<- | [<- | [<- | [<- | []]]]];
          [exists (rev b), 45796%Z | exists (rev b), 50836%Z
          | exists (rev b ++ [54633; 45768]%Z), 45796%Z | exists (rev b ++ [51060]%Z), 45796%Z];
          (split; [rewrite Ha; try (rewrite <- app_assoc); reflexivity |]);
          (split; [cbn; tauto |]);
          [rewrite <- Ha; exact Hws | rewrite <- Ha; exact Hws
          | rewrite <- app_assoc; cbn [app]; rewrite <- Ha; exact Hws
          | rewrite <- app_assoc; cbn [app]; rewrite <- Ha; exact Hws].
      * exfalso; cbn [Processors.RAlts map fold_left re_match] in Hin.
        repeat (apply in_app_or in Hin as [Hin | Hin]);
          unfold Processors.RWord in Hin; apply RStr_inv in Hin; rewrite Hin in Ha;
          match type of Ha with
          | _ = rev b ++ ?w ++ _ => apply (H10 (rev b ++ w)); rewrite Ha, <- app_assoc; reflexivity
          end.
    + exists (Processors.rstrip_chars (u "…,:;") s'), 45796%Z; split; [reflexivity |].
      split; [cbn; tauto |].
      apply Forall_app; split; [| constructor; [discriminate | constructor]].
      apply Forall_forall; intros x Hx; apply rstrip_chars_in in Hx.
      rewrite Forall_forall in Hws; exact (Hws x Hx).
Qed.

(* ------------------------------------------------------------------ *)
(** ** [app._coerce_item_keys] *)

Lemma str_eqb_sym : forall a b, str_eqb a b = str_eqb b a.
Proof.
  intros a b; destruct (str_eqb a b) eqn:E1; symmetry.
  - apply str_eqb_eq in E1; subst; apply str_eqb_eq; reflexivity.
  - destruct (str_eqb b a) eqn:E2; [| reflexivity].
    apply str_eqb_eq in E2; subst; rewrite (proj2 (str_eqb_eq a a) eq_refl) in E1; discriminate.
Qed.

Lemma dict_get_cons : forall k0 v0 r k,
  dict_get ((k0, v0) :: r) k = if str_eqb k0 k then Some v0 else dict_get r k.
Proof. intros; unfold dict_get; cbn [find fst]; destruct (str_eqb k0 k); reflexivity. Qed.

Lemma dict_get_set_absent : forall d k v k', dict_get d k = None ->
  dict_get (dict_set d k v) k' = if str_eqb k k' then Some v else dict_get d k'.
Proof.
  induction d as [|[k0 v0] r IH]; intros k v k' H; cbn [dict_set].
  - rewrite dict_get_cons; reflexivity.
  - rewrite dict_get_cons in H; destruct (str_eqb k0 k) eqn:E0; [discriminate |].
    assert (E0' : str_eqb k k0 = false) by (rewrite str_eqb_sym; exact E0).
    rewrite E0', !dict_get_cons, IH by exact H.
    destruct (str_eqb k0 k') eqn:E1, (str_eqb k k') eqn:E2; auto.
    apply str_eqb_eq in E1, E2; subst.
    rewrite (proj2 (str_eqb_eq _ _) eq_refl) in E0; discriminate.
Qed.

Lemma set_step_get : forall {A} d k (o : option A) (f : A -> json) k',
  dict_get (if App.dict_has d k then d
            else match o with Some v => dict_set d k (f v) | None => d end) k' =
  if str_eqb k k' then match dict_get d k with Some v => Some v | None => option_map f o end
  else dict_get d k'.
Proof.
  intros A d k o f k'; unfold App.dict_has.
  destruct (dict_get d k) as [j|] eqn:E.
  - destruct (str_eqb k k') eqn:Ek; [apply str_eqb_eq in Ek; subst; exact E | reflexivity].
  - destruct o as [v|]; cbn [option_map].
    + apply dict_get_set_absent; exact E.
    + destruct (str_eqb k k') eqn:Ek; [apply str_eqb_eq in Ek; subst; exact E | reflexivity].
Qed.

Lemma id_step_get : forall d k k2 k',
  dict_get (if negb (App.dict_has d k) && App.dict_has d k2 then
              match dict_get d k2 with Some v => dict_set d k v | None => d end
            else d) k' =
  if str_eqb k k' then match dict_get d k with Some v => Some v | None => dict_get d k2 end
  else dict_get d k'.
Proof.
  intros d k k2 k'; unfold App.dict_has.
  destruct (dict_get d k) as [j|] eqn:E; cbn [negb andb].
  - destruct (str_eqb k k') eqn:Ek; [apply str_eqb_eq in Ek; subst; exact E | reflexivity].
  - destruct (dict_get d k2) as [v|] eqn:E2.
    + apply dict_get_set_absent; exact E.
    + destruct (str_eqb k k') eqn:Ek; [apply str_eqb_eq in Ek; subst; exact E | reflexivity].
Qed.

Lemma first_nonblank_ext : forall d1 d2 keys,
  (forall k, In k keys -> dict_get d1 k = dict_get d2 k) ->
  App.first_nonblank_str d1 keys = App.first_nonblank_str d2 keys.
Proof.
  intros d1 d2 keys; induction keys as [|k ks IH]; intros H; cbn [App.first_nonblank_str];
    [reflexivity |].
  rewrite (H k (or_introl eq_refl)), IH by (intros k' Hk'; apply H; right; exact Hk').
  reflexivity.
Qed.

Lemma coerce_get : forall d k,
  dict_get (App._coerce_item_keys d) k =
  if str_eqb (u "text") k then
    match dict_get d (u "text") with
    | Some v => Some v
    | None => option_map JStr (App.first_nonblank_str d App.text_source_keys)
    end
  else if str_eqb (u "title") k then
    match dict_get d (u "title") with
    | Some v => Some v
    | None => option_map JStr (App.first_nonblank_str d App.title_source_keys)
    end
  else if str_eqb (u "id") k then
    match dict_get d (u "id") with
    | Some v => Some v
    | None => dict_get d (u "newsIdentifyId")
    end
  else dict_get d k.
Proof.
  intros d k; unfold App._coerce_item_keys; cbv zeta.
  rewrite id_step_get, !set_step_get.
  rewrite (first_nonblank_ext _ d App.title_source_keys).
  2: { intros k' Hk'; rewrite set_step_get.
       replace (str_eqb (u "text") k') with false; [reflexivity |].
       vm_compute in Hk';
         repeat (destruct Hk' as [<- | Hk']; [reflexivity |]); destruct Hk'. }
  replace (str_eqb (u "text") (u "id")) with false by reflexivity.
  replace (str_eqb (u "title") (u "id")) with false by reflexivity.
  replace (str_eqb (u "text") (u "title")) with false by reflexivity.
  replace (str_eqb (u "text") (u "newsIdentifyId")) with false by reflexivity.
  replace (str_eqb (u "title") (u "newsIdentifyId")) with false by reflexivity.
  replace (str_eqb (u "title") (u "title")) with true by reflexivity.
  destruct (str_eqb (u "id") k) eqn:Ei.
  - apply str_eqb_eq in Ei; subst k; reflexivity.
  - destruct (str_eqb (u "title") k) eqn:Et.
    + apply str_eqb_eq in Et; subst k; reflexivity.
    + destruct (str_eqb (u "text") k); reflexivity.
Qed.

Lemma coerce_get_other : forall d k,
  ~ In k [u "text"; u "title"; u "id"] -> dict_get (App._coerce_item_keys d) k = dict_get d k.
Proof.
  intros d k Hk; rewrite coerce_get.
  destruct (str_eqb (u "text") k) eqn:E1; [apply str_eqb_eq in E1; subst; exfalso; apply Hk; left; reflexivity |].
  destruct (str_eqb (u "title") k) eqn:E2; [apply str_eqb_eq in E2; subst; exfalso; apply Hk; right; left; reflexivity |].
  destruct (str_eqb (u "id") k) eqn:E3; [apply str_eqb_eq in E3; subst; exfalso; apply Hk; right; right; left; reflexivity |].
  reflexivity.
Qed.

Lemma source_keys_other : forall k,
  In k (App.text_source_keys ++ App.title_source_keys ++ [u "newsIdentifyId"]) ->
  ~ In k [u "text"; u "title"; u "id"].
Proof.
  intros k Hk; vm_compute in Hk;
    repeat (destruct Hk as [<- | Hk]; [vm_compute; intuition discriminate |]); destruct Hk.
Qed.

(** [_coerce_item_keys] never overwrites or removes a key: it only adds
    ["text"] (from the first non-blank string among ["contents"],
    ["content"], ["body"], ["desc"], ["description"]), ["title"] (from
    ["newsTitle"], ["name"], ["headline"]) and ["id"] (a copy of
    ["newsIdentifyId"]), each only when the key is missing. *)
Theorem coerce_item_keys_lookup : forall d,
  let out := App._coerce_item_keys d in
  (forall k v, dict_get d k = Some v -> dict_get out k = Some v) /\
  (forall k, ~ In k [u "text"; u "title"; u "id"] -> dict_get out k = dict_get d k) /\
  dict_get out (u "text") =
    match dict_get d (u "text") with
    | Some v => Some v
    | None => option_map JStr (App.first_nonblank_str d App.text_source_keys)
    end /\
  dict_get out (u "title") =
    match dict_get d (u "title") with
    | Some v => Some v
    | None => option_map JStr (App.first_nonblank_str d App.title_source_keys)
    end /\
  dict_get out (u "id") =
    match dict_get d (u "id") with Some v => Some v | None => dict_get d (u "newsIdentifyId") end.
Proof.
  intros d out; subst out; split; [| split; [exact (coerce_get_other d) |]].
  - intros k v H; rewrite coerce_get.
    destruct (str_eqb (u "text") k) eqn:E1; [apply str_eqb_eq in E1; subst; rewrite H; reflexivity |].
    destruct (str_eqb (u "title") k) eqn:E2; [apply str_eqb_eq in E2; subst; rewrite H; reflexivity |].
    destruct (str_eqb (u "id") k) eqn:E3; [apply str_eqb_eq in E3; subst; rewrite H; reflexivity |].
    exact H.
  - rewrite !coerce_get; split; [reflexivity | split; reflexivity].
Qed.

(** Coercing the keys of an item twice changes nothing more. *)
Theorem coerce_item_keys_idempotent : forall d,
  App._coerce_item_keys (App._coerce_item_keys d) = App._coerce_item_keys d.
Proof.
  intros d; set (out := App._coerce_item_keys d).
  assert (Hsrc : forall keys, (forall k, In k keys ->
                   In k (App.text_source_keys ++ App.title_source_keys ++ [u "newsIdentifyId"])) ->
                 App.first_nonblank_str out keys = App.first_nonblank_str d keys).
  { intros keys Hk; apply first_nonblank_ext; intros k Hin.
    apply coerce_get_other, source_keys_other, Hk, Hin. }
  assert (Gt : dict_get out (u "text") =
                 match dict_get d (u "text") with
                 | Some v => Some v
                 | None => option_map JStr (App.first_nonblank_str d App.text_source_keys)
                 end) by (unfold out; rewrite coerce_get; reflexivity).
  assert (Gi : dict_get out (u "title") =
                 match dict_get d (u "title") with
                 | Some v => Some v
                 | None => option_map JStr (App.first_nonblank_str d App.title_source_keys)
                 end) by (unfold out; rewrite coerce_get; reflexivity).
  assert (Gd : dict_get out (u "id") =
                 match dict_get d (u "id") with
                 | Some v => Some v
                 | None => dict_get d (u "newsIdentifyId")
                 end) by (unfold out; rewrite coerce_get; reflexivity).
  assert (Gn : dict_get out (u "newsIdentifyId") = dict_get d (u "newsIdentifyId"))
    by (apply coerce_get_other, source_keys_other; vm_compute; tauto).
  assert (St : (if App.dict_has out (u "text") then out
                else match App.first_nonblank_str out App.text_source_keys with
                     | Some v => dict_set out (u "text") (JStr v)
                     | None => out
                     end) = out).
  { unfold App.dict_has; destruct (dict_get out (u "text")) eqn:Et; [reflexivity |].
    rewrite (Hsrc App.text_source_keys) by (intros k Hk; apply in_or_app; left; exact Hk).
    rewrite Gt in Et; destruct (dict_get d (u "text")); [discriminate |].
    destruct (App.first_nonblank_str d App.text_source_keys); [discriminate | reflexivity]. }
  assert (Si : (if App.dict_has out (u "title") then out
                else match App.first_nonblank_str out App.title_source_keys with
                     | Some v => dict_set out (u "title") (JStr v)
                     | None => out
                     end) = out).
  { unfold App.dict_has; destruct (dict_get out (u "title")) eqn:Et; [reflexivity |].
    rewrite (Hsrc App.title_source_keys)
      by (intros k Hk; apply in_or_app; right; apply in_or_app; left; exact Hk).
    rewrite Gi in Et; destruct (dict_get d (u "title")); [discriminate |].
    destruct (App.first_nonblank_str d App.title_source_keys); [discriminate | reflexivity]. }
  assert (Sd : (if negb (App.dict_has out (u "id")) && App.dict_has out (u "newsIdentifyId") then
                  match dict_get out (u "newsIdentifyId") with
                  | Some v => dict_set out (u "id") v
                  | None => out
                  end
                else out) = out).
  { unfold App.dict_has; rewrite Gd, Gn.
    destruct (dict_get d (u "id")); [reflexivity |].
    destruct (dict_get d (u "newsIdentifyId")); reflexivity. }
  unfold App._coerce_item_keys at 1; cbv zeta; fold out.
  rewrite St, Si, Sd; reflexivity.
Qed.

(* ------------------------------------------------------------------ *)
(** ** One JSON document read by the multi-value parser *)

Lemma isspace_values : forall c, py_isspace c = true ->
  In c ([9; 10; 11; 12; 13; 28; 29; 30; 31; 32; 133; 160; 5760] ++
        [8192; 8193; 8194; 8195; 8196; 8197; 8198; 8199; 8200; 8201; 8202] ++
        [8232; 8233; 8239; 8287; 12288])%Z.
Proof.
  intros c H; unfold py_isspace in H.
  repeat rewrite ?orb_true_iff, ?andb_true_iff, ?Z.leb_le, ?Z.eqb_eq in H.
  cbn [app In]; lia.
Qed.

Lemma parse_value_space : forall n c r, py_isspace c = true -> parse_value n (c :: r) = None.
Proof.
  intros [|n] c r H; [reflexivity |].
  apply isspace_values in H; cbn [app In] in H.
  repeat (destruct H as [<- | H]; [reflexivity |]); destruct H.
Qed.

Lemma json_ws_isspace : forall c, json_ws c = true -> py_isspace c = true.
Proof.
  intros c H; unfold json_ws in H; repeat rewrite ?orb_true_iff, ?Z.eqb_eq in H.
  destruct H as [[[-> | ->] | ->] | ->]; reflexivity.
Qed.

Lemma lstrip_skip_ws : forall s,
  (forall c r, skip_ws s = c :: r -> py_isspace c = false) -> py_lstrip s = skip_ws s.
Proof.
  induction s as [|c s IH]; intros H; [reflexivity |]; cbn [skip_ws py_lstrip] in *.
  destruct (json_ws c) eqn:Ej.
  - rewrite (json_ws_isspace c Ej); exact (IH H).
  - rewrite (H c s eq_refl); reflexivity.
Qed.

Lemma lstrip_ws_only : forall r, skip_ws r = [] -> py_lstrip r = [].
Proof.
  induction r as [|c r IH]; intros H; [reflexivity |]; cbn [skip_ws py_lstrip] in *.
  destruct (json_ws c) eqn:Ej; [| discriminate].
  rewrite (json_ws_isspace c Ej); exact (IH H).
Qed.

(** A text that [json.loads] accepts is read by
    [_parse_multiple_json_values] as exactly that one value. *)
Theorem parse_multiple_single : forall s v,
  json_loads s = Some v -> _parse_multiple_json_values s = Some [v].
Proof.
  intros s v H; unfold json_loads in H.
  destruct (py_startswith s [65279%Z]); [discriminate |].
  destruct (raw_decode (skip_ws s)) as [[v' r]|] eqn:E; [| discriminate].
  destruct (skip_ws r) eqn:Er; [| discriminate]; injection H as <-.
  unfold _parse_multiple_json_values.
  replace (2 * length s + 2) with (S (S (2 * length s))) by lia.
  cbn [parse_multiple_aux].
  rewrite lstrip_skip_ws.
  2: { intros c r0 Es; destruct (py_isspace c) eqn:Ec; [| reflexivity].
       rewrite Es in E; unfold raw_decode in E; rewrite parse_value_space in E by exact Ec.
       discriminate. }
  destruct (skip_ws s) as [|c r0] eqn:Es; [discriminate E |].
  rewrite E; cbn [parse_multiple_aux]; rewrite (lstrip_ws_only r Er); reflexivity.
Qed.

Lemma parse_multiple_single_witness :
  json_loads (u " [1, 2] ") = Some (JArr [JInt 1; JInt 2]) /\
  _parse_multiple_json_values (u " [1, 2] ") = Some [JArr [JInt 1; JInt 2]].
Proof.
  refine (conj _ _); [vm_compute; reflexivity |].
  apply parse_multiple_single; vm_compute; reflexivity.
Defined.

(* ------------------------------------------------------------------ *)
(** ** Whitespace in normalised subcategories *)

Lemma py_lstrip_in : forall s c, In c (py_lstrip s) -> In c s.
Proof.
  induction s as [|x s IH]; intros c H; [exact H |]; cbn [py_lstrip] in H.
  destruct (py_isspace x); [right; exact (IH c H) | exact H].
Qed.

Lemma py_strip_in : forall s c, In c (py_strip s) -> In c s.
Proof.
  intros s c H; unfold py_strip, py_rstrip in H; rewrite <- in_rev in H.
  apply py_lstrip_in in H; rewrite <- in_rev in H; exact (py_lstrip_in _ _ H).
Qed.

Lemma replace_aux_in : forall old new n s c,
  In c (Processors.replace_aux old new n s) -> In c s \/ In c new.
Proof.
  intros old new n; induction n as [|n IH]; intros s c H; cbn [Processors.replace_aux] in H;
    [left; exact H |].
  destruct s as [|x r]; [destruct H |].
  destruct (py_startswith (x :: r) old).
  - apply in_app_or in H as [H | H]; [right; exact H |].
    destruct (IH _ _ H) as [H' | H']; [| right; exact H'].
    left; rewrite <- (firstn_skipn (length old) (x :: r)); apply in_or_app; right; exact H'.
  - destruct H as [<- | H]; [left; left; reflexivity |].
    destruct (IH _ _ H) as [H' | H']; [left; right; exact H' | right; exact H'].
Qed.

(** Every subcategory [_normalize_subs] returns holds no whitespace
    other than the plain space: tabs, newlines and the other Unicode
    spaces of the input are gone. *)
Theorem normalize_subs_spaces : forall py_lower subs,
  Forall (Forall (fun x => py_isspace x = true -> x = 32%Z))
         (Processors._normalize_subs py_lower subs).
Proof.
  intros py_lower subs; unfold Processors._normalize_subs.
  match goal with |- context [Processors._pad4 ?xs] =>
    destruct (processors_pad4_parts xs) as [E _]; rewrite E end.
  unfold pad_empty; apply Forall_app; split.
  2: { apply Forall_forall; intros y Hy; apply repeat_spec in Hy as ->; constructor. }
  apply Forall_forall; intros y Hy; apply In_firstn_of in Hy.
  unfold dict_fromkeys in Hy; apply (proj1 (proj2 (dedup_aux_props _ _))) in Hy as [Hy _].
  apply in_map_iff in Hy as [x [<- Hx]]; apply filter_In in Hx as [Hx _].
  apply in_flat_map in Hx as [s [_ Hs]].
  apply Forall_forall; intros c Hc; apply py_strip_in in Hc.
  unfold Processors.normalize_sub in Hs; cbv zeta in Hs.
  destruct (is_nil _) in Hs; [destruct Hs |].
  destruct (existsb _ _) in Hs; destruct Hs as [<- | []];
    [vm_compute in Hc; intuition; subst; discriminate |].
  unfold Processors.py_replace in Hc.
  apply replace_aux_in in Hc as [Hc | Hc]; [| vm_compute in Hc; intuition; subst; discriminate].
  apply replace_aux_in in Hc as [Hc | Hc]; [| vm_compute in Hc; intuition; subst; discriminate].
  apply py_strip_in in Hc; unfold re_sub in Hc.
  assert (F := sub_ws_run_spaces (S (length s)) [] s ltac:(lia)).
  rewrite Forall_forall in F; exact (F c Hc).
Qed.
